(** * LazyMailBOSS: the e-mail processing pipeline

    A shallow embedding of the TypeScript sources of the auto-replier:
    the message filter ([KeywordMatcher], [DomainFilter], [MessageFilter]),
    the responder ([AutoResponderImpl], [ReadTrackerImpl.markAsRead]), the
    monitor ([EmailMonitorImpl]) and the configuration manager
    ([ConfigurationManagerImpl]), followed by the properties C1 to C10.

    Conventions of the embedding.
    - A JavaScript string is a [string]: a sequence of code units, here the
      code units 0..255 (the Latin-1 range), on which [toLowerCase] is a
      code-unit-wise map.
    - A JavaScript [Map] or plain object used as a dictionary is a [gmap].
    - Mutable [Reply] objects live in a store and the pending map holds
      references into it, as the JavaScript objects are shared between the
      caller, the pending map and the callbacks.
    - An [async] method is a function in a state-and-exception monad and
      runs to completion; a rejected promise is a thrown exception. The one
      place where two calls are interleaved is spelled out with the halves
      of the method around its suspension point.
    - Collaborators (SMTP transport, IMAP server, clock, UUID source,
      database) are oracles; the calls made to them are recorded in a trace.
    - The optional callbacks [onLog] and [onReplySave] return normally, as
      the ones installed by [index.ts] do (both are [async] and catch their
      own rejections); [logActivity] is recorded in the trace whether or
      not [onLog] is set. *)

From Stdlib Require Import String Ascii List ZArith Bool Lia DecimalString.
From stdpp Require Import base option gmap strings list fin_maps.

Import ListNotations.
Local Open Scope string_scope.
Local Open Scope list_scope.

(** ** JavaScript strings *)

Module JsString.

(** [String.prototype.toLowerCase] on one code unit of the Latin-1 range:
    A..Z and the accented capitals U+00C0..U+00DE (all but the
    multiplication sign U+00D7) move up by 32. *)
Definition lower_char (c : ascii) : ascii :=
  let n := nat_of_ascii c in
  if ((65 <=? n) && (n <=? 90))%nat then ascii_of_nat (n + 32)
  else if ((192 <=? n) && (n <=? 222) && negb (n =? 215))%nat
       then ascii_of_nat (n + 32)
  else c.

Fixpoint toLowerCase (s : string) : string :=
  match s with
  | EmptyString => EmptyString
  | String c s' => String (lower_char c) (toLowerCase s')
  end.

(** [p] is an initial segment of [s] (the test behind [startsWith]). *)
Fixpoint startsWith (s p : string) : bool :=
  match p, s with
  | EmptyString, _ => true
  | String _ _, EmptyString => false
  | String a p', String b s' => if ascii_dec a b then startsWith s' p' else false
  end.

(** [String.prototype.includes]: [k] occurs in [s] as a substring. *)
Fixpoint includes (s k : string) : bool :=
  startsWith s k ||
  match s with
  | EmptyString => false
  | String _ s' => includes s' k
  end.

(** [s.indexOf(c)] for a one-character needle; [None] stands for -1. *)
Fixpoint indexOf (s : string) (c : ascii) : option nat :=
  match s with
  | EmptyString => None
  | String a s' => if ascii_dec a c then Some 0 else S <$> indexOf s' c
  end.

(** [s.substring(n)] for [0 <= n]: drop the first [n] code units. *)
Fixpoint substring_from (n : nat) (s : string) : string :=
  match n, s with
  | 0, _ => s
  | S _, EmptyString => EmptyString
  | S n', String _ s' => substring_from n' s'
  end.

Definition is_empty (s : string) : bool :=
  match s with EmptyString => true | _ => false end.

End JsString.
Import JsString.

(** ** Data model ([src/models]) *)

Record Email := mkEmail {
  email_id : string;
  email_from : string;
  email_to : string;
  email_subject : string;
  email_body : string;
  email_receivedAt : Z;
  email_isRead : bool
}.

(** ** The message filter ([src/filter]) *)

Module Filter.

(** *** KeywordMatcher *)

Record KeywordMatcher := mkKeywordMatcher { km_keywords : list string }.

Definition KeywordMatcher_new (keywords : list string) : KeywordMatcher :=
  mkKeywordMatcher (map toLowerCase keywords).

Definition searchText (email : Email) : string :=
  toLowerCase (email_subject email +:+ " " +:+ email_body email).

Definition findMatches (km : KeywordMatcher) (email : Email) : list string :=
  List.filter (fun keyword => includes (searchText email) keyword) (km_keywords km).

Definition hasMatch (km : KeywordMatcher) (email : Email) : bool :=
  (0 <? length (findMatches km email))%nat.

(** *** DomainFilter *)

Record DomainFilter := mkDomainFilter { df_excludedDomains : list string }.

Definition DomainFilter_new (excludedDomains : list string) : DomainFilter :=
  mkDomainFilter (map toLowerCase excludedDomains).

Definition extractDomain (emailAddress : string) : string :=
  match indexOf emailAddress "@"%char with
  | None => ""
  | Some atIndex => toLowerCase (substring_from (atIndex + 1) emailAddress)
  end.

(** [Array.prototype.includes] on an array of strings. *)
Definition array_includes (l : list string) (x : string) : bool :=
  existsb (String.eqb x) l.

Definition isExcluded (df : DomainFilter) (emailAddress : string) : bool :=
  array_includes (df_excludedDomains df) (extractDomain emailAddress).

(** *** MessageFilter *)

Record FilterDecision := mkFilterDecision {
  approved : bool;
  reason : string;
  matchedKeywords : option (list string)
}.

Record FilterConfig := mkFilterConfig {
  keywordsEnabled : bool;
  keywords : list string;
  excludedDomains : list string
}.

Record MessageFilter := mkMessageFilter {
  mf_keywordMatcher : KeywordMatcher;
  mf_domainFilter : DomainFilter;
  mf_keywordsEnabled : bool
}.

Definition MessageFilter_new (config : FilterConfig) : MessageFilter :=
  mkMessageFilter (KeywordMatcher_new (keywords config))
                  (DomainFilter_new (excludedDomains config))
                  (keywordsEnabled config).

Definition shouldAutoReply (mf : MessageFilter) (email : Email) : FilterDecision :=
  if isExcluded (mf_domainFilter mf) (email_from email) then
    mkFilterDecision false
      ("Sender domain is excluded: " +:+ extractDomain (email_from email)) None
  else if mf_keywordsEnabled mf then
    let matched := findMatches (mf_keywordMatcher mf) email in
    if (0 <? length matched)%nat then
      mkFilterDecision true "Email contains required keywords" (Some matched)
    else
      mkFilterDecision false "Email does not contain any required keywords" None
  else
    mkFilterDecision true
      "Keyword filtering disabled, all non-excluded emails approved" None.

Definition updateKeywords (mf : MessageFilter) (kws : list string) : MessageFilter :=
  mkMessageFilter (KeywordMatcher_new kws) (mf_domainFilter mf) (mf_keywordsEnabled mf).

Definition updateExcludedDomains (mf : MessageFilter) (ds : list string) : MessageFilter :=
  mkMessageFilter (mf_keywordMatcher mf) (DomainFilter_new ds) (mf_keywordsEnabled mf).

Definition setKeywordsEnabled (mf : MessageFilter) (enabled : bool) : MessageFilter :=
  mkMessageFilter (mf_keywordMatcher mf) (mf_domainFilter mf) enabled.

End Filter.

(** ** Replies, activity logs and the observable trace *)

Inductive ReplyStatus := pending | approved | rejected | sent | failed.

Record Reply := mkReply {
  reply_id : string;
  reply_originalEmailId : string;
  reply_to : string;
  reply_subject : string;
  reply_body : string;
  reply_generatedAt : Z;
  reply_status : ReplyStatus;
  reply_sentAt : option Z;
  reply_approvedBy : option string
}.

Definition set_status (st : ReplyStatus) (r : Reply) : Reply :=
  mkReply (reply_id r) (reply_originalEmailId r) (reply_to r) (reply_subject r)
          (reply_body r) (reply_generatedAt r) st (reply_sentAt r) (reply_approvedBy r).

Definition set_sentAt (t : Z) (r : Reply) : Reply :=
  mkReply (reply_id r) (reply_originalEmailId r) (reply_to r) (reply_subject r)
          (reply_body r) (reply_generatedAt r) (reply_status r) (Some t) (reply_approvedBy r).

(** Terminal statuses of the reply life cycle. *)
Definition terminal (st : ReplyStatus) : bool :=
  match st with
  | sent | rejected | failed => true
  | pending | approved => false
  end.

Inductive ActivityLogType := reply_sent | reply_failed | email_filtered | error.

Inductive MetaValue := MStr (s : string) | MNum (n : nat).

Record ActivityLog := mkActivityLog {
  log_id : string;
  log_timestamp : Z;
  log_type : ActivityLogType;
  log_emailId : string;
  log_replyId : option string;
  log_details : string;
  log_metadata : list (string * MetaValue)
}.

(** What the components do to the outside world, in program order. *)
Inductive Event :=
| EvSendMail (from to subject text : string)  (* transporter.sendMail(...) *)
| EvMarkAsRead (emailId : string)             (* readTracker.markAsRead(emailId) *)
| EvLog (log : ActivityLog)                   (* logActivity(log), forwarded to onLog *)
| EvReplySave (snapshot : Reply).             (* onReplySave(reply), fields as at the call *)

(** A JavaScript [Error]; the sources tell errors apart by message only. *)
Record JsError := Error { message : string }.

(** One IMAP session of [ReadTrackerImpl.markAsRead], as the server plays it. *)
Inductive FlagSession :=
| FlagAdded                               (* addFlags succeeds, connection ends *)
| FlagConnectThrows (err : string)        (* imap.connect() throws *)
| FlagConnectionError (msg : string)      (* 'error' event *)
| FlagOpenBoxFails (msg : string)
| FlagAddFlagsFails (msg : string).

(** The collaborators. Each oracle sees the trace up to its call. *)
Record Env := mkEnv {
  randomUUID : nat -> string;             (* the n-th identifier drawn *)
  now : nat -> Z;                         (* the n-th reading of the clock *)
  smtp : list Event -> string -> string -> string -> string -> option string;
                                          (* sendMail: None resolves, Some msg rejects *)
  imap_flag : list Event -> string -> FlagSession
}.

(** The private fields of [EmailMonitorImpl]. *)
Record MonitorState := mkMonitorState {
  isRunning : bool;
  isProcessing : bool;
  shouldStop : bool;
  consecutiveFailures : nat;
  intervalId : bool                       (* whether the timer is armed *)
}.

(** The mutable state shared by the components: the store of [Reply]
    objects, the pending map of [AutoResponderImpl] (reply id to object
    reference), the trace, how many identifiers and clock readings were
    drawn, and the monitor's fields. *)
Record World := mkWorld {
  heap : gmap nat Reply;
  next_ref : nat;
  pendingReplies : gmap string nat;
  trace : list Event;
  uuids : nat;
  ticks : nat;
  monitor : MonitorState
}.

Definition with_heap (h : gmap nat Reply) (w : World) : World :=
  mkWorld h (next_ref w) (pendingReplies w) (trace w) (uuids w) (ticks w) (monitor w).
Definition with_next_ref (n : nat) (w : World) : World :=
  mkWorld (heap w) n (pendingReplies w) (trace w) (uuids w) (ticks w) (monitor w).
Definition with_pending (p : gmap string nat) (w : World) : World :=
  mkWorld (heap w) (next_ref w) p (trace w) (uuids w) (ticks w) (monitor w).
Definition with_trace (t : list Event) (w : World) : World :=
  mkWorld (heap w) (next_ref w) (pendingReplies w) t (uuids w) (ticks w) (monitor w).
Definition with_uuids (n : nat) (w : World) : World :=
  mkWorld (heap w) (next_ref w) (pendingReplies w) (trace w) n (ticks w) (monitor w).
Definition with_ticks (n : nat) (w : World) : World :=
  mkWorld (heap w) (next_ref w) (pendingReplies w) (trace w) (uuids w) n (monitor w).
Definition with_monitor (m : MonitorState) (w : World) : World :=
  mkWorld (heap w) (next_ref w) (pendingReplies w) (trace w) (uuids w) (ticks w) m.

(** ** A state-and-exception monad for the asynchronous methods

    An [async] method is run to completion; a rejected promise and a thrown
    exception are both [Throw]. State changes made before a throw persist. *)

Inductive Result (A : Type) := Ok (a : A) | Throw (e : JsError).
Arguments Ok {A} a.
Arguments Throw {A} e.

Definition M (A : Type) : Type := World -> Result A * World.

Definition ret {A} (a : A) : M A := fun w => (Ok a, w).
Definition throw {A} (e : JsError) : M A := fun w => (Throw e, w).
Definition bind {A B} (m : M A) (k : A -> M B) : M B :=
  fun w => match m w with
           | (Ok a, w') => k a w'
           | (Throw e, w') => (Throw e, w')
           end.
Definition try_catch {A} (m : M A) (handler : JsError -> M A) : M A :=
  fun w => match m w with
           | (Ok a, w') => (Ok a, w')
           | (Throw e, w') => handler e w'
           end.

Notation "'let!' x ':=' m 'in' k" := (bind m (fun x => k))
  (at level 10, x pattern, m at level 100, k at level 200).
Notation "m ';;' k" := (bind m (fun _ => k))
  (at level 100, k at level 200, right associativity).

Definition emit (e : Event) : M unit :=
  fun w => (Ok tt, with_trace (trace w ++ [e]) w).

Definition get_trace : M (list Event) := fun w => (Ok (trace w), w).

Section WithEnv.
Context (env : Env).

Definition fresh_uuid : M string :=
  fun w => (Ok (randomUUID env (uuids w)), with_uuids (S (uuids w)) w).

Definition new_Date : M Z :=
  fun w => (Ok (now env (ticks w)), with_ticks (S (ticks w)) w).

Definition logActivity (log : ActivityLog) : M unit := emit (EvLog log).

(** Dereferencing: a reference outside the store stands for [undefined],
    on which a property access throws a [TypeError]. *)
Definition deref (l : nat) : M Reply :=
  fun w => match heap w !! l with
           | Some r => (Ok r, w)
           | None => (Throw (Error "TypeError: Cannot read properties of undefined"), w)
           end.

Definition modify (l : nat) (f : Reply -> Reply) : M unit :=
  fun w => match heap w !! l with
           | Some r => (Ok tt, with_heap (<[l := f r]> (heap w)) w)
           | None => (Throw (Error "TypeError: Cannot set properties of undefined"), w)
           end.

Definition alloc (r : Reply) : M nat :=
  fun w => (Ok (next_ref w),
            with_next_ref (S (next_ref w)) (with_heap (<[next_ref w := r]> (heap w)) w)).

(** *** ReadTrackerImpl.markAsRead

    The promise resolves when the connection ends after [addFlags]; every
    failure rejects it with a message of the tracker's own. *)
Definition flag_rejection (s : FlagSession) : option string :=
  match s with
  | FlagAdded => None
  | FlagConnectThrows err => Some ("Failed to connect to IMAP server: " +:+ err)
  | FlagConnectionError msg => Some ("IMAP connection error: " +:+ msg)
  | FlagOpenBoxFails msg => Some ("Failed to open inbox: " +:+ msg)
  | FlagAddFlagsFails msg => Some ("Failed to mark email as read: " +:+ msg)
  end.

Definition markAsRead (emailId : string) : M unit :=
  let! t := get_trace in
  emit (EvMarkAsRead emailId) ;;
  match flag_rejection (imap_flag env t emailId) with
  | None => ret tt
  | Some msg => throw (Error msg)
  end.

End WithEnv.

(** ** The responder ([src/responder/AutoResponder.ts]) *)

Module Template.

(** The replacement text of [String.prototype.replace] for a pattern
    without capture groups (GetSubstitution): [$$] is a dollar sign, [$&]
    the matched text, [$`] the text before the match and [$'] the text
    after it; every other character, a lone [$] included, stands for
    itself. *)
Fixpoint expand (repl matched before after : string) : string :=
  match repl with
  | EmptyString => EmptyString
  | String "$" (String "$" r) => String "$" (expand r matched before after)
  | String "$" (String "&" r) => matched +:+ expand r matched before after
  | String "$" (String "`" r) => before +:+ expand r matched before after
  | String "$" (String "'" r) => after +:+ expand r matched before after
  | String c r => String c (expand r matched before after)
  end.

(** [s.replace(/pat/g, repl)] for a literal, non-empty [pat]: scan from
    the left, replace each match and resume after it. [skip] counts the
    code units of the current match still to be passed over and [before]
    is the part of the subject already scanned. *)
Fixpoint replace_go (pat repl : string) (skip : nat) (before s : string) : string :=
  match s with
  | EmptyString => EmptyString
  | String c s' =>
      match skip with
      | S k => replace_go pat repl k (before +:+ String c EmptyString) s'
      | O =>
          if startsWith s pat then
            expand repl pat before (substring_from (String.length pat) s)
            +:+ replace_go pat repl (String.length pat - 1)
                           (before +:+ String c EmptyString) s'
          else
            String c (replace_go pat repl 0 (before +:+ String c EmptyString) s')
      end
  end.

Definition replace_all (pat repl s : string) : string :=
  replace_go pat repl 0 EmptyString s.

End Template.

Record AutoResponderConfig := mkAutoResponderConfig {
  smtp_user : string;              (* smtpConfig.auth.user *)
  replyTemplate : string;
  manualConfirmation : bool;
  onReplySave : bool               (* whether the optional callback is set *)
}.

Record SendResult := mkSendResult {
  success : bool;
  send_error : option string;
  result_sentAt : option Z
}.

Section AutoResponder.
Context (env : Env) (config : AutoResponderConfig).

Definition renderTemplate (email : Email) : string :=
  Template.replace_all "{body}" (email_body email)
    (Template.replace_all "{subject}" (email_subject email)
      (Template.replace_all "{sender}" (email_from email) (replyTemplate config))).

(** [onReplySave(reply).catch(...)]: the callback sees the object as it
    is at the call; a rejection is logged to the console and dropped. *)
Definition save_reply (l : nat) : M unit :=
  if onReplySave config then
    let! r := deref l in emit (EvReplySave r)
  else ret tt.

Definition generateReply (email : Email) : M nat :=
  let! id := fresh_uuid env in
  let body := renderTemplate email in
  let! generatedAt := new_Date env in
  let! l := alloc (mkReply id (email_id email) (email_from email)
                           ("Re: " +:+ email_subject email) body generatedAt
                           (if manualConfirmation config then pending else approved)
                           None None) in
  save_reply l ;;
  ret l.

(** The rest of [sendReply] once [transporter.sendMail] has resolved. *)
Definition sendReply_sent (l : nat) (reply : Reply) : M SendResult :=
  let! sentAt := new_Date env in
  modify l (set_status sent) ;;
  modify l (set_sentAt sentAt) ;;
  save_reply l ;;
  let! id := fresh_uuid env in
  logActivity (mkActivityLog id sentAt reply_sent
                 (reply_originalEmailId reply) (Some (reply_id reply))
                 ("Reply sent to " +:+ reply_to reply)
                 [("recipient", MStr (reply_to reply))]) ;;
  ret (mkSendResult true None (Some sentAt)).

(** The [catch] block of [sendReply]. *)
Definition sendReply_failed (l : nat) (reply : Reply) (err : JsError) : M SendResult :=
  modify l (set_status failed) ;;
  let errorMessage := message err in
  save_reply l ;;
  let! id := fresh_uuid env in
  let! ts := new_Date env in
  logActivity (mkActivityLog id ts reply_failed
                 (reply_originalEmailId reply) (Some (reply_id reply))
                 ("Failed to send reply to " +:+ reply_to reply +:+ ": "
                  +:+ errorMessage)
                 [("recipient", MStr (reply_to reply));
                  ("error", MStr errorMessage)]) ;;
  ret (mkSendResult false (Some errorMessage) None).

Definition sendReply (l : nat) : M SendResult :=
  let! reply := deref l in
  try_catch
    (let! t := get_trace in
     emit (EvSendMail (smtp_user config) (reply_to reply)
                      (reply_subject reply) (reply_body reply)) ;;
     match smtp env t (smtp_user config) (reply_to reply)
                (reply_subject reply) (reply_body reply) with
     | Some msg => throw (Error msg)
     | None => sendReply_sent l reply
     end)
    (sendReply_failed l reply).

Definition queueForConfirmation (l : nat) : M unit :=
  modify l (set_status pending) ;;
  let! reply := deref l in
  fun w => (Ok tt, with_pending (<[reply_id reply := l]> (pendingReplies w)) w).

Definition not_found_message (replyId : string) : string :=
  "Reply with id " +:+ replyId +:+ " not found in pending queue".

Definition processConfirmation (replyId : string) (approve : bool) : M unit :=
  let! found := (fun w => (Ok (pendingReplies w !! replyId), w)) in
  match found with
  | None => throw (Error (not_found_message replyId))
  | Some l =>
      (if approve then
         modify l (set_status approved) ;;
         sendReply l ;;
         ret tt
       else
         modify l (set_status rejected)) ;;
      let! reply := deref l in
      markAsRead env (reply_originalEmailId reply) ;;
      fun w => (Ok tt, with_pending (delete replyId (pendingReplies w)) w)
  end.

(** *** The first suspension point of an approval

    [processConfirmation(id, true)] runs without interruption up to
    [await this.transporter.sendMail(...)] inside [sendReply]; other
    requests may run before the transport settles. [approve_begin] is the
    part before that point, ending with the call of the transport, and
    [approve_resume] the part after it. *)
Definition approve_begin (replyId : string) : M (nat * Reply * option string) :=
  let! found := (fun w => (Ok (pendingReplies w !! replyId), w)) in
  match found with
  | None => throw (Error (not_found_message replyId))
  | Some l =>
      modify l (set_status approved) ;;
      let! reply := deref l in
      let! t := get_trace in
      emit (EvSendMail (smtp_user config) (reply_to reply)
                       (reply_subject reply) (reply_body reply)) ;;
      ret (l, reply, smtp env t (smtp_user config) (reply_to reply)
                          (reply_subject reply) (reply_body reply))
  end.

Definition approve_resume (replyId : string) (suspended : nat * Reply * option string)
  : M unit :=
  let '(l, reply, outcome) := suspended in
  try_catch
    (match outcome with
     | Some msg => throw (Error msg)
     | None => sendReply_sent l reply
     end)
    (sendReply_failed l reply) ;;
  let! reply' := deref l in
  markAsRead env (reply_originalEmailId reply') ;;
  fun w => (Ok tt, with_pending (delete replyId (pendingReplies w)) w).

(** Two approvals of the same id, the second one starting while the first
    waits for the transport. *)
Definition overlapping_approvals (replyId : string) : M unit :=
  let! first := approve_begin replyId in
  let! second := approve_begin replyId in
  approve_resume replyId first ;;
  approve_resume replyId second.

(** [Array.from(this.pendingReplies.values())], as references; the
    insertion order of the JavaScript [Map] is not kept by the model. *)
Definition getPendingReplies (w : World) : list nat :=
  (map_to_list (pendingReplies w)).*2.

End AutoResponder.

(** ** The monitor ([EmailMonitor.ts]) *)

(** What the IMAP library hands to the callbacks of [checkInbox]. *)
Record Address := mkAddress { mailbox : string; host : string }.

Record Envelope := mkEnvelope {
  envelope_from : list Address;           (* [] also stands for undefined *)
  envelope_to : list Address;
  envelope_subject : option string;
  envelope_date : option Z
}.

Record Attrs := mkAttrs { uid : nat; envelope : option Envelope }.

Inductive MsgEvent :=
| MsgAttributes (attrs : Attrs)           (* msg 'attributes' *)
| MsgBody (chunks : list string)          (* msg 'body': the stream's data, then its end *)
| MsgEnd.                                 (* msg 'end' *)

(** One IMAP session of [checkInbox], as the server plays it. *)
Inductive ImapSession :=
| ConnectThrows (err : string)            (* imap.connect() throws *)
| ConnectionError (msg : string)          (* 'error' event *)
| OpenBoxFails (msg : string)
| SearchFails (msg : string)
| SearchEmpty                             (* no result, or an empty one *)
| FetchEnds (msgs : list (list MsgEvent)) (* messages, then fetch 'end' *)
| FetchFails (msgs : list (list MsgEvent)) (msg : string).

(** The local variables of the 'message' handler. *)
Record MsgVars := mkMsgVars {
  v_uid : string;
  v_from : string;
  v_to : string;
  v_subject : string;
  v_body : string;
  v_receivedAt : Z;
  v_ended : bool                          (* msg.once('end') already ran *)
}.

Definition MAX_CONSECUTIVE_FAILURES : nat := 5.

Definition String_of_nat (n : nat) : string :=
  NilEmpty.string_of_uint (Nat.to_uint n).

Section EmailMonitor.
Context (env : Env) (config : AutoResponderConfig) (messageFilter : Filter.MessageFilter).

Definition address_text (a : Address) : string :=
  mailbox a +:+ "@" +:+ host a.

Definition first_address (l : list Address) : string :=
  match l with
  | a :: _ => address_text a
  | [] => ""
  end.

(** [x || ''] on a string that may be undefined. *)
Definition or_empty (x : option string) : string :=
  match x with
  | Some s => s
  | None => ""
  end.

Definition on_msg_event (emails : list Email) (v : MsgVars) (ev : MsgEvent)
  : M (list Email * MsgVars) :=
  match ev with
  | MsgAttributes attrs =>
      let uid' := String_of_nat (uid attrs) in
      match envelope attrs with
      | Some e =>
          let! date := match envelope_date e with
                       | Some d => ret d
                       | None => new_Date env
                       end in
          ret (emails,
               mkMsgVars uid' (first_address (envelope_from e))
                         (first_address (envelope_to e))
                         (or_empty (envelope_subject e)) (v_body v) date (v_ended v))
      | None =>
          ret (emails,
               mkMsgVars uid' (v_from v) (v_to v) (v_subject v) (v_body v)
                         (v_receivedAt v) (v_ended v))
      end
  | MsgBody chunks =>
      ret (emails,
           mkMsgVars (v_uid v) (v_from v) (v_to v) (v_subject v)
                     (String.concat "" chunks) (v_receivedAt v) (v_ended v))
  | MsgEnd =>
      if v_ended v then ret (emails, v)
      else
        let v' := mkMsgVars (v_uid v) (v_from v) (v_to v) (v_subject v)
                            (v_body v) (v_receivedAt v) true in
        if negb (is_empty (v_uid v)) && negb (is_empty (v_from v)) then
          ret (emails ++ [mkEmail (v_uid v) (v_from v) (v_to v) (v_subject v)
                                  (v_body v) (v_receivedAt v) false], v')
        else ret (emails, v')
  end.

Fixpoint on_msg_events (emails : list Email) (v : MsgVars) (evs : list MsgEvent)
  : M (list Email) :=
  match evs with
  | [] => ret emails
  | ev :: evs' =>
      let! (emails', v') := on_msg_event emails v ev in
      on_msg_events emails' v' evs'
  end.

(** fetch.on('message', ...) *)
Definition on_message (emails : list Email) (msg : list MsgEvent) : M (list Email) :=
  let! receivedAt := new_Date env in
  on_msg_events emails (mkMsgVars "" "" "" "" "" receivedAt false) msg.

Fixpoint on_messages (emails : list Email) (msgs : list (list MsgEvent))
  : M (list Email) :=
  match msgs with
  | [] => ret emails
  | msg :: msgs' =>
      let! emails' := on_message emails msg in
      on_messages emails' msgs'
  end.

Definition checkInbox (session : ImapSession) : M (list Email) :=
  match session with
  | ConnectThrows err => throw (Error ("Failed to connect to IMAP server: " +:+ err))
  | ConnectionError msg => throw (Error ("IMAP connection error: " +:+ msg))
  | OpenBoxFails msg => throw (Error ("Failed to open inbox: " +:+ msg))
  | SearchFails msg => throw (Error ("Failed to search for unread emails: " +:+ msg))
  | SearchEmpty => ret []
  | FetchEnds msgs => on_messages [] msgs
  | FetchFails msgs msg =>
      on_messages [] msgs ;;
      throw (Error ("Failed to fetch emails: " +:+ msg))
  end.

Definition processEmail (email : Email) : M unit :=
  try_catch
    (let filterDecision := Filter.shouldAutoReply messageFilter email in
     if negb (Filter.approved filterDecision) then
       let! id := fresh_uuid env in
       let! ts := new_Date env in
       logActivity (mkActivityLog id ts email_filtered (email_id email) None
                      ("Email filtered out: " +:+ Filter.reason filterDecision)
                      [("from", MStr (email_from email));
                       ("subject", MStr (email_subject email))]) ;;
       markAsRead env (email_id email)
     else
       let! l := generateReply env config email in
       let! reply := deref l in
       match reply_status reply with
       | pending =>
           queueForConfirmation l ;;
           let! id := fresh_uuid env in
           let! ts := new_Date env in
           logActivity (mkActivityLog id ts email_filtered (email_id email)
                          (Some (reply_id reply))
                          "Reply queued for manual confirmation"
                          [("from", MStr (email_from email));
                           ("subject", MStr (email_subject email))])
       | _ =>
           sendReply env config l ;;
           markAsRead env (email_id email)
       end)
    (fun err =>
       let errorMessage := message err in
       let! id := fresh_uuid env in
       let! ts := new_Date env in
       logActivity (mkActivityLog id ts error (email_id email) None
                      ("Error processing email: " +:+ errorMessage)
                      [("from", MStr (email_from email));
                       ("subject", MStr (email_subject email));
                       ("error", MStr errorMessage)])).

Definition get_monitor : M MonitorState := fun w => (Ok (monitor w), w).
Definition set_isRunning (b : bool) : M unit :=
  fun w => let m := monitor w in
    (Ok tt, with_monitor (mkMonitorState b (isProcessing m) (shouldStop m)
                            (consecutiveFailures m) (intervalId m)) w).
Definition set_isProcessing (b : bool) : M unit :=
  fun w => let m := monitor w in
    (Ok tt, with_monitor (mkMonitorState (isRunning m) b (shouldStop m)
                            (consecutiveFailures m) (intervalId m)) w).
Definition set_shouldStop (b : bool) : M unit :=
  fun w => let m := monitor w in
    (Ok tt, with_monitor (mkMonitorState (isRunning m) (isProcessing m) b
                            (consecutiveFailures m) (intervalId m)) w).
Definition set_consecutiveFailures (n : nat) : M unit :=
  fun w => let m := monitor w in
    (Ok tt, with_monitor (mkMonitorState (isRunning m) (isProcessing m) (shouldStop m)
                            n (intervalId m)) w).
Definition set_intervalId (b : bool) : M unit :=
  fun w => let m := monitor w in
    (Ok tt, with_monitor (mkMonitorState (isRunning m) (isProcessing m) (shouldStop m)
                            (consecutiveFailures m) b) w).

(** for (const email of emails) { if (this.shouldStop) break; ... } *)
Fixpoint process_emails (emails : list Email) : M unit :=
  match emails with
  | [] => ret tt
  | email :: rest =>
      let! m := get_monitor in
      if shouldStop m then ret tt
      else processEmail email ;; process_emails rest
  end.

(** try { ... } finally { ... }: the finaliser runs on both exits. *)
Definition try_finally {A} (m : M A) (fin : M unit) : M A :=
  fun w => match m w with
           | (r, w') => match fin w' with
                        | (Ok _, w'') => (r, w'')
                        | (Throw e, w'') => (Throw e, w'')
                        end
           end.

(** One poll cycle; [session] is what the mailbox does during it. *)
Definition pollInbox (session : ImapSession) : M unit :=
  let! m := get_monitor in
  if isProcessing m || shouldStop m then ret tt
  else
    set_isProcessing true ;;
    try_finally
      (try_catch
         (let! emails := checkInbox session in
          set_consecutiveFailures 0 ;;
          process_emails emails)
         (fun err =>
            let! m := get_monitor in
            set_consecutiveFailures (S (consecutiveFailures m)) ;;
            let n := S (consecutiveFailures m) in
            let errorMessage := message err in
            let! id := fresh_uuid env in
            let! ts := new_Date env in
            logActivity (mkActivityLog id ts error "system" None
                           ("Failed to check inbox (attempt " +:+ String_of_nat n +:+ "/"
                            +:+ String_of_nat MAX_CONSECUTIVE_FAILURES +:+ "): "
                            +:+ errorMessage)
                           [("error", MStr errorMessage);
                            ("consecutiveFailures", MNum n)]) ;;
            if (MAX_CONSECUTIVE_FAILURES <=? n)%nat then
              let! id := fresh_uuid env in
              let! ts := new_Date env in
              logActivity (mkActivityLog id ts error "system" None
                             ("Maximum consecutive failures reached ("
                              +:+ String_of_nat MAX_CONSECUTIVE_FAILURES
                              +:+ "). Connection issues detected.")
                             [("consecutiveFailures", MNum n)])
            else ret tt))
      (set_isProcessing false).

(** [start()]: the timer is armed, then the first cycle runs at once. *)
Definition start (session : ImapSession) : M unit :=
  let! m := get_monitor in
  if isRunning m then throw (Error "EmailMonitor is already running")
  else
    set_isRunning true ;;
    set_shouldStop false ;;
    set_consecutiveFailures 0 ;;
    let! id := fresh_uuid env in
    let! ts := new_Date env in
    logActivity (mkActivityLog id ts email_filtered "system" None
                   "EmailMonitor started" []) ;;
    set_intervalId true ;;
    pollInbox session.

(** The cycles fired by the timer, one session each, in order. *)
Fixpoint poll_cycles (sessions : list ImapSession) : M unit :=
  match sessions with
  | [] => ret tt
  | s :: rest => pollInbox s ;; poll_cycles rest
  end.

End EmailMonitor.

(** ** The configuration manager ([ConfigurationManager.ts]) *)

Module ConfigManager.

(** Run-time values of a configuration object: the static type
    [Partial<Config>] is not enforced on a request body. Numbers are the
    integers. *)
#[local] Set Warnings "-register-all".
Inductive JSValue :=
| JUndefined
| JNull
| JBool (b : bool)
| JNum (z : Z)
| JStr (s : string)
| JArr (items : list JSValue)
| JObj.

Definition truthy (v : JSValue) : bool :=
  match v with
  | JUndefined | JNull => false
  | JBool b => b
  | JNum z => negb (z =? 0)%Z
  | JStr s => negb (is_empty s)
  | JArr _ | JObj => true
  end.

Definition typeof (v : JSValue) : string :=
  match v with
  | JUndefined => "undefined"
  | JNull => "object"
  | JBool _ => "boolean"
  | JNum _ => "number"
  | JStr _ => "string"
  | JArr _ | JObj => "object"
  end.

Definition isArray (v : JSValue) : bool :=
  match v with JArr _ => true | _ => false end.

Definition is_undefined (v : JSValue) : bool :=
  match v with JUndefined => true | _ => false end.

(** [v <= 0], evaluated on numbers only. *)
Definition le_zero (v : JSValue) : bool :=
  match v with JNum z => (z <=? 0)%Z | _ => false end.

(** A plain object; reading a missing property gives [undefined]. *)
Definition prop (o : gmap string JSValue) (k : string) : JSValue :=
  match o !! k with
  | Some v => v
  | None => JUndefined
  end.

Record Config := mkConfig {
  email : gmap string JSValue;
  filters : gmap string JSValue;
  autoReply : gmap string JSValue
}.

(** [Partial<Config>]: each section is an object or absent. *)
Record ConfigUpdate := mkConfigUpdate {
  upd_email : option (gmap string JSValue);
  upd_filters : option (gmap string JSValue);
  upd_autoReply : option (gmap string JSValue)
}.

Definition defaultConfig : Config :=
  mkConfig
    (<["imapHost" := JStr ""]> (<["imapPort" := JNum 993]> (<["smtpHost" := JStr ""]>
     (<["smtpPort" := JNum 587]> (<["username" := JStr ""]> (<["password" := JStr ""]> ∅))))))
    (<["keywordsEnabled" := JBool false]> (<["keywords" := JArr []]>
     (<["excludedDomains" := JArr []]> ∅)))
    (<["manualConfirmation" := JBool true]>
     (<["replyTemplate" := JStr "Thank you for your email. I will respond shortly."]>
     (<["checkInterval" := JNum 10]> ∅))).

Definition not_string (v : JSValue) : bool := negb (String.eqb (typeof v) "string").
Definition not_number (v : JSValue) : bool := negb (String.eqb (typeof v) "number").
Definition not_boolean (v : JSValue) : bool := negb (String.eqb (typeof v) "boolean").

Definition validate_email (o : gmap string JSValue) : option string :=
  if truthy (prop o "imapHost") && not_string (prop o "imapHost") then
    Some "Invalid imapHost: must be a string"
  else if truthy (prop o "imapPort")
          && (not_number (prop o "imapPort") || le_zero (prop o "imapPort")) then
    Some "Invalid imapPort: must be a positive number"
  else if truthy (prop o "smtpHost") && not_string (prop o "smtpHost") then
    Some "Invalid smtpHost: must be a string"
  else if truthy (prop o "smtpPort")
          && (not_number (prop o "smtpPort") || le_zero (prop o "smtpPort")) then
    Some "Invalid smtpPort: must be a positive number"
  else if truthy (prop o "username") && not_string (prop o "username") then
    Some "Invalid username: must be a string"
  else if truthy (prop o "password") && not_string (prop o "password") then
    Some "Invalid password: must be a string"
  else None.

Definition validate_filters (o : gmap string JSValue) : option string :=
  if negb (is_undefined (prop o "keywordsEnabled")) && not_boolean (prop o "keywordsEnabled") then
    Some "Invalid keywordsEnabled: must be a boolean"
  else if truthy (prop o "keywords") && negb (isArray (prop o "keywords")) then
    Some "Invalid keywords: must be an array"
  else if truthy (prop o "excludedDomains") && negb (isArray (prop o "excludedDomains")) then
    Some "Invalid excludedDomains: must be an array"
  else None.

Definition validate_autoReply (o : gmap string JSValue) : option string :=
  if negb (is_undefined (prop o "manualConfirmation"))
     && not_boolean (prop o "manualConfirmation") then
    Some "Invalid manualConfirmation: must be a boolean"
  else if truthy (prop o "replyTemplate") && not_string (prop o "replyTemplate") then
    Some "Invalid replyTemplate: must be a string"
  else if truthy (prop o "checkInterval")
          && (not_number (prop o "checkInterval") || le_zero (prop o "checkInterval")) then
    Some "Invalid checkInterval: must be a positive number"
  else None.

Definition validate_section (validate : gmap string JSValue -> option string)
           (section : option (gmap string JSValue)) : option string :=
  match section with
  | Some o => validate o
  | None => None
  end.

(** [validateConfig]: [Some msg] stands for [throw new Error(msg)]. *)
Definition validateConfig (updates : ConfigUpdate) : option string :=
  match validate_section validate_email (upd_email updates) with
  | Some msg => Some msg
  | None =>
      match validate_section validate_filters (upd_filters updates) with
      | Some msg => Some msg
      | None => validate_section validate_autoReply (upd_autoReply updates)
      end
  end.

(** [{ ...current, ...update }] *)
Definition spread (current : gmap string JSValue) (update : option (gmap string JSValue))
  : gmap string JSValue :=
  match update with
  | Some u => u ∪ current
  | None => current
  end.

Definition merge (currentConfig : Config) (updates : ConfigUpdate) : Config :=
  mkConfig (spread (email currentConfig) (upd_email updates))
           (spread (filters currentConfig) (upd_filters updates))
           (spread (autoReply currentConfig) (upd_autoReply updates)).

(** What the database does during one call. *)
Inductive DbGet :=
| GetFails (err : string)
| NoRow
| RowOf (stored : Config)               (* decrypts and parses to [stored] *)
| RowUnreadable (err : string).         (* decrypt or JSON.parse throws *)

Inductive DbRun := RunOk | RunFails (err : string).

Record Db := mkDb {
  dbReady : option string;              (* [Some err]: initializeDatabase rejected *)
  db_get : DbGet;
  db_run : DbRun
}.

Section Manager.
(** [S] is the state the subscribed closures act upon (in [index.ts],
    the message filter). A listener returns the new state and, when it
    throws, the message of its exception; what it changed before
    throwing stays changed. *)
Context {S : Type}.

Definition ConfigListener : Type := Config -> S -> S * option string.

Record Manager := mkManager {
  listeners : list ConfigListener;
  currentConfig : option Config;
  app : S;
  calls : list (nat * Config);        (* listener index and argument, per call *)
  console : list string               (* console.error lines *)
}.

Definition subscribe (listener : ConfigListener) (m : Manager) : Manager :=
  mkManager (listeners m ++ [listener]) (currentConfig m) (app m) (calls m) (console m).

(** for (const listener of this.listeners) { try {...} catch {...} };
    [i] is the position of the head of [ls] in [this.listeners]. *)
Fixpoint notify_from (i : nat) (ls : list ConfigListener) (config : Config)
         (m : Manager) : Manager :=
  match ls with
  | [] => m
  | listener :: rest =>
      let m1 := mkManager (listeners m) (currentConfig m) (app m)
                          (calls m ++ [(i, config)]) (console m) in
      let m2 :=
        match listener config (app m1) with
        | (s', None) =>
            mkManager (listeners m1) (currentConfig m1) s' (calls m1) (console m1)
        | (s', Some err) =>
            mkManager (listeners m1) (currentConfig m1) s' (calls m1)
                      (console m1 ++ ["Error notifying config listener: " +:+ err])
        end in
      notify_from (Datatypes.S i) rest config m2
  end.

Definition notifyListeners (config : Config) (m : Manager) : Manager :=
  notify_from 0 (listeners m) config m.

Definition set_currentConfig (c : Config) (m : Manager) : Manager :=
  mkManager (listeners m) (Some c) (app m) (calls m) (console m).

Definition getConfig (db : Db) (m : Manager) : (Config + string) * Manager :=
  match dbReady db with
  | Some err => (inr err, m)
  | None =>
      match currentConfig m with
      | Some c => (inl c, m)
      | None =>
          match db_get db with
          | GetFails err => (inr err, m)
          | NoRow => (inl defaultConfig, set_currentConfig defaultConfig m)
          | RowOf stored => (inl stored, set_currentConfig stored m)
          | RowUnreadable err => (inr err, m)
          end
      end
  end.

(** [inl tt]: the promise resolves; [inr msg]: it rejects with [msg]. *)
Definition updateConfig (db : Db) (updates : ConfigUpdate) (m : Manager)
  : (unit + string) * Manager :=
  match dbReady db with
  | Some err => (inr err, m)
  | None =>
      match validateConfig updates with
      | Some msg => (inr msg, m)
      | None =>
          match getConfig db m with
          | (inr err, m1) => (inr err, m1)
          | (inl current, m1) =>
              let newConfig := merge current updates in
              match db_run db with
              | RunFails err => (inr err, m1)
              | RunOk =>
                  (inl tt, notifyListeners newConfig (set_currentConfig newConfig m1))
              end
          end
      end
  end.

End Manager.
Arguments Manager S : clear implicits.
Arguments ConfigListener S : clear implicits.

End ConfigManager.

(** ** The monitor: [stop()] ([EmailMonitor.ts])

    [stop()] returns at once when the monitor is not running. Otherwise it
    sets [shouldStop], disarms the timer and then waits, 100 ms at a time,
    until no poll cycle is in flight; other code runs during the wait.
    [stop_request] is the part before the wait and tells whether there is
    something to wait for; [stop_finish] is the part after it. *)

Inductive StopPhase :=
| StopIgnored                             (* the monitor was not running *)
| StopWaiting                             (* a poll cycle is in flight *)
| StopReady.                              (* nothing to wait for *)

Section EmailMonitorStop.
Context (env : Env).

Definition stop_request : M StopPhase :=
  let! m := get_monitor in
  if negb (isRunning m) then ret StopIgnored
  else
    set_shouldStop true ;;
    set_intervalId false ;;
    let! m' := get_monitor in
    ret (if isProcessing m' then StopWaiting else StopReady).

Definition stop_finish : M unit :=
  set_isRunning false ;;
  let! id := fresh_uuid env in
  let! ts := new_Date env in
  logActivity (mkActivityLog id ts email_filtered "system" None
                 "EmailMonitor stopped" []).

(** [stop()] as far as it runs without suspending. [true]: the call has
    completed, at once when the monitor was not running and after
    [stop_finish] when no poll cycle was in flight. [false]: the call is
    left in its wait loop, and [stop_finish] is still to run once the
    cycle in flight has ended. *)
Definition stop_idle : M bool :=
  let! phase := stop_request in
  match phase with
  | StopIgnored => ret true
  | StopReady => stop_finish ;; ret true
  | StopWaiting => ret false
  end.

End EmailMonitorStop.

(** ** The API routes ([src/api/routes.ts]) *)

Module Routes.
Import ConfigManager.

Inductive Body :=
| ErrorBody (error : string)
| ConfirmBody (message : string) (replyId : string)
| ConfigBody (message : option string) (config : Config).

Record Response := mkResponse { status : nat; body : Body }.

(** The error-handling middleware, reached through [next(error)] with the
    response status still at 200. The line it writes with [console.error]
    is not part of the model. *)
Definition errorHandler (err : string) : Response :=
  mkResponse 500 (ErrorBody (if is_empty err then "Internal server error" else err)).

(** *** validateConfigUpdate *)

Definition defined (v : JSValue) : bool := negb (is_undefined v).

Definition check_email (o : gmap string JSValue) : option string :=
  if defined (prop o "imapHost") && not_string (prop o "imapHost") then
    Some "Invalid imapHost: must be a string"
  else if defined (prop o "imapPort")
          && (not_number (prop o "imapPort") || le_zero (prop o "imapPort")) then
    Some "Invalid imapPort: must be a positive number"
  else if defined (prop o "smtpHost") && not_string (prop o "smtpHost") then
    Some "Invalid smtpHost: must be a string"
  else if defined (prop o "smtpPort")
          && (not_number (prop o "smtpPort") || le_zero (prop o "smtpPort")) then
    Some "Invalid smtpPort: must be a positive number"
  else if defined (prop o "username") && not_string (prop o "username") then
    Some "Invalid username: must be a string"
  else if defined (prop o "password") && not_string (prop o "password") then
    Some "Invalid password: must be a string"
  else None.

Definition check_filters (o : gmap string JSValue) : option string :=
  if defined (prop o "keywordsEnabled") && not_boolean (prop o "keywordsEnabled") then
    Some "Invalid keywordsEnabled: must be a boolean"
  else if defined (prop o "keywords") && negb (isArray (prop o "keywords")) then
    Some "Invalid keywords: must be an array"
  else if defined (prop o "excludedDomains") && negb (isArray (prop o "excludedDomains")) then
    Some "Invalid excludedDomains: must be an array"
  else None.

Definition check_autoReply (o : gmap string JSValue) : option string :=
  if defined (prop o "manualConfirmation") && not_boolean (prop o "manualConfirmation") then
    Some "Invalid manualConfirmation: must be a boolean"
  else if defined (prop o "replyTemplate") && not_string (prop o "replyTemplate") then
    Some "Invalid replyTemplate: must be a string"
  else if defined (prop o "checkInterval")
          && (not_number (prop o "checkInterval") || le_zero (prop o "checkInterval")) then
    Some "Invalid checkInterval: must be a positive number"
  else None.

(** [Some msg]: the middleware answers 400 with [msg]; [None]: it calls
    [next()]. The request body has the shape of a [ConfigUpdate]. *)
Definition validateConfigUpdate (body : ConfigUpdate) : option string :=
  match validate_section check_email (upd_email body) with
  | Some msg => Some msg
  | None =>
      match validate_section check_filters (upd_filters body) with
      | Some msg => Some msg
      | None => validate_section check_autoReply (upd_autoReply body)
      end
  end.

(** *** GET and PUT /api/config *)

(** The password never leaves the server: it is replaced by eight stars,
    or by the empty string when none is stored. *)
Definition safeConfig (config : Config) : Config :=
  mkConfig
    (<["password" := JStr (if truthy (prop (email config) "password")
                           then "********" else "")]> (email config))
    (filters config) (autoReply config).

Section ConfigRoutes.
Context {S : Type}.

Definition get_config (db : Db) (m : Manager S) : Response * Manager S :=
  match getConfig db m with
  | (inl config, m1) => (mkResponse 200 (ConfigBody None (safeConfig config)), m1)
  | (inr err, m1) => (errorHandler err, m1)
  end.

Definition put_config (db : Db) (body : ConfigUpdate) (m : Manager S)
  : Response * Manager S :=
  match validateConfigUpdate body with
  | Some msg => (mkResponse 400 (ErrorBody msg), m)
  | None =>
      match updateConfig db body m with
      | (inr err, m1) => (errorHandler err, m1)
      | (inl _, m1) =>
          match getConfig db m1 with
          | (inl updatedConfig, m2) =>
              (mkResponse 200 (ConfigBody (Some "Configuration updated successfully")
                                          (safeConfig updatedConfig)), m2)
          | (inr err, m2) => (errorHandler err, m2)
          end
      end
  end.

End ConfigRoutes.

(** *** POST /api/replies/:id/approve and /reject *)

(** What [replyRepository.getById(id)] gives during the request. *)
Inductive RepoGet :=
| RepoFails (err : string)
| RepoNone
| RepoFound (stored : ReplyStatus).

Definition status_name (st : ReplyStatus) : string :=
  match st with
  | pending => "pending"
  | approved => "approved"
  | rejected => "rejected"
  | sent => "sent"
  | failed => "failed"
  end.

Section ConfirmRoutes.
Context (env : Env) (config : AutoResponderConfig).

Definition confirm_route (approve : bool) (found : RepoGet) (id : string)
  : World -> Response * World :=
  fun w =>
    match found with
    | RepoFails err => (errorHandler err, w)
    | RepoNone => (mkResponse 404 (ErrorBody "Reply not found"), w)
    | RepoFound stored =>
        match stored with
        | pending =>
            match processConfirmation env config id approve w with
            | (Ok _, w') =>
                (mkResponse 200
                   (ConfirmBody (if approve then "Reply approved and sent successfully"
                                 else "Reply rejected successfully") id), w')
            | (Throw err, w') => (errorHandler (message err), w')
            end
        | _ =>
            (mkResponse 400
               (ErrorBody ("Reply is not pending (current status: "
                           +:+ status_name stored +:+ ")")), w)
        end
    end.

Definition approve_route : RepoGet -> string -> World -> Response * World :=
  confirm_route true.

Definition reject_route : RepoGet -> string -> World -> Response * World :=
  confirm_route false.

End ConfirmRoutes.

End Routes.

(** ** The hot-reload subscriber ([src/index.ts]) *)

Module HotReload.
Import ConfigManager Filter.

(** [items.map(x => x.toLowerCase())], element by element from the left;
    [var] is the name of the arrow function's parameter. *)
Fixpoint lower_all (var : string) (items : list JSValue) : list string + string :=
  match items with
  | [] => inl []
  | JStr s :: rest =>
      match lower_all var rest with
      | inl l => inl (toLowerCase s :: l)
      | inr err => inr err
      end
  | JUndefined :: _ => inr "Cannot read properties of undefined (reading 'toLowerCase')"
  | JNull :: _ => inr "Cannot read properties of null (reading 'toLowerCase')"
  | _ :: _ => inr (var +:+ ".toLowerCase is not a function")
  end.

(** [v.map(x => x.toLowerCase())] on a run-time value; [inr msg] is the
    [TypeError] thrown. *)
Definition map_lower (param var : string) (v : JSValue) : list string + string :=
  match v with
  | JArr items => lower_all var items
  | JUndefined => inr "Cannot read properties of undefined (reading 'map')"
  | JNull => inr "Cannot read properties of null (reading 'map')"
  | _ => inr (param +:+ ".map is not a function")
  end.

(** What the subscriber acts upon: the message filter, and the lines it
    writes with [console.log]. *)
Record App := mkApp { app_filter : MessageFilter; app_stdout : list string }.

(** The closure passed to [configManager.subscribe] in [initialize]: a
    line on the console, the three setters of the message filter in turn,
    and a second line once all three have returned. The filter only ever
    tests [keywordsEnabled] for truthiness, which is what is kept of it.
    The check mark of the second line is written in UTF-8. *)
Definition hot_reload : ConfigListener App :=
  fun newConfig a =>
    let out := app_stdout a ++ ["Configuration updated, applying changes..."] in
    let mf := app_filter a in
    match map_lower "keywords" "kw" (prop (filters newConfig) "keywords") with
    | inr err => (mkApp mf out, Some err)
    | inl kws =>
        let mf1 := mkMessageFilter (mkKeywordMatcher kws) (mf_domainFilter mf)
                                   (mf_keywordsEnabled mf) in
        match map_lower "domains" "d" (prop (filters newConfig) "excludedDomains") with
        | inr err => (mkApp mf1 out, Some err)
        | inl ds =>
            (mkApp (mkMessageFilter (mkKeywordMatcher kws) (mkDomainFilter ds)
                                    (truthy (prop (filters newConfig) "keywordsEnabled")))
                   (out ++ ["✓ Configuration hot-reloaded"]),
             None)
        end
    end.

End HotReload.

(** ** Environment parsing ([src/config/env.ts]) *)

Module EnvParse.

(** White space and line terminators of [String.prototype.trim] among the
    code units 0..255. *)
Definition is_space (c : ascii) : bool :=
  let n := nat_of_ascii c in
  ((9 <=? n) && (n <=? 13) || (n =? 32) || (n =? 160))%nat.

Fixpoint trimStart (s : string) : string :=
  match s with
  | EmptyString => EmptyString
  | String c s' => if is_space c then trimStart s' else s
  end.

Fixpoint reverse (acc s : string) : string :=
  match s with
  | EmptyString => acc
  | String c s' => reverse (String c acc) s'
  end.

Definition trimEnd (s : string) : string :=
  reverse EmptyString (trimStart (reverse EmptyString s)).

Definition trim (s : string) : string := trimEnd (trimStart s).

(** [s.split(c)] for a one-character separator: never an empty array. *)
Fixpoint split (c : ascii) (s : string) : list string :=
  match s with
  | EmptyString => [EmptyString]
  | String a s' =>
      if ascii_dec a c then EmptyString :: split c s'
      else match split c s' with
           | [] => [String a EmptyString]
           | x :: xs => String a x :: xs
           end
  end.

(** An environment variable is a string or is not set; [!value] holds for
    both the unset and the empty one. *)
Definition parseList (value : option string) : option (list string) :=
  match value with
  | None => None
  | Some s =>
      if is_empty s then None
      else Some (List.filter (fun item => negb (is_empty item))
                             (map trim (split ","%char s)))
  end.

Definition parseBoolean (value : option string) (defaultValue : bool) : bool :=
  match value with
  | None => defaultValue
  | Some s =>
      if is_empty s then defaultValue
      else String.eqb (toLowerCase s) "true" || String.eqb s "1"
  end.

End EnvParse.

(** ** Model validation ([src/models/validation.ts]) *)

Module Validation.
Import ConfigManager.

(** The class [[^\s@]] of the address pattern. *)
Definition plain_char (c : ascii) : bool :=
  negb (EnvParse.is_space c) && negb (Ascii.eqb c "@").

Fixpoint all_plain (s : string) : bool :=
  match s with
  | EmptyString => true
  | String c s' => plain_char c && all_plain s'
  end.

(** Some dot of [s] has a character before it and one after it. *)
Fixpoint inner_dot (first : bool) (s : string) : bool :=
  match s with
  | EmptyString => false
  | String c s' =>
      (negb first && Ascii.eqb c "." && negb (is_empty s')) || inner_dot false s'
  end.

Fixpoint prefix (n : nat) (s : string) : string :=
  match n, s with
  | S n', String c s' => String c (prefix n' s')
  | _, _ => EmptyString
  end.

(** [/^[^\s@]+@[^\s@]+\.[^\s@]+$/.test(email)]: the only place for the
    at sign of the pattern is the first one of the string. *)
Definition isValidEmail (email : string) : bool :=
  match indexOf email "@"%char with
  | None => false
  | Some i =>
      let local := prefix i email in
      let domain := substring_from (i + 1) email in
      negb (is_empty local) && all_plain local && all_plain domain
      && inner_dot true domain
  end.

(** Numbers are the integers, so [Number.isInteger] asks for a number. *)
Definition isValidPort (port : JSValue) : bool :=
  match port with
  | JNum z => (0 <? z)%Z && (z <=? 65535)%Z
  | _ => false
  end.

(** [typeof v === 'string' && v.length > 0] *)
Definition nonempty_string (v : JSValue) : bool :=
  match v with
  | JStr s => negb (is_empty s)
  | _ => false
  end.

Definition is_boolean (v : JSValue) : bool := String.eqb (typeof v) "boolean".

(** [Array.isArray(v) && v.every(x => typeof x === 'string')] *)
Definition string_array (v : JSValue) : bool :=
  match v with
  | JArr items => forallb (fun x => String.eqb (typeof x) "string") items
  | _ => false
  end.

Definition isValidEmailConfig (config : gmap string JSValue) : bool :=
  nonempty_string (prop config "imapHost")
  && isValidPort (prop config "imapPort")
  && nonempty_string (prop config "smtpHost")
  && isValidPort (prop config "smtpPort")
  && nonempty_string (prop config "username")
  && nonempty_string (prop config "password").

Definition isValidFilterConfig (config : gmap string JSValue) : bool :=
  is_boolean (prop config "keywordsEnabled")
  && string_array (prop config "keywords")
  && string_array (prop config "excludedDomains").

Definition isValidAutoReplyConfig (config : gmap string JSValue) : bool :=
  is_boolean (prop config "manualConfirmation")
  && nonempty_string (prop config "replyTemplate")
  && match prop config "checkInterval" with
     | JNum z => (0 <? z)%Z
     | _ => false
     end.

Definition isValidConfig (config : Config) : bool :=
  isValidEmailConfig (email config)
  && isValidFilterConfig (filters config)
  && isValidAutoReplyConfig (autoReply config).

End Validation.

(** * Vocabulary of the properties *)

Module FilterSpec.
Import Filter.

(** [k] occurs in [t], letter case ignored: after lower-casing both,
    [k] is a substring of [t]. *)
Definition occurs_ci (k t : string) : Prop :=
  exists a b, toLowerCase t = a +:+ toLowerCase k +:+ b.

(** Two strings are equal, letter case ignored. *)
Definition eq_ci (a b : string) : Prop := toLowerCase a = toLowerCase b.

(** The sender's domain is one of the configured exclusions. *)
Definition sender_excluded (cfg : FilterConfig) (e : Email) : Prop :=
  exists d, In d (excludedDomains cfg) /\ eq_ci d (extractDomain (email_from e)).

(** [u] contains no at-sign. *)
Definition no_at (u : string) : Prop :=
  forall a b, u <> a +:+ "@" +:+ b.

(** Some configured keyword occurs in the subject or in the body, each
    searched on its own. *)
Definition keyword_in_subject_or_body (cfg : FilterConfig) (e : Email) : Prop :=
  exists k, In k (keywords cfg)
            /\ (occurs_ci k (email_subject e) \/ occurs_ci k (email_body e)).

(** Some configured keyword occurs in the text that [findMatches]
    searches: subject, one space, body. *)
Definition keyword_in_search_text (cfg : FilterConfig) (e : Email) : Prop :=
  exists k, In k (keywords cfg)
            /\ occurs_ci k (email_subject e +:+ " " +:+ email_body e).

End FilterSpec.

Module ResponderSpec.

(** Classification of trace events. *)
Definition is_send (e : Event) : bool :=
  match e with EvSendMail _ _ _ _ => true | _ => false end.
Definition is_mark (e : Event) : bool :=
  match e with EvMarkAsRead _ => true | _ => false end.
Definition is_quiet (e : Event) : bool := negb (is_send e) && negb (is_mark e).
Definition count_sends (t : list Event) : nat := length (List.filter is_send t).
Definition same_content (r r' : Reply) : Prop :=
  reply_id r' = reply_id r /\ reply_originalEmailId r' = reply_originalEmailId r
  /\ reply_to r' = reply_to r /\ reply_subject r' = reply_subject r
  /\ reply_body r' = reply_body r.

(** The object that [generateReply] builds for [email] in world [w]. *)
Definition new_reply env config (email : Email) (w : World) : Reply :=
  mkReply (randomUUID env (uuids w)) (email_id email) (email_from email)
          ("Re: " +:+ email_subject email) (renderTemplate config email)
          (now env (ticks w))
          (if manualConfirmation config then pending else approved) None None.


(** The NotFound condition of [processConfirmation]. *)
Definition NotFound (replyId : string) : Result unit :=
  Throw (Error (not_found_message replyId)).

(** Every entry of the pending map refers to a stored reply and is keyed
    by that reply's id (as [queueForConfirmation] inserts it). *)
Definition pending_wf (w : World) : Prop :=
  forall k l, pendingReplies w !! k = Some l ->
              exists r, heap w !! l = Some r /\ reply_id r = k.

(** No reference at or beyond [next_ref] is in use. *)
Definition heap_fresh (w : World) : Prop :=
  forall l, next_ref w <= l -> heap w !! l = None.

(** The template mentions none of the three placeholders. *)
Definition placeholder_free (template : string) : Prop :=
  includes template "{sender}" = false
  /\ includes template "{subject}" = false
  /\ includes template "{body}" = false.

(** A non-empty text that does not begin with a dollar sign. *)
Definition plain_start (s : string) : Prop :=
  exists c r, s = String c r /\ c <> "$"%char.

Definition world_ok (w : World) : Prop := pending_wf w /\ heap_fresh w.

(** [m] keeps [world_ok], whatever its outcome. *)
Definition keeps_world_ok {A} (m : M A) : Prop :=
  forall w, world_ok w -> world_ok (snd (m w)).

(** [op] never changes the status of a reply that is terminal. *)
Definition keeps_terminal_status {A} (op : M A) : Prop :=
  forall w l r r',
    heap w !! l = Some r -> terminal (reply_status r) = true ->
    heap (snd (op w)) !! l = Some r' ->
    reply_status r' = reply_status r.

End ResponderSpec.

Module MonitorSpec.

(** The six fields of the claim: non-empty [id], [from] and [to]; the
    other three are present by type. *)
Definition complete (e : Email) : Prop :=
  email_id e <> "" /\ email_from e <> "" /\ email_to e <> "".

(** What the guard of the 'end' handler ensures. *)
Definition identified (e : Email) : Prop :=
  email_id e <> "" /\ email_from e <> "".

(** Every field of the world but the clock reading count is the same. *)
Definition only_ticks (w w' : World) : Prop :=
  w' = with_ticks (ticks w') w.

(** [m] leaves the monitor's fields as they are, whatever its outcome. *)
Definition keeps_monitor {A} (m : M A) : Prop :=
  forall w, monitor (snd (m w)) = monitor w.

(** [m] always returns normally. *)
Definition total {A} (m : M A) : Prop :=
  forall w, exists a w', m w = (Ok a, w').

(** [checkInbox] rejects, respectively resolves, on session [s]. *)
Definition rejects (env : Env) (s : ImapSession) : Prop :=
  forall w, exists e w', checkInbox env s w = (Throw e, w').

Definition resolves (env : Env) (s : ImapSession) : Prop :=
  forall w, exists emails w', checkInbox env s w = (Ok emails, w').

(** The sessions on which [checkInbox] rejects, by their shape. *)
Definition fails (s : ImapSession) : bool :=
  match s with
  | SearchEmpty | FetchEnds _ => false
  | _ => true
  end.

Definition attempt_prefix (k : nat) : string :=
  "Failed to check inbox (attempt " +:+ String_of_nat k +:+ "/5): ".

(** The [error] entry of the [k]-th consecutive failure. *)
Definition is_attempt_log (k : nat) (e : Event) : Prop :=
  exists id ts msg,
    e = EvLog (mkActivityLog id ts error "system" None (attempt_prefix k +:+ msg)
                 [("error", MStr msg); ("consecutiveFailures", MNum k)]).

(** The distinguished entry emitted from the fifth failure on. *)
Definition is_max_log (k : nat) (e : Event) : Prop :=
  exists id ts,
    e = EvLog (mkActivityLog id ts error "system" None
                 "Maximum consecutive failures reached (5). Connection issues detected."
                 [("consecutiveFailures", MNum k)]).

(** The entries of one failed cycle that brings the counter to [k]. *)
Definition cycle_logs (k : nat) (evs : list Event) : Prop :=
  (k < 5 /\ exists a, evs = [a] /\ is_attempt_log k a)
  \/ (5 <= k /\ exists a m, evs = [a; m] /\ is_attempt_log k a /\ is_max_log k m).

(** The entries of [n] failed cycles in a row, the counter starting at [k]. *)
Fixpoint failure_logs (k n : nat) (evs : list Event) : Prop :=
  match n with
  | 0 => evs = []
  | S n' => exists e1 e2, evs = e1 ++ e2 /\ cycle_logs (S k) e1
                          /\ failure_logs (S k) n' e2
  end.

End MonitorSpec.

Module ConfigSpec.
Import ConfigManager.

Section Listeners.
Context {S : Type}.

(** The state after every listener ran in order, each on the state its
    predecessor left, whether or not it threw. *)
Definition after_all (ls : list (ConfigListener S)) (config : Config) (s : S) : S :=
  fold_left (fun s l => fst (l config s)) ls s.

(** The console lines of the listeners that threw, in order. *)
Fixpoint console_lines (ls : list (ConfigListener S)) (config : Config) (s : S)
  : list string :=
  match ls with
  | [] => []
  | l :: rest =>
      match snd (l config s) with
      | Some err => ("Error notifying config listener: " +:+ err)
                      :: console_lines rest config (fst (l config s))
      | None => console_lines rest config (fst (l config s))
      end
  end.

(** One call per listener, in registration order, all with [config]. *)
Definition calls_in_order (first n : nat) (config : Config) : list (nat * Config) :=
  map (fun i => (i, config)) (seq first n).

(** [subscribe] called on each listener of [ls] in turn. *)
Definition subscribe_all (ls : list (ConfigListener S)) (m : Manager S) : Manager S :=
  fold_left (fun m l => subscribe l m) ls m.

End Listeners.

(** The update sets a port or the check interval to a negative number. *)
Definition has_negative_number (updates : ConfigUpdate) : Prop :=
  (exists o z, upd_email updates = Some o
               /\ (prop o "imapPort" = JNum z \/ prop o "smtpPort" = JNum z)
               /\ (z < 0)%Z)
  \/ (exists o z, upd_autoReply updates = Some o
                  /\ prop o "checkInterval" = JNum z /\ (z < 0)%Z).

End ConfigSpec.

(** Concrete collaborators and worlds used to run the model. *)
Module Fixtures.

Definition uuid_of (n : nat) : string := "uuid-" +:+ String_of_nat n.

(** Every send and every flag update succeeds. *)
Definition env_ok : Env :=
  mkEnv uuid_of Z.of_nat (fun _ _ _ _ _ => None) (fun _ _ => FlagAdded).

(** The SMTP transport accepts, the mailbox refuses the flag update. *)
Definition env_flag_fails : Env :=
  mkEnv uuid_of Z.of_nat (fun _ _ _ _ _ => None)
        (fun _ _ => FlagAddFlagsFails "NO").


(** The transport accepts the first mail and rejects the later ones. *)
Definition env_smtp_once : Env :=
  mkEnv uuid_of Z.of_nat
        (fun t _ _ _ _ => if existsb ResponderSpec.is_send t then Some "ECONNRESET"
                          else None)
        (fun _ _ => FlagAdded).

Definition config_auto : AutoResponderConfig :=
  mkAutoResponderConfig "me@example.org" "Thanks, {subject}" false true.

Definition config_manual : AutoResponderConfig :=
  mkAutoResponderConfig "me@example.org" "Thanks, {subject}" true true.

Definition monitor_idle : MonitorState := mkMonitorState true false false 0 true.

Definition world_empty : World := mkWorld ∅ 0 ∅ [] 0 0 monitor_idle.

Definition email1 : Email :=
  mkEmail "e1" "a@b.com" "me@example.org" "Hi" "Hello there" 0 false.

Definition filter_open : Filter.MessageFilter :=
  Filter.MessageFilter_new (Filter.mkFilterConfig false [] []).

Definition reply1 (st : ReplyStatus) : Reply :=
  mkReply "r1" "e1" "a@b.com" "Re: Hi" "Thanks, Hi" 0 st None None.

(** One reply object at reference 0, queued under its id. *)
Definition world_queued (st : ReplyStatus) : World :=
  mkWorld {[ 0 := reply1 st ]} 1 {[ "r1" := 0 ]} [] 1 1 monitor_idle.

(** One reply object at reference 0, not queued. *)
Definition world_held (st : ReplyStatus) : World :=
  mkWorld {[ 0 := reply1 st ]} 1 ∅ [] 1 1 monitor_idle.


(** A message with a sender and no recipient in its envelope. *)
Definition msg_without_to : list MsgEvent :=
  [MsgAttributes (mkAttrs 7 (Some (mkEnvelope [mkAddress "alice" "example.com"] []
                                              (Some "Hi") (Some 5%Z))));
   MsgBody ["Hel"; "lo"];
   MsgEnd].


(** Two subscribers that note what they saw; the first one throws. *)
Definition listener_throws : ConfigManager.ConfigListener (list string) :=
  fun _ s => (s ++ ["first"], Some "boom").

Definition listener_notes : ConfigManager.ConfigListener (list string) :=
  fun config s =>
    (s ++ [match ConfigManager.prop (ConfigManager.autoReply config) "checkInterval" with
           | ConfigManager.JNum z => if (z =? 0)%Z then "interval 0" else "interval set"
           | _ => "no interval"
           end], None).

(** A subscriber that notes the reply template of the configuration it
    is given. *)
Definition listener_sees : ConfigManager.ConfigListener (list string) :=
  fun config s =>
    (s ++ [match ConfigManager.prop (ConfigManager.autoReply config) "replyTemplate" with
           | ConfigManager.JStr t => t
           | _ => "no template"
           end], None).

(** A manager as its constructor leaves it. *)
Definition manager_new : ConfigManager.Manager (list string) :=
  ConfigManager.mkManager [] None [] [] [].

(** An update of the reply template alone. *)
Definition update_template : ConfigManager.ConfigUpdate :=
  ConfigManager.mkConfigUpdate None None
    (Some (<["replyTemplate" := ConfigManager.JStr "Thanks"]> ∅)).

Definition manager0 : ConfigManager.Manager (list string) :=
  ConfigManager.mkManager [listener_throws; listener_notes]
                          (Some ConfigManager.defaultConfig) [] [] [].

Definition db_ok : ConfigManager.Db :=
  ConfigManager.mkDb None ConfigManager.NoRow ConfigManager.RunOk.

(** A well-typed update with a zero check interval. *)
Definition update_zero_interval : ConfigManager.ConfigUpdate :=
  ConfigManager.mkConfigUpdate None None
    (Some (<["manualConfirmation" := ConfigManager.JBool true]>
           (<["replyTemplate" := ConfigManager.JStr "Thanks"]>
            (<["checkInterval" := ConfigManager.JNum 0]> ∅)))).

Definition update_negative_interval : ConfigManager.ConfigUpdate :=
  ConfigManager.mkConfigUpdate None None
    (Some (<["checkInterval" := ConfigManager.JNum (-5)]> ∅)).

End Fixtures.

(** Vocabulary of the further properties. *)
Module MoreSpec.

(** The log entries among some events, in order. *)
Definition logs_of (evs : list Event) : list ActivityLog :=
  flat_map (fun ev => match ev with EvLog log => [log] | _ => [] end) evs.

(** The call of [onReplySave], when the callback is set. *)
Definition saves (config : AutoResponderConfig) (r : Reply) : list Event :=
  if onReplySave config then [EvReplySave r] else [].

(** The events one email leaves behind: at least one log entry, and every
    log entry carries the email's id. *)
Definition block_of (e : Email) (evs : list Event) : Prop :=
  logs_of evs <> []
  /\ Forall (fun log => log_emailId log = email_id e) (logs_of evs).

(** The messages the server delivers during a session. *)
Definition messages_of (s : ImapSession) : list (list MsgEvent) :=
  match s with
  | FetchEnds msgs | FetchFails msgs _ => msgs
  | _ => []
  end.

(** What [checkInbox] promises of an email it returns. *)
Definition fetched (e : Email) : Prop :=
  email_id e <> "" /\ email_from e <> "" /\ email_isRead e = false.

(** The entry points of the running service: a timer tick, a
    confirmation request, [start()] and [stop()]. *)
Inductive Call :=
| CallPoll (session : ImapSession)
| CallConfirm (replyId : string) (approve : bool)
| CallStart (session : ImapSession)
| CallStop.

Section Calls.
Context (env : Env) (config : AutoResponderConfig) (messageFilter : Filter.MessageFilter).

Definition run_call (c : Call) : M unit :=
  match c with
  | CallPoll s => pollInbox env config messageFilter s
  | CallConfirm replyId approve => processConfirmation env config replyId approve
  | CallStart s => start env config messageFilter s
  | CallStop => stop_idle env ;; ret tt
  end.

(** Calls made one after the other; a call that throws does not keep the
    next one from being made. *)
Fixpoint run_calls (cs : list Call) (w : World) : World :=
  match cs with
  | [] => w
  | c :: rest => run_calls rest (snd (run_call c w))
  end.

End Calls.

(** The 'end' handler of a message can still push one email, or cannot. *)
Definition slot (v : MsgVars) : nat := if v_ended v then 0 else 1.

(** [m] only ever adds events to the trace. *)
Definition extends_trace {A} (m : M A) : Prop :=
  forall w, exists evs, trace (snd (m w)) = trace w ++ evs.

(** A JavaScript array of strings. *)
Definition strings (l : list string) : ConfigManager.JSValue :=
  ConfigManager.JArr (map ConfigManager.JStr l).

(** What [{ ...current, ...update }] holds under key [k]. *)
Definition overlay (current : gmap string ConfigManager.JSValue)
           (update : option (gmap string ConfigManager.JSValue)) (k : string)
  : option ConfigManager.JSValue :=
  match update with
  | Some o => match o !! k with
              | Some v => Some v
              | None => current !! k
              end
  | None => current !! k
  end.

(** The update sets a port or the check interval to zero or less. *)
Definition has_nonpositive_number (updates : ConfigManager.ConfigUpdate) : Prop :=
  (exists o z, ConfigManager.upd_email updates = Some o
               /\ (ConfigManager.prop o "imapPort" = ConfigManager.JNum z
                   \/ ConfigManager.prop o "smtpPort" = ConfigManager.JNum z)
               /\ (z <= 0)%Z)
  \/ (exists o z, ConfigManager.upd_autoReply updates = Some o
                  /\ ConfigManager.prop o "checkInterval" = ConfigManager.JNum z
                  /\ (z <= 0)%Z).

(** A whole configuration sent as an update. *)
Definition as_update (c : ConfigManager.Config) : ConfigManager.ConfigUpdate :=
  ConfigManager.mkConfigUpdate (Some (ConfigManager.email c))
                               (Some (ConfigManager.filters c))
                               (Some (ConfigManager.autoReply c)).

(** The string begins, respectively ends, with white space. *)
Definition starts_space (s : string) : bool :=
  match s with
  | String c _ => EnvParse.is_space c
  | EmptyString => false
  end.

Definition ends_space (s : string) : bool :=
  starts_space (EnvParse.reverse EmptyString s).

(** An item as [parseList] returns it: not empty, without a comma and
    without white space at either end. *)
Definition clean_item (item : string) : Prop :=
  item <> EmptyString
  /\ indexOf item ","%char = None
  /\ starts_space item = false
  /\ ends_space item = false.

(** The reply at reference [l] is [r], and no entry of the pending map
    refers to it. *)
Definition settled (l : nat) (r : Reply) (w : World) : Prop :=
  heap w !! l = Some r /\ forall k, pendingReplies w !! k <> Some l.

(** The store is well formed and holds [r] at [l], out of the pending map. *)
Definition settled_store (l : nat) (r : Reply) (w : World) : Prop :=
  ResponderSpec.world_ok w /\ settled l r w.

(** [m] keeps [P], whatever its outcome. *)
Definition preserves (P : World -> Prop) {A} (m : M A) : Prop :=
  forall w, P w -> P (snd (m w)).

End MoreSpec.

(** * Properties *)

(** ** Strings *)

Module JsStringFacts.

Lemma lower_char_idem (c : ascii) : lower_char (lower_char c) = lower_char c.
Proof.
  destruct c as [b0 b1 b2 b3 b4 b5 b6 b7].
  destruct b0, b1, b2, b3, b4, b5, b6, b7; vm_compute; reflexivity.
Qed.

Lemma toLowerCase_idem (s : string) : toLowerCase (toLowerCase s) = toLowerCase s.
Proof.
  induction s as [|c s IH]; simpl; [reflexivity|].
  now rewrite lower_char_idem, IH.
Qed.

Lemma toLowerCase_app (a b : string) :
  toLowerCase (a +:+ b) = toLowerCase a +:+ toLowerCase b.
Proof. induction a as [|c a IH]; simpl; [reflexivity | now rewrite IH]. Qed.

Lemma startsWith_spec (p s : string) :
  startsWith s p = true <-> exists r, s = p +:+ r.
Proof.
  revert s. induction p as [|a p IH]; intros [|b s]; simpl.
  - split; [intros _; now exists "" | reflexivity].
  - split; [intros _; now exists (String b s) | reflexivity].
  - split; [discriminate | intros [r Hr]; discriminate].
  - destruct (ascii_dec a b) as [->|Hne].
    + rewrite IH. split; intros [r Hr]; exists r; [now rewrite Hr | now inversion Hr].
    + split; [discriminate | intros [r Hr]; inversion Hr; congruence].
Qed.

Lemma includes_nil (k : string) : includes "" k = startsWith "" k || false.
Proof. reflexivity. Qed.

Lemma includes_cons (c : ascii) (s k : string) :
  includes (String c s) k = startsWith (String c s) k || includes s k.
Proof. reflexivity. Qed.

Lemma includes_spec (s k : string) :
  includes s k = true <-> exists a b, s = a +:+ k +:+ b.
Proof.
  induction s as [|c s IH]; [rewrite includes_nil | rewrite includes_cons].
  - rewrite orb_false_r, startsWith_spec. split.
    + intros [r Hr]. now exists "", r.
    + intros [a [b Hab]]. destruct a; [now exists b | discriminate].
  - rewrite orb_true_iff, startsWith_spec, IH. split.
    + intros [[r Hr] | [a [b Hab]]].
      * now exists "", r.
      * exists (String c a), b. simpl. now rewrite Hab.
    + intros [a [b Hab]]. destruct a as [|c' a]; simpl in Hab.
      * left. now exists b.
      * right. inversion Hab. now exists a, b.
Qed.

Lemma append_cons (x : ascii) (a b : string) :
  String x a +:+ b = String x (a +:+ b).
Proof. reflexivity. Qed.

Lemma append_nil (b : string) : "" +:+ b = b.
Proof. reflexivity. Qed.

Lemma append_assoc (a b c : string) : (a +:+ b) +:+ c = a +:+ b +:+ c.
Proof.
  induction a as [|x a IH]; [reflexivity|].
  rewrite !append_cons. now rewrite IH.
Qed.

Lemma length_append (a b : string) :
  String.length (a +:+ b) = String.length a + String.length b.
Proof.
  induction a as [|x a IH]; [reflexivity|].
  rewrite append_cons. simpl. now rewrite IH.
Qed.

Lemma is_empty_true (s : string) : is_empty s = true <-> s = "".
Proof. destruct s; simpl; split; congruence. Qed.

Lemma is_empty_false (s : string) : is_empty s = false <-> s <> "".
Proof. destruct s; simpl; split; congruence. Qed.

End JsStringFacts.

(** ** The message filter *)

Module FilterFacts.
Import Filter FilterSpec JsStringFacts.

Lemma occurs_ci_includes (k t : string) :
  occurs_ci k t <-> includes (toLowerCase t) (toLowerCase k) = true.
Proof. unfold occurs_ci. now rewrite includes_spec. Qed.

Lemma extractDomain_lower (a : string) :
  toLowerCase (extractDomain a) = extractDomain a.
Proof.
  unfold extractDomain. destruct (indexOf a "@"); [apply toLowerCase_idem | reflexivity].
Qed.

Lemma array_includes_spec (l : list string) (x : string) :
  array_includes l x = true <-> In x l.
Proof.
  unfold array_includes. rewrite existsb_exists. split.
  - intros [y [Hy Heq]]. apply String.eqb_eq in Heq. now subst.
  - intros H. exists x. split; [assumption | apply String.eqb_refl].
Qed.

Lemma isExcluded_spec (cfg : FilterConfig) (e : Email) :
  isExcluded (DomainFilter_new (excludedDomains cfg)) (email_from e) = true
  <-> sender_excluded cfg e.
Proof.
  unfold isExcluded, sender_excluded, eq_ci. simpl.
  rewrite array_includes_spec, in_map_iff, extractDomain_lower.
  split; intros [d [H1 H2]]; exists d; tauto.
Qed.

Lemma findMatches_spec (kws : list string) (e : Email) (m : string) :
  In m (findMatches (KeywordMatcher_new kws) e)
  <-> exists k, In k kws /\ m = toLowerCase k
                /\ occurs_ci k (email_subject e +:+ " " +:+ email_body e).
Proof.
  unfold findMatches. simpl. rewrite filter_In, in_map_iff. split.
  - intros [[k [<- Hk]] Hinc]. exists k. split; [assumption|]. split; [reflexivity|].
    now apply occurs_ci_includes.
  - intros [k [Hk [-> Hocc]]]. split; [now exists k|]. now apply occurs_ci_includes.
Qed.

Lemma length_pos_iff {A} (l : list A) : (0 <? length l)%nat = true <-> exists x, In x l.
Proof.
  destruct l as [|x l]; simpl.
  - split; [discriminate | intros [x []]].
  - split; [intros _; exists x; now left | reflexivity].
Qed.

Example extractDomain_folds_case : extractDomain "User@Example.COM" = "example.com".
Proof. reflexivity. Qed.

Example extractDomain_without_at : extractDomain "invalidemail" = "".
Proof. reflexivity. Qed.

Example extractDomain_first_at : extractDomain "a@b@c" = "b@c".
Proof. reflexivity. Qed.

Example no_keyword_match :
  shouldAutoReply (MessageFilter_new (mkFilterConfig true ["urgent"] []))
                  (mkEmail "e1" "a@b.com" "me@example.org" "Hello" "no keywords" 0 false)
  = mkFilterDecision false "Email does not contain any required keywords" None.
Proof. reflexivity. Qed.

Example keywords_disabled :
  shouldAutoReply (MessageFilter_new (mkFilterConfig false ["urgent"] []))
                  (mkEmail "e1" "a@b.com" "me@example.org" "Hello" "no keywords" 0 false)
  = mkFilterDecision true
      "Keyword filtering disabled, all non-excluded emails approved" None.
Proof. reflexivity. Qed.

Lemma indexOf_first_at (u rest : string) :
  no_at u -> indexOf (u +:+ "@" +:+ rest) "@" = Some (String.length u).
Proof.
  induction u as [|c u IH]; intros Hu; simpl.
  - reflexivity.
  - destruct (ascii_dec c "@") as [->|Hc].
    + exfalso. apply (Hu "" u). reflexivity.
    + rewrite IH; [reflexivity|].
      intros a b Hab. apply (Hu (String c a) b). simpl. now rewrite Hab.
Qed.

Lemma substring_from_app (u v : string) :
  substring_from (String.length u) (u +:+ v) = v.
Proof. induction u as [|c u IH]; simpl; [now destruct v | exact IH]. Qed.

Lemma extractDomain_after_first_at (u rest : string) :
  no_at u -> extractDomain (u +:+ "@" +:+ rest) = toLowerCase rest.
Proof.
  intros Hu. unfold extractDomain. rewrite (indexOf_first_at u rest Hu).
  replace (String.length u + 1) with (String.length (u +:+ "@"))
    by (rewrite length_append; reflexivity).
  rewrite <- append_assoc. now rewrite substring_from_app.
Qed.

Lemma shouldAutoReply_excluded (cfg : FilterConfig) (e : Email) :
  sender_excluded cfg e ->
  shouldAutoReply (MessageFilter_new cfg) e =
  mkFilterDecision false
    ("Sender domain is excluded: " +:+ extractDomain (email_from e)) None.
Proof.
  intros H. apply isExcluded_spec in H. unfold shouldAutoReply.
  simpl. simpl in H. now rewrite H.
Qed.

Lemma shouldAutoReply_not_excluded (cfg : FilterConfig) (e : Email) :
  ~ sender_excluded cfg e ->
  shouldAutoReply (MessageFilter_new cfg) e =
  if keywordsEnabled cfg then
    let matched := findMatches (KeywordMatcher_new (keywords cfg)) e in
    if (0 <? length matched)%nat then
      mkFilterDecision true "Email contains required keywords" (Some matched)
    else
      mkFilterDecision false "Email does not contain any required keywords" None
  else
    mkFilterDecision true
      "Keyword filtering disabled, all non-excluded emails approved" None.
Proof.
  intros H. rewrite <- isExcluded_spec in H. apply not_true_is_false in H.
  unfold shouldAutoReply. simpl. simpl in H. now rewrite H.
Qed.

(** C3. An email whose sender domain -- the text after the first at-sign
    of [from] -- equals a configured excluded domain, letter case ignored,
    is rejected, and the reason names the lower-cased domain; this holds
    for every keyword setting and every content. *)
Theorem C3_excluded_domain_rejected
        (cfg : FilterConfig) (e : Email) (user domain : string) :
  email_from e = user +:+ "@" +:+ domain ->
  no_at user ->
  (exists d, In d (excludedDomains cfg) /\ eq_ci d domain) ->
  shouldAutoReply (MessageFilter_new cfg) e =
  mkFilterDecision false
    ("Sender domain is excluded: " +:+ toLowerCase domain) None.
Proof.
  intros Hfrom Huser [d [Hd Heq]].
  rewrite <- (extractDomain_after_first_at user domain Huser), <- Hfrom.
  apply shouldAutoReply_excluded.
  exists d. split; [assumption|].
  unfold eq_ci in *. rewrite Hfrom, (extractDomain_after_first_at user domain Huser).
  now rewrite toLowerCase_idem.
Qed.

Lemma no_at_includes (u : string) : includes u "@" = false -> no_at u.
Proof.
  intros H a b Hab. apply not_true_iff_false in H. apply H.
  apply includes_spec. now exists a, b.
Qed.

Lemma C3_excluded_domain_rejected_witness :
  let cfg := mkFilterConfig true ["urgent"] ["Spam.com"] in
  let e := mkEmail "e1" "spam@SPAM.com" "me@example.org" "URGENT help" "" 0 false in
  shouldAutoReply (MessageFilter_new cfg) e =
  mkFilterDecision false "Sender domain is excluded: spam.com" None.
Proof.
  intros cfg e.
  apply (C3_excluded_domain_rejected cfg e "spam" "SPAM.com").
  - reflexivity.
  - apply no_at_includes. reflexivity.
  - exists "Spam.com". split; [simpl; auto | reflexivity].
Defined.

(** C2 (as amended). For an email whose sender domain is not excluded:
    with keyword filtering enabled it is approved exactly when some
    configured keyword occurs, letter case ignored, in the text made of
    the subject, one space and the body; [matchedKeywords] is then the
    non-empty list of the lower-cased configured keywords that occur in
    that text, in configuration order; with keyword filtering disabled it
    is approved whatever its content. *)
Theorem C2_keyword_logic (cfg : FilterConfig) (e : Email) :
  ~ sender_excluded cfg e ->
  let d := shouldAutoReply (MessageFilter_new cfg) e in
  (keywordsEnabled cfg = true ->
     (approved d = true <-> keyword_in_search_text cfg e)
     /\ (approved d = true ->
         exists ms,
           matchedKeywords d = Some ms /\ ms <> []
           /\ ms = List.filter
                     (fun k => includes
                                 (toLowerCase (email_subject e +:+ " " +:+ email_body e)) k)
                     (map toLowerCase (keywords cfg))
           /\ (forall m, In m ms <->
                  exists k, In k (keywords cfg) /\ m = toLowerCase k
                            /\ occurs_ci k (email_subject e +:+ " " +:+ email_body e))))
  /\ (keywordsEnabled cfg = false -> approved d = true /\ matchedKeywords d = None).
Proof.
  intros Hnex d. unfold d. rewrite (shouldAutoReply_not_excluded cfg e Hnex).
  split.
  - intros ->.
    set (ms := findMatches (KeywordMatcher_new (keywords cfg)) e).
    assert (Hpos : (0 <? length ms)%nat = true <-> keyword_in_search_text cfg e).
    { rewrite length_pos_iff. unfold keyword_in_search_text. split.
      - intros [m Hm]. apply findMatches_spec in Hm. destruct Hm as [k [Hk [_ Ho]]].
        now exists k.
      - intros [k [Hk Ho]]. exists (toLowerCase k). apply findMatches_spec.
        now exists k. }
    cbv zeta. destruct (0 <? length ms)%nat eqn:Hlen; simpl.
    + split; [tauto|]. intros _. exists ms. split; [reflexivity|].
      split; [intros ->; discriminate|]. split; [reflexivity|].
      intros m. apply findMatches_spec.
    + split; [|discriminate]. rewrite <- Hpos. tauto.
  - intros ->. simpl. split; reflexivity.
Qed.

Lemma C2_keyword_logic_witness :
  let cfg := mkFilterConfig true ["URGENT"; "invoice"] ["spam.com"] in
  let e := mkEmail "e1" "alice@example.com" "me@example.org"
                   "Urgent: help" "please" 0 false in
  ~ sender_excluded cfg e
  /\ (approved (shouldAutoReply (MessageFilter_new cfg) e) = true
      <-> keyword_in_search_text cfg e)
  /\ matchedKeywords (shouldAutoReply (MessageFilter_new cfg) e) = Some ["urgent"].
Proof.
  intros cfg e.
  assert (Hnex : ~ sender_excluded cfg e).
  { rewrite <- isExcluded_spec. vm_compute. discriminate. }
  split; [exact Hnex|].
  split; [exact (proj1 (proj1 (C2_keyword_logic cfg e Hnex) eq_refl)) | reflexivity].
Defined.

(** C2 as stated fails: the keyword "o w" occurs neither in the subject
    "Hello" nor in the body "world", yet the email is approved, because
    the search runs over "hello world". *)
Lemma C2_counterexample :
  let cfg := mkFilterConfig true ["o w"] [] in
  let e := mkEmail "e1" "alice@example.com" "me@example.org" "Hello" "world" 0 false in
  ~ sender_excluded cfg e
  /\ keywordsEnabled cfg = true
  /\ ~ (approved (shouldAutoReply (MessageFilter_new cfg) e) = true
        <-> keyword_in_subject_or_body cfg e).
Proof.
  intros cfg e. split; [|split].
  - intros [d [[] _]].
  - reflexivity.
  - intros [H _]. specialize (H eq_refl). destruct H as [k [[<-|[]] [Ho|Ho]]];
      apply occurs_ci_includes in Ho; vm_compute in Ho; discriminate.
Qed.

End FilterFacts.

(** ** Template rendering *)

Module TemplateFacts.
Import Template JsStringFacts ResponderSpec.

Example replace_every_match :
  replace_all "{sender}" "a@b.com" "To {sender}, again {sender}." = "To a@b.com, again a@b.com.".
Proof. reflexivity. Qed.

Example replace_dollar_patterns :
  replace_all "{subject}" "[$$|$&|$`|$'|$1]" "ab{subject}cd"
  = "ab[$|{subject}|ab|cd|$1]cd".
Proof. reflexivity. Qed.

(** A non-empty body can still render to nothing: the text before the
    match is empty. *)
Example replace_by_text_before :
  replace_all "{body}" "$`" "{body}" = "".
Proof. reflexivity. Qed.

Lemma replace_go_nil pat repl skip before :
  replace_go pat repl skip before "" = "".
Proof. reflexivity. Qed.

Lemma replace_go_skip pat repl k before c s :
  replace_go pat repl (S k) before (String c s)
  = replace_go pat repl k (before +:+ String c "") s.
Proof. reflexivity. Qed.

Lemma replace_go_scan pat repl before c s :
  replace_go pat repl 0 before (String c s)
  = if startsWith (String c s) pat then
      expand repl pat before (substring_from (String.length pat) (String c s))
      +:+ replace_go pat repl (String.length pat - 1) (before +:+ String c "") s
    else String c (replace_go pat repl 0 (before +:+ String c "") s).
Proof. reflexivity. Qed.

Lemma replace_go_no_match pat repl s :
  includes s pat = false ->
  forall before, replace_go pat repl 0 before s = s.
Proof.
  induction s as [|c s IH]; intros Hinc before; [reflexivity|].
  rewrite includes_cons in Hinc. apply orb_false_iff in Hinc as [Hsw Hrest].
  rewrite replace_go_scan, Hsw. now rewrite IH.
Qed.

Lemma replace_all_no_match pat repl s :
  includes s pat = false -> replace_all pat repl s = s.
Proof. intros H. now apply replace_go_no_match. Qed.

Lemma expand_plain_start c r matched before after :
  c <> "$"%char ->
  expand (String c r) matched before after = String c (expand r matched before after).
Proof.
  intros Hc. destruct c as [b0 b1 b2 b3 b4 b5 b6 b7].
  destruct b0, b1, b2, b3, b4, b5, b6, b7; try reflexivity.
  congruence.
Qed.

Lemma replace_all_nonempty pat repl s :
  s <> "" -> plain_start repl -> replace_all pat repl s <> "".
Proof.
  intros Hs (c0 & r0 & -> & Hc0). destruct s as [|c s]; [congruence|].
  unfold replace_all. rewrite replace_go_scan.
  destruct (startsWith _ _); [|discriminate].
  rewrite expand_plain_start by assumption. rewrite append_cons. discriminate.
Qed.

Lemma replace_all_plain_start pat repl s :
  plain_start s -> plain_start repl -> plain_start (replace_all pat repl s).
Proof.
  intros (c & r & -> & Hc) (c0 & r0 & -> & Hc0).
  unfold replace_all. rewrite replace_go_scan.
  destruct (startsWith _ _).
  - rewrite expand_plain_start by assumption. rewrite append_cons. now eexists _, _.
  - now eexists _, _.
Qed.

End TemplateFacts.

(** ** The responder and the monitor's per-email pipeline *)

Module ResponderFacts.
Import ResponderSpec.

Lemma sendReply_run env config l w r :
  heap w !! l = Some r ->
  exists res r' evs w',
    sendReply env config l w = (Ok res, w')
    /\ heap w' = <[l := r']> (heap w)
    /\ next_ref w' = next_ref w
    /\ pendingReplies w' = pendingReplies w
    /\ monitor w' = monitor w
    /\ trace w' = trace w ++ EvSendMail (smtp_user config) (reply_to r)
                                       (reply_subject r) (reply_body r) :: evs
    /\ forallb is_quiet evs = true
    /\ same_content r r'
    /\ ((smtp env (trace w) (smtp_user config) (reply_to r) (reply_subject r) (reply_body r) = None
         /\ reply_status r' = sent /\ success res = true)
        \/ (exists msg, smtp env (trace w) (smtp_user config) (reply_to r) (reply_subject r) (reply_body r) = Some msg
            /\ reply_status r' = failed /\ success res = false)).
Proof.
  intros H. unfold sendReply, sendReply_sent, sendReply_failed, bind, try_catch, deref,
    get_trace, emit, throw, modify, save_reply, new_Date, fresh_uuid, logActivity,
    emit, ret, bind, deref.
  rewrite H. simpl.
  destruct (smtp env (trace w) _ _ _ _) as [msg|] eqn:Hs; simpl; rewrite ?H; simpl;
    destruct (onReplySave config); simpl; rewrite ?lookup_insert_eq; simpl;
    rewrite ?lookup_insert_eq; simpl; rewrite ?insert_insert_eq.
  all: do 4 eexists; split; [reflexivity|]; simpl.
  all: split; [reflexivity|]; split; [reflexivity|]; split; [reflexivity|]; split; [reflexivity|].
  all: split; [rewrite <- !app_assoc; simpl; reflexivity|].
  all: split; [reflexivity|]; split; [repeat split|].
  all: try (right; eexists; repeat split; reflexivity).
  all: try (left; repeat split; reflexivity).
Qed.

Lemma markAsRead_run env emailId w :
  markAsRead env emailId w =
  (match flag_rejection (imap_flag env (trace w) emailId) with
   | None => Ok tt
   | Some msg => Throw (Error msg)
   end, with_trace (trace w ++ [EvMarkAsRead emailId]) w).
Proof.
  unfold markAsRead, bind, get_trace, emit, ret, throw. simpl.
  now destruct (flag_rejection _).
Qed.

Lemma processConfirmation_absent env config replyId approve w :
  pendingReplies w !! replyId = None ->
  processConfirmation env config replyId approve w
  = (Throw (Error (not_found_message replyId)), w).
Proof. intros H. unfold processConfirmation, bind, throw. now rewrite H. Qed.

Lemma processConfirmation_run env config replyId approve w l r :
  pendingReplies w !! replyId = Some l ->
  heap w !! l = Some r ->
  exists r' evs w',
    processConfirmation env config replyId approve w
    = (match flag_rejection (imap_flag env (trace w ++ evs) (reply_originalEmailId r)) with
       | None => Ok tt
       | Some msg => Throw (Error msg)
       end, w')
    /\ heap w' = <[l := r']> (heap w)
    /\ next_ref w' = next_ref w
    /\ monitor w' = monitor w
    /\ pendingReplies w' =
       match flag_rejection (imap_flag env (trace w ++ evs) (reply_originalEmailId r)) with
       | None => delete replyId (pendingReplies w)
       | Some _ => pendingReplies w
       end
    /\ trace w' = trace w ++ evs ++ [EvMarkAsRead (reply_originalEmailId r)]
    /\ forallb (fun e => negb (is_mark e)) evs = true
    /\ count_sends evs = (if approve then 1 else 0)
    /\ same_content r r'
    /\ (if approve then reply_status r' = sent \/ reply_status r' = failed
        else reply_status r' = rejected).
Proof.
  intros Hp Hh. unfold processConfirmation. unfold bind at 1. rewrite Hp.
  destruct approve.
  - unfold bind at 1. unfold bind at 1. unfold bind at 1.
    unfold modify at 1. rewrite Hh.
    set (w1 := with_heap _ w).
    assert (H1 : heap w1 !! l = Some (set_status approved r)) by apply lookup_insert_eq.
    destruct (sendReply_run env config l w1 _ H1)
      as (res & r' & evs & w2 & Hrun & Hheap & Hnext & Hpend & Hmon & Htr & Hq & Hsame & Hst).
    rewrite Hrun. unfold ret at 1. unfold bind at 1. unfold deref.
    rewrite Hheap, lookup_insert_eq. unfold bind. rewrite markAsRead_run.
    destruct Hsame as (Hid & Horig & Hto & Hsub & Hbody). simpl in *.
    rewrite Horig, Htr.
    set (ev := EvSendMail _ _ _ _) in *.
    exists r', (ev :: evs).
    exists (match flag_rejection (imap_flag env (trace w ++ ev :: evs) (reply_originalEmailId r)) with
            | None => with_pending (delete replyId (pendingReplies w2))
                        (with_trace ((trace w ++ ev :: evs) ++ [EvMarkAsRead (reply_originalEmailId r)]) w2)
            | Some _ => with_trace ((trace w ++ ev :: evs) ++ [EvMarkAsRead (reply_originalEmailId r)]) w2
            end).
    split; [destruct (flag_rejection _); reflexivity|].
    split; [destruct (flag_rejection _); simpl; rewrite Hheap; apply insert_insert_eq|].
    split; [destruct (flag_rejection _); simpl; exact Hnext|].
    split; [destruct (flag_rejection _); simpl; exact Hmon|].
    split; [destruct (flag_rejection _); simpl; [exact Hpend | now rewrite Hpend]|].
    split; [destruct (flag_rejection _); simpl; now rewrite <- app_assoc|].
    split. { simpl. clear -Hq. induction evs as [|e evs IH]; simpl in *; [reflexivity|].
             apply andb_true_iff in Hq as [Hq1 Hq2]. unfold is_quiet in Hq1.
             apply andb_true_iff in Hq1 as [_ ->]. simpl. auto. }
    split. { unfold count_sends. simpl. f_equal.
             clear -Hq. induction evs as [|e evs IH]; simpl in *; [reflexivity|].
             apply andb_true_iff in Hq as [Hq1 Hq2]. unfold is_quiet in Hq1.
             apply andb_true_iff in Hq1 as [Hs _]. apply negb_true_iff in Hs. rewrite Hs. auto. }
    split; [repeat split; assumption|].
    destruct Hst as [(_ & -> & _) | (msg & _ & -> & _)]; auto.
  - unfold bind at 1. unfold modify at 1. rewrite Hh.
    set (w1 := with_heap _ w).
    unfold bind at 1. unfold deref. simpl. rewrite lookup_insert_eq.
    unfold bind. rewrite markAsRead_run. simpl.
    exists (set_status rejected r), [].
    rewrite app_nil_r.
    exists (match flag_rejection (imap_flag env (trace w) (reply_originalEmailId r)) with
            | None => with_pending (delete replyId (pendingReplies w))
                        (with_trace (trace w ++ [EvMarkAsRead (reply_originalEmailId r)]) w1)
            | Some _ => with_trace (trace w ++ [EvMarkAsRead (reply_originalEmailId r)]) w1
            end).
    split; [destruct (flag_rejection _); reflexivity|].
    repeat split; try (destruct (flag_rejection _); reflexivity).
Qed.


Lemma generateReply_run env config email w :
  exists evs w',
    generateReply env config email w = (Ok (next_ref w), w')
    /\ heap w' = <[next_ref w := new_reply env config email w]> (heap w)
    /\ next_ref w' = S (next_ref w)
    /\ pendingReplies w' = pendingReplies w
    /\ monitor w' = monitor w
    /\ trace w' = trace w ++ evs
    /\ forallb is_quiet evs = true.
Proof.
  unfold generateReply, bind, fresh_uuid, new_Date, alloc, save_reply.
  destruct (onReplySave config); unfold bind, deref, emit, ret; simpl;
    rewrite ?lookup_insert_eq.
  - eexists [_], _. split; [reflexivity|]. repeat split.
  - eexists [], _. split; [reflexivity|]. simpl. rewrite app_nil_r. repeat split.
Qed.

Lemma forallb_quiet_app (a b : list Event) :
  forallb is_quiet a = true -> forallb is_quiet b = true ->
  forallb is_quiet (a ++ b) = true.
Proof. intros Ha Hb. rewrite forallb_app, Ha, Hb. reflexivity. Qed.

Lemma processEmail_auto_run env config mf email w :
  Filter.approved (Filter.shouldAutoReply mf email) = true ->
  manualConfirmation config = false ->
  exists r' pre mid post w',
    processEmail env config mf email w = (Ok tt, w')
    /\ heap w' = <[next_ref w := r']> (heap w)
    /\ pendingReplies w' = pendingReplies w
    /\ same_content (new_reply env config email w) r'
    /\ (reply_status r' = sent \/ reply_status r' = failed)
    /\ trace w' = trace w ++ pre
                   ++ [EvSendMail (smtp_user config) (email_from email)
                                  ("Re: " +:+ email_subject email)
                                  (renderTemplate config email)]
                   ++ mid ++ [EvMarkAsRead (email_id email)] ++ post
    /\ forallb is_quiet pre = true
    /\ forallb is_quiet mid = true
    /\ forallb is_quiet post = true.
Proof.
  intros Happ Hauto. unfold processEmail, try_catch. rewrite Happ.
  change (negb true) with false. cbv iota. unfold bind at 1.
  destruct (generateReply_run env config email w)
    as (pre & w1 & Hgen & Hheap1 & Hnext1 & Hpend1 & Hmon1 & Htr1 & Hq1).
  rewrite Hgen. unfold bind at 1. unfold deref.
  assert (H1 : heap w1 !! next_ref w = Some (new_reply env config email w))
    by (rewrite Hheap1; apply lookup_insert_eq).
  rewrite H1.
  assert (Hst0 : reply_status (new_reply env config email w) = approved)
    by (unfold new_reply; simpl; now rewrite Hauto).
  rewrite Hst0. cbv iota. unfold bind at 1.
  destruct (sendReply_run env config _ w1 _ H1)
    as (res & r' & mid & w2 & Hrun & Hheap2 & Hnext2 & Hpend2 & Hmon2 & Htr2 & Hq2 & Hsame & Hst).
  rewrite Hrun. rewrite markAsRead_run.
  assert (Hst' : reply_status r' = sent \/ reply_status r' = failed).
  { destruct Hst as [(_ & -> & _) | (msg & _ & -> & _)]; auto. }
  assert (Hh : <[next_ref w:=r']> (heap w1) = <[next_ref w:=r']> (heap w)).
  { rewrite Hheap1. apply insert_insert_eq. }
  simpl in Htr2.
  destruct (flag_rejection _) as [msg|].
  - unfold bind, fresh_uuid, new_Date, logActivity, emit. simpl.
    eexists r', pre, mid, [_], _. split; [reflexivity|]. simpl.
    split; [now rewrite Hheap2, Hh|].
    split; [now rewrite Hpend2, Hpend1|].
    split; [exact Hsame|]. split; [exact Hst'|].
    split.
    { rewrite Htr2, Htr1. rewrite <- ?app_assoc. simpl. rewrite <- ?app_assoc. reflexivity. }
    simpl. auto.
  - eexists r', pre, mid, [], _. split; [reflexivity|]. simpl.
    split; [now rewrite Hheap2, Hh|].
    split; [now rewrite Hpend2, Hpend1|].
    split; [exact Hsame|]. split; [exact Hst'|].
    split.
    { rewrite Htr2, Htr1. rewrite <- ?app_assoc. simpl. rewrite <- ?app_assoc. reflexivity. }
    simpl. auto.
Qed.
Lemma flag_rejection_not_NotFound (s : FlagSession) (msg replyId : string) :
  flag_rejection s = Some msg -> msg <> not_found_message replyId.
Proof.
  unfold not_found_message.
  destruct s; simpl; intros H; inversion H; subst; intros Heq; discriminate Heq.
Qed.

Lemma processConfirmation_dangling env config replyId approve w l :
  pendingReplies w !! replyId = Some l ->
  heap w !! l = None ->
  processConfirmation env config replyId approve w
  = (Throw (Error "TypeError: Cannot set properties of undefined"), w).
Proof.
  intros Hp Hh. unfold processConfirmation. unfold bind at 1. rewrite Hp.
  destruct approve; unfold bind, modify; now rewrite Hh.
Qed.





(** C1. Every reply that becomes terminal through the pipeline has
    [markAsRead] called on the id of its originating email. In auto mode
    [processEmail] sends the freshly generated reply, which thereby
    becomes [sent] or [failed], and calls [markAsRead] on the email's id
    afterwards, whichever way the send went. [processConfirmation] makes
    the queued reply [sent] or [failed] (approve) or [rejected] (reject)
    and then, in both branches, calls [markAsRead] once, as the last
    effect of the call; the entry leaves the pending map only after that
    call has succeeded and is still there when it fails. *)
Theorem C1_mark_read_on_terminal (env : Env) (config : AutoResponderConfig) :
  (forall mf email w,
      Filter.approved (Filter.shouldAutoReply mf email) = true ->
      manualConfirmation config = false ->
      exists r' pre mid post w',
        processEmail env config mf email w = (Ok tt, w')
        /\ heap w' !! next_ref w = Some r'
        /\ reply_originalEmailId r' = email_id email
        /\ (reply_status r' = sent \/ reply_status r' = failed)
        /\ trace w' = trace w ++ pre
                       ++ [EvSendMail (smtp_user config) (email_from email)
                                      ("Re: " +:+ email_subject email)
                                      (renderTemplate config email)]
                       ++ mid ++ [EvMarkAsRead (email_id email)] ++ post
        /\ forallb is_quiet (pre ++ mid ++ post) = true)
  /\ (forall replyId approve w l r,
        pendingReplies w !! replyId = Some l ->
        heap w !! l = Some r ->
        exists r' evs res w',
          processConfirmation env config replyId approve w = (res, w')
          /\ heap w' !! l = Some r'
          /\ reply_originalEmailId r' = reply_originalEmailId r
          /\ (if approve then reply_status r' = sent \/ reply_status r' = failed
              else reply_status r' = rejected)
          /\ trace w' = trace w ++ evs ++ [EvMarkAsRead (reply_originalEmailId r)]
          /\ forallb (fun e => negb (is_mark e)) evs = true
          /\ (res = Ok tt -> pendingReplies w' = delete replyId (pendingReplies w))
          /\ (res <> Ok tt -> pendingReplies w' = pendingReplies w)).
Proof.
  split.
  - intros mf email w Happ Hauto.
    destruct (processEmail_auto_run env config mf email w Happ Hauto)
      as (r' & pre & mid & post & w' & Hrun & Hheap & _ & Hsame & Hst & Htr & Hq1 & Hq2 & Hq3).
    exists r', pre, mid, post, w'. split; [exact Hrun|].
    split; [rewrite Hheap; apply lookup_insert_eq|].
    split; [apply Hsame|]. split; [exact Hst|]. split; [exact Htr|].
    now rewrite !forallb_app, Hq1, Hq2, Hq3.
  - intros replyId approve w l r Hp Hh.
    destruct (processConfirmation_run env config replyId approve w l r Hp Hh)
      as (r' & evs & w' & Hrun & Hheap & _ & _ & Hpend & Htr & Hnm & _ & Hsame & Hst).
    exists r', evs. eexists _, w'. split; [exact Hrun|].
    split; [rewrite Hheap; apply lookup_insert_eq|].
    split; [apply Hsame|]. split; [exact Hst|]. split; [exact Htr|].
    split; [exact Hnm|].
    destruct (flag_rejection _); split; intros H; try discriminate; try congruence.
Qed.

Lemma C1_mark_read_on_terminal_witness :
  (exists r' pre mid post w',
      processEmail Fixtures.env_ok Fixtures.config_auto Fixtures.filter_open
                   Fixtures.email1 Fixtures.world_empty = (Ok tt, w')
      /\ heap w' !! 0 = Some r'
      /\ reply_originalEmailId r' = "e1"
      /\ (reply_status r' = sent \/ reply_status r' = failed)
      /\ trace w' = [] ++ pre
                     ++ [EvSendMail "me@example.org" "a@b.com" "Re: Hi"
                           (renderTemplate Fixtures.config_auto Fixtures.email1)]
                     ++ mid ++ [EvMarkAsRead "e1"] ++ post
      /\ forallb is_quiet (pre ++ mid ++ post) = true)
  /\ (exists r' evs res w',
        processConfirmation Fixtures.env_flag_fails Fixtures.config_manual "r1" false
                            (Fixtures.world_queued pending) = (res, w')
        /\ heap w' !! 0 = Some r'
        /\ reply_originalEmailId r' = "e1"
        /\ reply_status r' = rejected
        /\ trace w' = [] ++ evs ++ [EvMarkAsRead "e1"]
        /\ forallb (fun e => negb (is_mark e)) evs = true
        /\ (res = Ok tt ->
            pendingReplies w' = delete "r1" (pendingReplies (Fixtures.world_queued pending)))
        /\ (res <> Ok tt ->
            pendingReplies w' = pendingReplies (Fixtures.world_queued pending))).
Proof.
  split.
  - apply (proj1 (C1_mark_read_on_terminal Fixtures.env_ok Fixtures.config_auto)
             Fixtures.filter_open Fixtures.email1 Fixtures.world_empty);
      reflexivity.
  - apply (proj2 (C1_mark_read_on_terminal Fixtures.env_flag_fails Fixtures.config_manual)
             "r1" false (Fixtures.world_queued pending) 0 (Fixtures.reply1 pending));
      vm_compute; reflexivity.
Defined.

(** A rejection after queuing: the reply ends [rejected], the email is
    marked read, the transport is never called and the queue is empty. *)
Example reject_after_queue :
  let run :=
    let! l := generateReply Fixtures.env_ok Fixtures.config_manual Fixtures.email1 in
    queueForConfirmation l ;;
    processConfirmation Fixtures.env_ok Fixtures.config_manual (Fixtures.uuid_of 0) false in
  exists w',
    run Fixtures.world_empty = (Ok tt, w')
    /\ reply_status <$> heap w' !! 0 = Some rejected
    /\ List.filter (fun e => negb (is_quiet e)) (trace w') = [EvMarkAsRead "e1"]
    /\ pendingReplies w' = ∅.
Proof. eexists. split; [vm_compute; reflexivity|]. repeat split; reflexivity. Qed.

(** *** Approvals that overlap

    The pending entry is removed at the end of [processConfirmation]. Cut
    at its first suspension point, the method is the sequence of its two
    halves; when a second approval of the same id starts between them, it
    still finds the entry, and the reply is handed to the transport twice. *)

Lemma approve_split env config replyId w :
  processConfirmation env config replyId true w
  = bind (approve_begin env config replyId) (approve_resume env config replyId) w.
Proof.
  unfold processConfirmation, approve_begin, approve_resume, sendReply,
    bind, try_catch, modify, deref, get_trace, emit, ret, throw.
  destruct (pendingReplies w !! replyId) as [l|]; [|reflexivity].
  destruct (heap w !! l) as [r|]; [|reflexivity]. simpl.
  rewrite !lookup_insert_eq. simpl.
  destruct (smtp env (trace w) _ _ _ _).
  - match goal with |- context [sendReply_failed ?a ?b ?c ?d ?e ?f] =>
      destruct (sendReply_failed a b c d e f) as [[res|err] w1] end; reflexivity.
  - match goal with |- context [sendReply_sent ?a ?b ?c ?d ?f] =>
      destruct (sendReply_sent a b c d f) as [[res|err] w1] end; [reflexivity|].
    match goal with |- context [sendReply_failed ?a ?b ?c ?d ?e ?f] =>
      destruct (sendReply_failed a b c d e f) as [[res|err'] w2] end; reflexivity.
Qed.

Remark overlapping_approvals_send_twice :
  exists w',
    overlapping_approvals Fixtures.env_ok Fixtures.config_manual "r1"
                          (Fixtures.world_queued pending) = (Ok tt, w')
    /\ count_sends (trace w') = 2
    /\ pendingReplies w' !! "r1" = None.
Proof. eexists. split; [vm_compute; reflexivity|]. split; reflexivity. Qed.

(** *** The store invariant *)

Lemma world_ok_empty : world_ok Fixtures.world_empty.
Proof.
  split.
  - intros k l H. simpl in H. rewrite lookup_empty in H. discriminate.
  - intros l _. simpl. apply lookup_empty.
Qed.

Lemma world_ok_same w w' :
  heap w' = heap w -> next_ref w' = next_ref w -> pendingReplies w' = pendingReplies w ->
  world_ok w -> world_ok w'.
Proof.
  intros Hh Hn Hp [Hwf Hfr]. split.
  - intros k l. rewrite Hp, Hh. apply Hwf.
  - intros l. rewrite Hn, Hh. apply Hfr.
Qed.

Lemma world_ok_update w w' l r r' :
  heap w !! l = Some r -> reply_id r' = reply_id r ->
  heap w' = <[l := r']> (heap w) -> next_ref w' = next_ref w ->
  pendingReplies w' = pendingReplies w ->
  world_ok w -> world_ok w'.
Proof.
  intros Hl Hid Hh Hn Hp [Hwf Hfr]. split.
  - intros k l0 Hk. rewrite Hp in Hk. destruct (Hwf k l0 Hk) as (r0 & Hr0 & Hid0).
    rewrite Hh. destruct (decide (l = l0)) as [<-|Hne].
    + exists r'. rewrite lookup_insert_eq. split; [reflexivity|]. congruence.
    + exists r0. now rewrite lookup_insert_ne.
  - intros l0 Hl0. rewrite Hn in Hl0. rewrite Hh.
    destruct (decide (l = l0)) as [<-|Hne].
    + rewrite (Hfr l Hl0) in Hl. discriminate.
    + rewrite lookup_insert_ne by assumption. now apply Hfr.
Qed.

Lemma keeps_ret {A} (a : A) : keeps_world_ok (ret a).
Proof. intros w H. exact H. Qed.

Lemma keeps_throw {A} (e : JsError) : keeps_world_ok (@throw A e).
Proof. intros w H. exact H. Qed.

Lemma keeps_bind {A B} (m : M A) (k : A -> M B) :
  keeps_world_ok m -> (forall a, keeps_world_ok (k a)) -> keeps_world_ok (bind m k).
Proof.
  intros Hm Hk w Hw. unfold bind. specialize (Hm w Hw).
  destruct (m w) as [[a|e] w']; simpl in *; [now apply Hk | exact Hm].
Qed.

Lemma keeps_try_catch {A} (m : M A) (h : JsError -> M A) :
  keeps_world_ok m -> (forall e, keeps_world_ok (h e)) -> keeps_world_ok (try_catch m h).
Proof.
  intros Hm Hh w Hw. unfold try_catch. specialize (Hm w Hw).
  destruct (m w) as [[a|e] w']; simpl in *; [exact Hm | now apply Hh].
Qed.

Lemma keeps_emit (e : Event) : keeps_world_ok (emit e).
Proof. intros w H. now apply (world_ok_same w). Qed.

Lemma keeps_fresh_uuid env : keeps_world_ok (fresh_uuid env).
Proof. intros w H. now apply (world_ok_same w). Qed.

Lemma keeps_new_Date env : keeps_world_ok (new_Date env).
Proof. intros w H. now apply (world_ok_same w). Qed.

Lemma keeps_logActivity log : keeps_world_ok (logActivity log).
Proof. apply keeps_emit. Qed.

Lemma keeps_markAsRead env emailId : keeps_world_ok (markAsRead env emailId).
Proof. intros w H. rewrite markAsRead_run. now apply (world_ok_same w). Qed.

Lemma keeps_deref l : keeps_world_ok (deref l).
Proof. intros w H. unfold deref. now destruct (heap w !! l). Qed.

Lemma keeps_generateReply env config email :
  keeps_world_ok (generateReply env config email).
Proof.
  intros w [Hwf Hfr].
  destruct (generateReply_run env config email w)
    as (evs & w' & Hrun & Hh & Hn & Hp & _).
  rewrite Hrun. simpl. split.
  - intros k l Hk. rewrite Hp in Hk. destruct (Hwf k l Hk) as (r & Hr & Hid).
    exists r. split; [|exact Hid]. rewrite Hh, lookup_insert_ne; [exact Hr|].
    intros <-. rewrite (Hfr (next_ref w)) in Hr by lia. discriminate.
  - intros l Hl. rewrite Hn in Hl. rewrite Hh, lookup_insert_ne by lia. apply Hfr. lia.
Qed.

Lemma keeps_sendReply env config l : keeps_world_ok (sendReply env config l).
Proof.
  intros w Hw. destruct (heap w !! l) as [r|] eqn:Hl.
  - destruct (sendReply_run env config l w r Hl)
      as (res & r' & evs & w' & Hrun & Hh & Hn & Hp & _ & _ & _ & Hsame & _).
    rewrite Hrun. simpl.
    exact (world_ok_update w w' l r r' Hl (proj1 Hsame) Hh Hn Hp Hw).
  - unfold sendReply, bind, deref. now rewrite Hl.
Qed.

Lemma queueForConfirmation_run l w r :
  heap w !! l = Some r ->
  queueForConfirmation l w =
  (Ok tt, with_pending (<[reply_id r := l]> (pendingReplies w))
            (with_heap (<[l := set_status pending r]> (heap w)) w)).
Proof.
  intros H. unfold queueForConfirmation, bind, modify, deref. rewrite H. simpl.
  now rewrite lookup_insert_eq.
Qed.

Lemma keeps_queueForConfirmation l : keeps_world_ok (queueForConfirmation l).
Proof.
  intros w [Hwf Hfr]. destruct (heap w !! l) as [r|] eqn:Hl.
  - rewrite (queueForConfirmation_run l w r Hl). simpl. split.
    + intros k l0. simpl. destruct (decide (reply_id r = k)) as [<-|Hne].
      * rewrite lookup_insert_eq. intros [= <-].
        exists (set_status pending r). now rewrite lookup_insert_eq.
      * rewrite lookup_insert_ne by assumption. intros Hk.
        destruct (Hwf k l0 Hk) as (r0 & Hr0 & Hid0).
        destruct (decide (l = l0)) as [<-|Hl0].
        -- exists (set_status pending r). rewrite lookup_insert_eq. split; [reflexivity|].
           simpl. congruence.
        -- exists r0. now rewrite lookup_insert_ne.
    + intros l0 Hl0. simpl in *. destruct (decide (l = l0)) as [<-|Hne].
      * rewrite (Hfr l Hl0) in Hl. discriminate.
      * rewrite lookup_insert_ne by assumption. now apply Hfr.
  - unfold queueForConfirmation, bind, modify. rewrite Hl. simpl. now split.
Qed.

Lemma keeps_processConfirmation env config replyId approve :
  keeps_world_ok (processConfirmation env config replyId approve).
Proof.
  intros w Hw. destruct (pendingReplies w !! replyId) as [l|] eqn:Hp.
  - destruct (heap w !! l) as [r|] eqn:Hl.
    + destruct (processConfirmation_run env config replyId approve w l r Hp Hl)
        as (r' & evs & w' & Hrun & Hh & Hn & _ & Hpend & _ & _ & _ & Hsame & _).
      rewrite Hrun. simpl.
      assert (Hmid : world_ok (with_heap (<[l := r']> (heap w)) w)).
      { apply (world_ok_update w (with_heap (<[l := r']> (heap w)) w) l r r');
          solve [assumption | reflexivity | apply Hsame]. }
      destruct Hmid as [Hwf Hfr]. split.
      * intros k l0 Hk. rewrite Hh. apply (Hwf k l0). simpl.
        rewrite Hpend in Hk. destruct (flag_rejection _); [exact Hk|].
        destruct (decide (replyId = k)) as [<-|Hne].
        -- rewrite lookup_delete_eq in Hk. discriminate.
        -- now rewrite lookup_delete_ne in Hk.
      * intros l0 Hl0. rewrite Hn in Hl0. rewrite Hh. now apply Hfr.
    + now rewrite (processConfirmation_dangling env config replyId approve w l Hp Hl).
  - now rewrite processConfirmation_absent.
Qed.

Ltac keeps_step :=
  first [ apply keeps_ret | apply keeps_throw | apply keeps_fresh_uuid
        | apply keeps_new_Date | apply keeps_logActivity | apply keeps_markAsRead
        | apply keeps_deref | apply keeps_generateReply | apply keeps_sendReply
        | apply keeps_queueForConfirmation
        | apply keeps_bind; [|intros ?]
        | apply keeps_try_catch; [|intros ?] ].

Lemma keeps_processEmail env config mf email :
  keeps_world_ok (processEmail env config mf email).
Proof.
  unfold processEmail. apply keeps_try_catch; [|intros e; repeat keeps_step].
  destruct (negb _); [repeat keeps_step|].
  apply keeps_bind; [apply keeps_generateReply|]. intros l.
  apply keeps_bind; [apply keeps_deref|]. intros reply.
  destruct (reply_status reply); repeat keeps_step.
Qed.

(** *** Terminal statuses *)

Lemma pending_wf_queued (st : ReplyStatus) : pending_wf (Fixtures.world_queued st).
Proof.
  intros k l H. simpl in H. apply lookup_singleton_Some in H as [<- <-].
  exists (Fixtures.reply1 st). split; reflexivity.
Qed.

(** C7 as stated fails for each of the three operations:
    [queueForConfirmation] turns a [sent] reply back to [pending];
    [sendReply] turns a [failed] reply into [sent]; and
    [processConfirmation] turns into [sent] a [rejected] reply that is
    still queued because the flag update failed when it was rejected.
    It also fails for a reply that is [sent] and out of the pending map,
    when another approval of it was already waiting for the transport:
    on resuming, that approval writes [failed] over [sent]. *)
Lemma C7_counterexample :
  ~ keeps_terminal_status (queueForConfirmation 0)
  /\ ~ keeps_terminal_status (sendReply Fixtures.env_ok Fixtures.config_manual 0)
  /\ ~ keeps_terminal_status
         (processConfirmation Fixtures.env_ok Fixtures.config_manual "r1" true)
  /\ (exists first second w1 w2 w3,
        approve_begin Fixtures.env_smtp_once Fixtures.config_manual "r1"
                      (Fixtures.world_queued pending) = (Ok first, w1)
        /\ approve_begin Fixtures.env_smtp_once Fixtures.config_manual "r1" w1
           = (Ok second, w2)
        /\ approve_resume Fixtures.env_smtp_once Fixtures.config_manual "r1" first w2
           = (Ok tt, w3)
        /\ reply_status <$> heap w3 !! 0 = Some sent
        /\ pendingReplies w3 !! "r1" = None
        /\ reply_status
             <$> heap (snd (approve_resume Fixtures.env_smtp_once Fixtures.config_manual
                              "r1" second w3)) !! 0
           = Some failed).
Proof.
  split; [|split; [|split]]; try intros H.
  - specialize (H (Fixtures.world_held sent) 0 (Fixtures.reply1 sent)
                  (Fixtures.reply1 pending) eq_refl eq_refl eq_refl).
    discriminate H.
  - specialize (H (Fixtures.world_held failed) 0 (Fixtures.reply1 failed)
                  (set_sentAt 1 (Fixtures.reply1 sent)) eq_refl eq_refl eq_refl).
    discriminate H.
  - specialize (H (snd (processConfirmation Fixtures.env_flag_fails Fixtures.config_manual
                          "r1" false (Fixtures.world_queued pending)))
                  0 (Fixtures.reply1 rejected)
                  (set_sentAt 1 (Fixtures.reply1 sent)) eq_refl eq_refl eq_refl).
    discriminate H.
  - eexists _, _, _, _, _. split; [vm_compute; reflexivity|].
    split; [vm_compute; reflexivity|]. split; [vm_compute; reflexivity|].
    split; [reflexivity|]. split; reflexivity.
Qed.

(** *** Reply generation *)

(** C5 (as amended). For every email and template, [generateReply]
    returns a new reply whose [originalEmailId] is the email's id, whose
    [to] is the email's [from] (so non-empty when [from] is), whose
    subject is "Re: " followed by the original subject and is never
    empty, and whose body is the rendered template. The body equals the
    template when the template has no placeholder, and is non-empty when
    the template is non-empty and [from], [subject] and [body] of the
    email are non-empty and do not begin with a dollar sign. *)
Theorem C5_generateReply (env : Env) (config : AutoResponderConfig)
        (email : Email) (w : World) :
  exists w' r,
    generateReply env config email w = (Ok (next_ref w), w')
    /\ heap w' !! next_ref w = Some r
    /\ reply_originalEmailId r = email_id email
    /\ reply_to r = email_from email
    /\ reply_subject r = "Re: " +:+ email_subject email
    /\ reply_subject r <> ""
    /\ reply_body r = renderTemplate config email
    /\ reply_status r = (if manualConfirmation config then pending else approved)
    /\ (email_from email <> "" -> reply_to r <> "")
    /\ (placeholder_free (replyTemplate config) -> reply_body r = replyTemplate config)
    /\ (replyTemplate config <> "" ->
        plain_start (email_from email) -> plain_start (email_subject email) ->
        plain_start (email_body email) ->
        reply_body r <> "").
Proof.
  destruct (generateReply_run env config email w) as (evs & w' & Hrun & Hh & _).
  exists w', (new_reply env config email w). split; [exact Hrun|].
  split; [rewrite Hh; apply lookup_insert_eq|]. simpl.
  repeat (split; [reflexivity|]).
  split; [discriminate|]. repeat (split; [reflexivity|]).
  split; [auto|]. split.
  - intros (H1 & H2 & H3). unfold renderTemplate.
    rewrite (TemplateFacts.replace_all_no_match "{sender}") by assumption.
    rewrite (TemplateFacts.replace_all_no_match "{subject}") by assumption.
    now rewrite (TemplateFacts.replace_all_no_match "{body}") by assumption.
  - intros Ht Hf Hs Hb. unfold renderTemplate.
    repeat (apply TemplateFacts.replace_all_nonempty; [|assumption]).
    exact Ht.
Qed.

Lemma C5_generateReply_witness :
  exists w' r,
    generateReply Fixtures.env_ok Fixtures.config_auto Fixtures.email1
                  Fixtures.world_empty = (Ok 0, w')
    /\ heap w' !! 0 = Some r
    /\ reply_originalEmailId r = "e1"
    /\ reply_to r = "a@b.com"
    /\ reply_subject r = "Re: Hi"
    /\ reply_body r = "Thanks, Hi"
    /\ reply_body r <> "".
Proof.
  destruct (C5_generateReply Fixtures.env_ok Fixtures.config_auto Fixtures.email1
              Fixtures.world_empty)
    as (w' & r & Hrun & Hh & Ho & Ht & Hs & _ & Hb & _ & _ & _ & Hne).
  exists w', r. split; [exact Hrun|]. split; [exact Hh|]. split; [exact Ho|].
  split; [exact Ht|]. split; [exact Hs|]. split; [exact Hb|].
  apply Hne.
  - discriminate.
  - exists "a"%char, "@b.com". split; [reflexivity | discriminate].
  - exists "H"%char, "i". split; [reflexivity | discriminate].
  - exists "H"%char, "ello there". split; [reflexivity | discriminate].
Defined.

(** C5 as stated fails: with the template "{body}" an email with an
    empty body gets a reply with an empty body, and an email with an
    empty [from] gets a reply with an empty [to]. *)
Lemma C5_counterexample :
  let config := mkAutoResponderConfig "me@example.org" "{body}" false false in
  (exists w' r,
      generateReply Fixtures.env_ok config
        (mkEmail "e1" "a@b.com" "me@example.org" "Hi" "" 0 false)
        Fixtures.world_empty = (Ok 0, w')
      /\ heap w' !! 0 = Some r /\ reply_body r = "")
  /\ (exists w' r,
        generateReply Fixtures.env_ok config
          (mkEmail "e1" "" "me@example.org" "Hi" "text" 0 false)
          Fixtures.world_empty = (Ok 0, w')
        /\ heap w' !! 0 = Some r /\ reply_to r = "").
Proof.
  intros config. split; eexists _, _; (split; [vm_compute; reflexivity|]);
    split; reflexivity.
Qed.

End ResponderFacts.

(** ** The monitor *)

Module MonitorFacts.
Import MonitorSpec ResponderSpec JsStringFacts.

Lemma only_ticks_refl w : only_ticks w w.
Proof. now destruct w. Qed.

Lemma only_ticks_trans w1 w2 w3 :
  only_ticks w1 w2 -> only_ticks w2 w3 -> only_ticks w1 w3.
Proof. unfold only_ticks. intros H12 H23. rewrite H23, H12. reflexivity. Qed.

Lemma only_ticks_new_Date env w :
  new_Date env w = (Ok (now env (ticks w)), with_ticks (S (ticks w)) w).
Proof. reflexivity. Qed.

Lemma on_msg_event_run env emails v ev w :
  exists emails' v' w',
    on_msg_event env emails v ev w = (Ok (emails', v'), w')
    /\ only_ticks w w'
    /\ (Forall identified emails -> Forall identified emails').
Proof.
  destruct ev as [attrs|chunks|]; simpl.
  - destruct (envelope attrs) as [e|].
    + destruct (envelope_date e) as [d|]; unfold bind, ret, new_Date; simpl;
        eexists _, _, _; (split; [reflexivity|]); split; auto; now destruct w.
    + eexists _, _, _. split; [reflexivity|]. split; auto. apply only_ticks_refl.
  - eexists _, _, _. split; [reflexivity|]. split; auto. apply only_ticks_refl.
  - destruct (v_ended v).
    + eexists _, _, _. split; [reflexivity|]. split; auto. apply only_ticks_refl.
    + destruct (negb (is_empty (v_uid v)) && negb (is_empty (v_from v))) eqn:Hg;
        eexists _, _, _; (split; [reflexivity|]); split;
        auto using only_ticks_refl.
      intros H. apply Forall_app. split; [exact H|]. constructor; [|constructor].
      apply andb_true_iff in Hg as [Hu Hf].
      apply negb_true_iff in Hu, Hf. apply is_empty_false in Hu, Hf. now split.
Qed.

Lemma on_msg_events_run env evs : forall emails v w,
  exists emails' w',
    on_msg_events env emails v evs w = (Ok emails', w')
    /\ only_ticks w w'
    /\ (Forall identified emails -> Forall identified emails').
Proof.
  induction evs as [|ev evs IH]; intros emails v w; simpl.
  - eexists _, _. split; [reflexivity|]. split; auto using only_ticks_refl.
  - destruct (on_msg_event_run env emails v ev w) as (e1 & v1 & w1 & Hrun & Ht & Hid).
    unfold bind. rewrite Hrun.
    destruct (IH e1 v1 w1) as (e2 & w2 & Hrun2 & Ht2 & Hid2).
    exists e2, w2. split; [exact Hrun2|]. split; [eapply only_ticks_trans; eauto | auto].
Qed.

Lemma on_messages_run env msgs : forall emails w,
  exists emails' w',
    on_messages env emails msgs w = (Ok emails', w')
    /\ only_ticks w w'
    /\ (Forall identified emails -> Forall identified emails').
Proof.
  induction msgs as [|msg msgs IH]; intros emails w; simpl.
  - eexists _, _. split; [reflexivity|]. split; auto using only_ticks_refl.
  - unfold bind, on_message, bind. rewrite only_ticks_new_Date.
    destruct (on_msg_events_run env msg emails
                (mkMsgVars "" "" "" "" "" (now env (ticks w)) false)
                (with_ticks (S (ticks w)) w)) as (e1 & w1 & Hrun & Ht & Hid).
    rewrite Hrun.
    destruct (IH e1 w1) as (e2 & w2 & Hrun2 & Ht2 & Hid2).
    exists e2, w2. split; [exact Hrun2|]. split; [|auto].
    eapply only_ticks_trans; [|exact Ht2]. eapply only_ticks_trans; [|exact Ht].
    now destruct w.
Qed.

(** What [checkInbox] does guarantee: every email it returns has a
    non-empty id and a non-empty sender. *)
Lemma checkInbox_identified env session w emails w' :
  checkInbox env session w = (Ok emails, w') -> Forall identified emails.
Proof.
  destruct session as [err|msg|msg|msg| |msgs|msgs msg]; simpl; try discriminate.
  - intros [= <- _]. constructor.
  - destruct (on_messages_run env msgs [] w) as (e & w1 & Hrun & _ & Hid).
    rewrite Hrun. intros [= <- _]. apply Hid. constructor.
  - unfold bind. destruct (on_messages_run env msgs [] w) as (e & w1 & Hrun & _).
    rewrite Hrun. discriminate.
Qed.

(** C6 fails on a message whose envelope has no recipient: [checkInbox]
    returns it with an empty [to], since the guard of the 'end' handler
    tests the uid and the sender only. *)
Theorem C6_checkInbox_returns_empty_to :
  exists w',
    checkInbox Fixtures.env_ok (FetchEnds [Fixtures.msg_without_to])
               Fixtures.world_empty
    = (Ok [mkEmail "7" "alice@example.com" "" "Hi" "Hello" 5 false], w')
    /\ ~ complete (mkEmail "7" "alice@example.com" "" "Hi" "Hello" 5 false).
Proof.
  eexists. split; [vm_compute; reflexivity|].
  intros (_ & _ & Hto). now apply Hto.
Qed.

(** *** The monitor's fields and exceptions along the pipeline *)

Lemma km_ret {A} (a : A) : keeps_monitor (ret a).
Proof. intros w. reflexivity. Qed.

Lemma km_throw {A} (e : JsError) : keeps_monitor (@throw A e).
Proof. intros w. reflexivity. Qed.

Lemma km_bind {A B} (m : M A) (k : A -> M B) :
  keeps_monitor m -> (forall a, keeps_monitor (k a)) -> keeps_monitor (bind m k).
Proof.
  intros Hm Hk w. unfold bind. specialize (Hm w).
  destruct (m w) as [[a|e] w']; simpl in *; [now rewrite Hk | exact Hm].
Qed.

Lemma km_try_catch {A} (m : M A) (h : JsError -> M A) :
  keeps_monitor m -> (forall e, keeps_monitor (h e)) -> keeps_monitor (try_catch m h).
Proof.
  intros Hm Hh w. unfold try_catch. specialize (Hm w).
  destruct (m w) as [[a|e] w']; simpl in *; [exact Hm | now rewrite Hh].
Qed.

Lemma km_emit e : keeps_monitor (emit e).
Proof. intros w. reflexivity. Qed.

Lemma km_fresh_uuid env : keeps_monitor (fresh_uuid env).
Proof. intros w. reflexivity. Qed.

Lemma km_new_Date env : keeps_monitor (new_Date env).
Proof. intros w. reflexivity. Qed.

Lemma km_deref l : keeps_monitor (deref l).
Proof. intros w. unfold deref. now destruct (heap w !! l). Qed.

Lemma km_markAsRead env emailId : keeps_monitor (markAsRead env emailId).
Proof. intros w. now rewrite ResponderFacts.markAsRead_run. Qed.

Lemma km_generateReply env config email : keeps_monitor (generateReply env config email).
Proof.
  intros w. destruct (ResponderFacts.generateReply_run env config email w)
    as (evs & w' & Hrun & _ & _ & _ & Hmon & _).
  now rewrite Hrun.
Qed.

Lemma km_sendReply env config l : keeps_monitor (sendReply env config l).
Proof.
  intros w. destruct (heap w !! l) as [r|] eqn:Hl.
  - destruct (ResponderFacts.sendReply_run env config l w r Hl)
      as (res & r' & evs & w' & Hrun & _ & _ & _ & Hmon & _).
    now rewrite Hrun.
  - unfold sendReply, bind, deref. now rewrite Hl.
Qed.

Lemma km_queueForConfirmation l : keeps_monitor (queueForConfirmation l).
Proof.
  intros w. destruct (heap w !! l) as [r|] eqn:Hl.
  - now rewrite (ResponderFacts.queueForConfirmation_run l w r Hl).
  - unfold queueForConfirmation, bind, modify. now rewrite Hl.
Qed.

Ltac km_step :=
  first [ apply km_ret | apply km_throw | apply km_fresh_uuid | apply km_new_Date
        | apply km_emit | apply km_markAsRead | apply km_deref
        | apply km_generateReply | apply km_sendReply | apply km_queueForConfirmation
        | apply km_bind; [|intros ?]
        | apply km_try_catch; [|intros ?] ].

Lemma total_ret {A} (a : A) : total (ret a).
Proof. intros w. now exists a, w. Qed.

Lemma total_bind {A B} (m : M A) (k : A -> M B) :
  total m -> (forall a, total (k a)) -> total (bind m k).
Proof.
  intros Hm Hk w. unfold bind. destruct (Hm w) as (a & w' & ->). apply Hk.
Qed.

Lemma total_try_catch {A} (m : M A) (h : JsError -> M A) :
  (forall e, total (h e)) -> total (try_catch m h).
Proof.
  intros Hh w. unfold try_catch. destruct (m w) as [[a|e] w'].
  - now exists a, w'.
  - apply Hh.
Qed.

Lemma total_emit e : total (emit e).
Proof. intros w. now eexists _, _. Qed.

Lemma total_fresh_uuid env : total (fresh_uuid env).
Proof. intros w. now eexists _, _. Qed.

Lemma total_new_Date env : total (new_Date env).
Proof. intros w. now eexists _, _. Qed.

(** [processEmail] never throws, and leaves the monitor's fields alone. *)
Lemma processEmail_total env config mf email : total (processEmail env config mf email).
Proof.
  unfold processEmail. apply total_try_catch. intros e.
  repeat first [ apply total_fresh_uuid | apply total_new_Date | apply total_emit
               | apply total_bind; [|intros ?] ].
Qed.

Lemma km_processEmail env config mf email :
  keeps_monitor (processEmail env config mf email).
Proof.
  unfold processEmail, logActivity. apply km_try_catch; [|intros e; repeat km_step].
  destruct (negb _); [repeat km_step|].
  apply km_bind; [apply km_generateReply|]. intros l.
  apply km_bind; [apply km_deref|]. intros reply.
  destruct (reply_status reply); repeat km_step.
Qed.

Lemma process_emails_run env config mf emails : forall w,
  exists w', process_emails env config mf emails w = (Ok tt, w')
             /\ monitor w' = monitor w.
Proof.
  induction emails as [|email rest IH]; intros w; simpl.
  - now exists w.
  - unfold bind at 1. unfold get_monitor. destruct (shouldStop (monitor w)).
    + now exists w.
    + unfold bind. destruct (processEmail_total env config mf email w) as ([] & w1 & Hrun).
      pose proof (km_processEmail env config mf email w) as Hm. rewrite Hrun in *.
      simpl in Hm. destruct (IH w1) as (w2 & Hrun2 & Hm2).
      exists w2. split; [exact Hrun2 | congruence].
Qed.

(** *** Poll cycles *)

Lemma checkInbox_fails env session w :
  fails session = true ->
  exists msg w', checkInbox env session w = (Throw (Error msg), w') /\ only_ticks w w'.
Proof.
  destruct session as [err|msg|msg|msg| |msgs|msgs msg]; simpl; try discriminate; intros _;
    try (eexists _, _; split; [reflexivity | apply only_ticks_refl]).
  unfold bind. destruct (on_messages_run env msgs [] w) as (e & w1 & Hrun & Ht & _).
  rewrite Hrun. eexists _, _. split; [reflexivity | exact Ht].
Qed.

Lemma checkInbox_succeeds env session w :
  fails session = false ->
  exists emails w', checkInbox env session w = (Ok emails, w') /\ only_ticks w w'.
Proof.
  destruct session as [err|msg|msg|msg| |msgs|msgs msg]; simpl; try discriminate; intros _.
  - eexists _, _. split; [reflexivity | apply only_ticks_refl].
  - destruct (on_messages_run env msgs [] w) as (e & w1 & Hrun & Ht & _).
    eexists _, _. split; [exact Hrun | exact Ht].
Qed.

Lemma attempt_details (k : nat) (msg : string) :
  "Failed to check inbox (attempt " +:+ String_of_nat k +:+ "/"
    +:+ String_of_nat MAX_CONSECUTIVE_FAILURES +:+ "): " +:+ msg
  = attempt_prefix k +:+ msg.
Proof. unfold attempt_prefix. rewrite !append_assoc. reflexivity. Qed.

Lemma max_details :
  "Maximum consecutive failures reached (" +:+ String_of_nat MAX_CONSECUTIVE_FAILURES
    +:+ "). Connection issues detected."
  = "Maximum consecutive failures reached (5). Connection issues detected.".
Proof. reflexivity. Qed.

Lemma pollInbox_failure env config mf session w :
  isProcessing (monitor w) = false ->
  shouldStop (monitor w) = false ->
  fails session = true ->
  exists evs w',
    pollInbox env config mf session w = (Ok tt, w')
    /\ monitor w' = mkMonitorState (isRunning (monitor w)) false false
                                   (S (consecutiveFailures (monitor w)))
                                   (intervalId (monitor w))
    /\ trace w' = trace w ++ evs
    /\ cycle_logs (S (consecutiveFailures (monitor w))) evs.
Proof.
  intros Hp Hs Hf. unfold pollInbox. unfold bind at 1. unfold get_monitor.
  rewrite Hp, Hs. change (false || false) with false. cbv iota.
  unfold bind at 1. unfold set_isProcessing at 1. cbv beta zeta.
  set (w0 := with_monitor _ w).
  destruct (checkInbox_fails env session w0 Hf) as (msg & w1 & Hc & Ht).
  unfold try_finally, try_catch. unfold bind at 1. rewrite Hc.
  rewrite Ht. unfold bind, get_monitor, set_consecutiveFailures, fresh_uuid, new_Date,
    logActivity, emit, ret, set_isProcessing. cbn -[String_of_nat Nat.leb].
  rewrite Hs, attempt_details.
  destruct (MAX_CONSECUTIVE_FAILURES <=? S (consecutiveFailures (monitor w)))%nat eqn:Hmax;
    cbn -[String_of_nat Nat.leb].
  - apply Nat.leb_le in Hmax. unfold MAX_CONSECUTIVE_FAILURES in Hmax.
    rewrite max_details.
    eexists [_; _], _. split; [reflexivity|]. simpl. split; [reflexivity|].
    split; [now rewrite <- app_assoc|]. right. split; [exact Hmax|].
    eexists _, _. split; [reflexivity|]. split.
    + eexists _, _, _. reflexivity.
    + eexists _, _. reflexivity.
  - apply Nat.leb_gt in Hmax. unfold MAX_CONSECUTIVE_FAILURES in Hmax.
    eexists [_], _. split; [reflexivity|]. simpl. split; [reflexivity|].
    split; [reflexivity|]. left. split; [exact Hmax|].
    eexists. split; [reflexivity|]. eexists _, _, _. reflexivity.
Qed.

Lemma pollInbox_success env config mf session w :
  isProcessing (monitor w) = false ->
  shouldStop (monitor w) = false ->
  fails session = false ->
  exists w',
    pollInbox env config mf session w = (Ok tt, w')
    /\ monitor w' = mkMonitorState (isRunning (monitor w)) false false 0
                                   (intervalId (monitor w)).
Proof.
  intros Hp Hs Hf. unfold pollInbox. unfold bind at 1. unfold get_monitor.
  rewrite Hp, Hs. change (false || false) with false. cbv iota.
  unfold bind at 1. unfold set_isProcessing at 1. cbv beta zeta.
  set (w0 := with_monitor _ w).
  destruct (checkInbox_succeeds env session w0 Hf) as (emails & w1 & Hc & Ht).
  unfold try_finally, try_catch. unfold bind at 1. rewrite Hc.
  unfold bind at 1. unfold set_consecutiveFailures at 1. cbv beta zeta.
  set (w2 := with_monitor _ w1).
  destruct (process_emails_run env config mf emails w2) as (w3 & Hrun & Hm).
  rewrite Hrun. unfold set_isProcessing. simpl.
  eexists. split; [reflexivity|]. simpl. rewrite Hm. unfold w2. simpl.
  rewrite Ht. simpl. now rewrite Hs.
Qed.

Lemma poll_cycles_failures env config mf sessions : forall w,
  isProcessing (monitor w) = false ->
  shouldStop (monitor w) = false ->
  Forall (fun s => fails s = true) sessions ->
  exists evs w',
    poll_cycles env config mf sessions w = (Ok tt, w')
    /\ monitor w' = mkMonitorState (isRunning (monitor w)) false false
                                   (consecutiveFailures (monitor w) + length sessions)
                                   (intervalId (monitor w))
    /\ trace w' = trace w ++ evs
    /\ failure_logs (consecutiveFailures (monitor w)) (length sessions) evs.
Proof.
  induction sessions as [|s rest IH]; intros w Hp Hs Hall.
  - exists [], w. simpl. split; [reflexivity|]. split.
    + rewrite Nat.add_0_r. destruct (monitor w); simpl in *. now subst.
    + split; [now rewrite app_nil_r | reflexivity].
  - inversion Hall as [|? ? Hf Hrest]; subst.
    destruct (pollInbox_failure env config mf s w Hp Hs Hf)
      as (e1 & w1 & Hrun & Hm & Htr & Hlogs).
    assert (Hp1 : isProcessing (monitor w1) = false) by now rewrite Hm.
    assert (Hs1 : shouldStop (monitor w1) = false) by now rewrite Hm.
    destruct (IH w1 Hp1 Hs1 Hrest) as (e2 & w2 & Hrun2 & Hm2 & Htr2 & Hlogs2).
    exists (e1 ++ e2), w2. simpl. unfold bind. rewrite Hrun. split; [exact Hrun2|].
    rewrite Hm in Hm2, Hlogs2. simpl in Hm2, Hlogs2. split.
    + rewrite Hm2. f_equal. lia.
    + split; [now rewrite Htr2, Htr, app_assoc|].
      exists e1, e2. auto.
Qed.

Lemma rejects_fails env s : rejects env s -> fails s = true.
Proof.
  intros Hrej. destruct (fails s) eqn:Hf; [reflexivity|].
  destruct (Hrej Fixtures.world_empty) as (e & w' & Hthrow).
  destruct (checkInbox_succeeds env s Fixtures.world_empty Hf) as (emails & w'' & Hok & _).
  congruence.
Qed.

Lemma resolves_not_fails env s : resolves env s -> fails s = false.
Proof.
  intros Hres. destruct (fails s) eqn:Hf; [|reflexivity].
  destruct (Hres Fixtures.world_empty) as (emails & w' & Hok).
  destruct (checkInbox_fails env s Fixtures.world_empty Hf) as (msg & w'' & Hthrow & _).
  congruence.
Qed.

(** C9. When [checkInbox] fails on [n] poll cycles in a row and then
    succeeds, starting from a counter at zero: no cycle throws and the
    monitor stays running; the [k]-th failed cycle logs one [error]
    entry that names attempt [k] of 5, followed, from the fifth failure
    on, by the distinguished maximum-consecutive-failures entry; the
    counter stands at [n] after the failures and is back at zero after
    the successful cycle. *)
Theorem C9_retry_on_failure (env : Env) (config : AutoResponderConfig)
        (mf : Filter.MessageFilter) (failing : list ImapSession)
        (succeeding : ImapSession) (w : World) :
  Forall (rejects env) failing ->
  resolves env succeeding ->
  isProcessing (monitor w) = false ->
  shouldStop (monitor w) = false ->
  consecutiveFailures (monitor w) = 0 ->
  exists evs w1 w2,
    poll_cycles env config mf failing w = (Ok tt, w1)
    /\ monitor w1 = mkMonitorState (isRunning (monitor w)) false false
                                   (length failing) (intervalId (monitor w))
    /\ trace w1 = trace w ++ evs
    /\ failure_logs 0 (length failing) evs
    /\ pollInbox env config mf succeeding w1 = (Ok tt, w2)
    /\ monitor w2 = mkMonitorState (isRunning (monitor w)) false false 0
                                   (intervalId (monitor w)).
Proof.
  intros Hall Hok Hp Hs Hc.
  assert (Hall' : Forall (fun s => fails s = true) failing).
  { eapply Forall_impl; [exact Hall|]. intros s. apply rejects_fails. }
  apply resolves_not_fails in Hok.
  destruct (poll_cycles_failures env config mf failing w Hp Hs Hall')
    as (evs & w1 & Hrun & Hm & Htr & Hlogs).
  rewrite Hc in Hm, Hlogs. simpl in Hm.
  assert (Hp1 : isProcessing (monitor w1) = false) by now rewrite Hm.
  assert (Hs1 : shouldStop (monitor w1) = false) by now rewrite Hm.
  destruct (pollInbox_success env config mf succeeding w1 Hp1 Hs1 Hok) as (w2 & Hrun2 & Hm2).
  exists evs, w1, w2. rewrite Hm in Hm2. simpl in Hm2. auto 10.
Qed.

Lemma C9_retry_on_failure_witness :
  let failing := repeat (ConnectionError "ECONNREFUSED") 6 in
  exists evs w1 w2,
    poll_cycles Fixtures.env_ok Fixtures.config_auto Fixtures.filter_open failing
                Fixtures.world_empty = (Ok tt, w1)
    /\ monitor w1 = mkMonitorState true false false 6 true
    /\ trace w1 = [] ++ evs
    /\ failure_logs 0 6 evs
    /\ pollInbox Fixtures.env_ok Fixtures.config_auto Fixtures.filter_open SearchEmpty w1
       = (Ok tt, w2)
    /\ monitor w2 = mkMonitorState true false false 0 true.
Proof.
  intros failing.
  apply (C9_retry_on_failure Fixtures.env_ok Fixtures.config_auto Fixtures.filter_open
           failing SearchEmpty Fixtures.world_empty).
  - repeat constructor; intros w; eexists _, _; reflexivity.
  - intros w. eexists _, _. reflexivity.
  - reflexivity.
  - reflexivity.
  - reflexivity.
Defined.

End MonitorFacts.

(** ** The configuration manager *)

Module ConfigFacts.
Import ConfigManager ConfigSpec.

Section Notify.
Context {S : Type}.
Implicit Types (m : Manager S) (ls : list (ConfigListener S)).

Lemma notify_from_run ls config : forall i m,
  listeners (notify_from i ls config m) = listeners m
  /\ currentConfig (notify_from i ls config m) = currentConfig m
  /\ calls (notify_from i ls config m)
     = calls m ++ calls_in_order i (length ls) config
  /\ app (notify_from i ls config m) = after_all ls config (app m)
  /\ console (notify_from i ls config m)
     = console m ++ console_lines ls config (app m).
Proof.
  induction ls as [|l rest IH]; intros i m.
  - simpl. unfold calls_in_order. simpl. now rewrite !app_nil_r.
  - simpl. destruct (l config (app m)) as [s' [err|]] eqn:Hl; simpl;
      match goal with |- context [notify_from _ rest config ?m2] =>
        destruct (IH (Datatypes.S i) m2) as (H1 & H2 & H3 & H4 & H5)
      end;
      rewrite H1, H2, H3, H4, H5; simpl; unfold calls_in_order; simpl;
      rewrite <- !app_assoc; auto.
Qed.

Lemma subscribe_all_run ls : forall m,
  listeners (subscribe_all ls m) = listeners m ++ ls
  /\ currentConfig (subscribe_all ls m) = currentConfig m
  /\ app (subscribe_all ls m) = app m
  /\ calls (subscribe_all ls m) = calls m
  /\ console (subscribe_all ls m) = console m.
Proof.
  induction ls as [|l ls IH]; intros m; simpl.
  - now rewrite app_nil_r.
  - destruct (IH (subscribe l m)) as (H1 & H2 & H3 & H4 & H5).
    rewrite H1, H2, H3, H4, H5. simpl. now rewrite <- app_assoc.
Qed.

(** C10. [subscribe] registers: it appends the listener to those already
    there and does nothing else. During an update every listener
    registered so far is called, in the order of the [subscribe] calls
    and with the new configuration, each on the state its predecessor
    left, whether or not an earlier one threw; a thrown exception only
    adds a console line; and [updateConfig] resolves whenever validation,
    the read of the current configuration and the database write
    succeed, whatever the listeners do. *)
Theorem C10_listeners_all_notified (db : Db) (updates : ConfigUpdate)
        (ls : list (ConfigListener S)) (m0 m1 : Manager S) (current : Config) :
  dbReady db = None ->
  validateConfig updates = None ->
  getConfig db (subscribe_all ls m0) = (inl current, m1) ->
  db_run db = RunOk ->
  let registered := listeners m0 ++ ls in
  let new := merge current updates in
  listeners (subscribe_all ls m0) = registered
  /\ app (subscribe_all ls m0) = app m0
  /\ calls (subscribe_all ls m0) = calls m0
  /\ exists m',
       updateConfig db updates (subscribe_all ls m0) = (inl tt, m')
       /\ listeners m' = registered
       /\ currentConfig m' = Some new
       /\ calls m' = calls m0 ++ calls_in_order 0 (length registered) new
       /\ app m' = after_all registered new (app m0)
       /\ console m' = console m0 ++ console_lines registered new (app m0).
Proof.
  intros Hready Hvalid Hget Hrun registered new.
  destruct (subscribe_all_run ls m0) as (Hs1 & _ & Hs3 & Hs4 & Hs5).
  split; [exact Hs1|]. split; [exact Hs3|]. split; [exact Hs4|].
  assert (Hm1 : listeners m1 = registered /\ calls m1 = calls m0
                /\ app m1 = app m0 /\ console m1 = console m0).
  { unfold getConfig in Hget. rewrite Hready in Hget.
    destruct (currentConfig (subscribe_all ls m0)); [inversion Hget; subst; auto|].
    destruct (db_get db); inversion Hget; subst; auto. }
  destruct Hm1 as (Hl & Hc & Ha & Hco).
  unfold updateConfig. rewrite Hready, Hvalid, Hget, Hrun.
  eexists. split; [reflexivity|]. unfold notifyListeners.
  destruct (notify_from_run (listeners (set_currentConfig new m1))
              new 0 (set_currentConfig new m1))
    as (H1 & H2 & H3 & H4 & H5).
  fold new. rewrite H1, H2, H3, H4, H5. simpl. rewrite Hl, Hc, Ha, Hco. auto 10.
Qed.

Lemma updateConfig_invalid (db : Db) (updates : ConfigUpdate) (m : Manager S) (msg : string) :
  dbReady db = None ->
  validateConfig updates = Some msg ->
  updateConfig db updates m = (inr msg, m).
Proof. intros Hready Hvalid. unfold updateConfig. now rewrite Hready, Hvalid. Qed.

End Notify.

Lemma C10_listeners_all_notified_witness :
  let m := subscribe (Fixtures.listener_sees)
             (subscribe Fixtures.listener_throws Fixtures.manager_new) in
  exists m' new,
    updateConfig Fixtures.db_ok Fixtures.update_template m = (inl tt, m')
    /\ listeners m' = [Fixtures.listener_throws; Fixtures.listener_sees]
    /\ currentConfig m' = Some new
    /\ prop (autoReply new) "replyTemplate" = JStr "Thanks"
    /\ prop (autoReply defaultConfig) "replyTemplate" <> JStr "Thanks"
    /\ calls m' = [(0, new); (1, new)]
    /\ app m' = ["first"; "Thanks"]
    /\ console m' = ["Error notifying config listener: boom"].
Proof.
  intros m.
  pose proof (C10_listeners_all_notified Fixtures.db_ok Fixtures.update_template
                [Fixtures.listener_throws; Fixtures.listener_sees] Fixtures.manager_new
                (set_currentConfig defaultConfig m) defaultConfig
                eq_refl eq_refl eq_refl eq_refl) as H.
  cbv zeta in H.
  destruct H as (_ & _ & _ & m' & Hrun & Hls & Hcur & Hcalls & Happ & Hcons).
  exists m', (merge defaultConfig Fixtures.update_template).
  split; [exact Hrun|]. split; [exact Hls|]. split; [exact Hcur|].
  split; [reflexivity|]. split; [discriminate|].
  split; [exact Hcalls|]. split; [exact Happ | exact Hcons].
Defined.

(** *** Validation *)

Lemma negative_number_checked (v : JSValue) (z : Z) :
  v = JNum z -> (z < 0)%Z ->
  truthy v && (not_number v || le_zero v) = true.
Proof.
  intros -> Hz. unfold not_number. simpl.
  destruct (Z.eqb_spec z 0), (Z.leb_spec z 0); simpl; solve [reflexivity | lia].
Qed.

Lemma validateConfig_rejects_negative (updates : ConfigUpdate) :
  has_negative_number updates -> validateConfig updates <> None.
Proof.
  unfold validateConfig, validate_section.
  intros [(o & z & -> & Hport & Hz) | (o & z & Ho & Hint & Hz)].
  - unfold validate_email. destruct Hport as [Hp | Hp];
      rewrite (negative_number_checked _ z Hp Hz);
      repeat (destruct (_ && _); try discriminate).
  - rewrite Ho. destruct (match upd_email updates with Some _ => _ | None => _ end);
      [discriminate|].
    destruct (match upd_filters updates with Some _ => _ | None => _ end);
      [discriminate|].
    unfold validate_autoReply. rewrite (negative_number_checked _ z Hint Hz).
    repeat (destruct (_ && _); try discriminate).
Qed.

(** The part of C8 that the code does ensure: an update that sets a port
    or the interval to a negative number is rejected, the manager is left
    as it was and no listener is called. *)
Lemma updateConfig_rejects_negative {S : Type} (db : Db) (updates : ConfigUpdate)
      (m : Manager S) :
  dbReady db = None ->
  has_negative_number updates ->
  exists msg, updateConfig db updates m = (inr msg, m).
Proof.
  intros Hready Hneg. apply validateConfig_rejects_negative in Hneg.
  destruct (validateConfig updates) as [msg|] eqn:Hv; [|congruence].
  exists msg. now apply updateConfig_invalid.
Qed.

Example updateConfig_negative_interval :
  updateConfig Fixtures.db_ok Fixtures.update_negative_interval Fixtures.manager0
  = (inr "Invalid checkInterval: must be a positive number", Fixtures.manager0).
Proof. reflexivity. Qed.

(** C8 fails for zero: a well-typed update with [checkInterval] 0 passes
    [validateConfig], because the guard tests the value's truthiness
    before its type and sign; [updateConfig] resolves, the snapshot now
    holds the zero interval and both listeners were called with it. *)
Theorem C8_zero_interval_accepted :
  validateConfig Fixtures.update_zero_interval = None
  /\ exists m' newConfig,
      updateConfig Fixtures.db_ok Fixtures.update_zero_interval Fixtures.manager0
      = (inl tt, m')
      /\ currentConfig m' = Some newConfig
      /\ prop (autoReply newConfig) "checkInterval" = JNum 0
      /\ calls m' = [(0, newConfig); (1, newConfig)]
      /\ app m' = ["first"; "interval 0"].
Proof.
  split; [reflexivity|].
  eexists _, _. split; [reflexivity|]. split; [reflexivity|].
  split; [vm_compute; reflexivity|]. split; reflexivity.
Qed.

End ConfigFacts.

(** * Further properties *)

(** ** The message filter: edge cases *)

Module FilterMore.
Import Filter FilterSpec JsStringFacts FilterFacts.

(** X1. With keyword filtering enabled, an empty keyword list rejects every
    email whose sender is not excluded, and a list that contains the empty
    keyword approves every such email. *)
Theorem keyword_list_edge_cases (cfg : FilterConfig) (e : Email) :
  ~ sender_excluded cfg e ->
  keywordsEnabled cfg = true ->
  (keywords cfg = [] ->
   shouldAutoReply (MessageFilter_new cfg) e
   = mkFilterDecision false "Email does not contain any required keywords" None)
  /\ (In "" (keywords cfg) ->
      approved (shouldAutoReply (MessageFilter_new cfg) e) = true).
Proof.
  intros Hnex Hon. rewrite (shouldAutoReply_not_excluded cfg e Hnex), Hon. split.
  - intros ->. reflexivity.
  - intros Hin. cbv zeta.
    assert (Hm : In "" (findMatches (KeywordMatcher_new (keywords cfg)) e)).
    { apply findMatches_spec. exists "". split; [exact Hin|]. split; [reflexivity|].
      exists "", (toLowerCase (email_subject e +:+ " " +:+ email_body e)). reflexivity. }
    destruct (0 <? length _)%nat eqn:Hlen; [reflexivity|].
    exfalso. apply Nat.ltb_ge in Hlen.
    destruct (findMatches _ e); [contradiction | simpl in Hlen; lia].
Qed.

Lemma keyword_list_edge_cases_witness :
  let cfg := mkFilterConfig true ["urgent"; ""] ["spam.com"] in
  let e := mkEmail "e1" "a@b.com" "me@example.org" "Hello" "nothing here" 0 false in
  approved (shouldAutoReply (MessageFilter_new cfg) e) = true.
Proof.
  intros cfg e.
  assert (Hnex : ~ sender_excluded cfg e).
  { rewrite <- isExcluded_spec. vm_compute. discriminate. }
  apply (proj2 (keyword_list_edge_cases cfg e Hnex eq_refl)).
  simpl. auto.
Defined.

Lemma extractDomain_no_at (a : string) : no_at a -> extractDomain a = "".
Proof.
  intros Hno. unfold extractDomain.
  assert (H : indexOf a "@" = None).
  { induction a as [|c a IH]; [reflexivity|]. simpl.
    destruct (ascii_dec c "@") as [->|Hc].
    - exfalso. apply (Hno "" a). reflexivity.
    - rewrite IH; [reflexivity|]. intros x y Hxy. apply (Hno (String c x) y).
      rewrite append_cons. now rewrite Hxy. }
  now rewrite H.
Qed.

Lemma toLowerCase_empty (s : string) : toLowerCase s = "" <-> s = "".
Proof. destruct s; simpl; split; congruence. Qed.

(** X2. An address without an at-sign has the empty domain: the email is
    rejected as excluded exactly when the empty string is one of the
    configured excluded domains. *)
Theorem sender_without_at (cfg : FilterConfig) (e : Email) :
  no_at (email_from e) ->
  (In "" (excludedDomains cfg) ->
   shouldAutoReply (MessageFilter_new cfg) e
   = mkFilterDecision false "Sender domain is excluded: " None)
  /\ (~ In "" (excludedDomains cfg) -> ~ sender_excluded cfg e).
Proof.
  intros Hno. pose proof (extractDomain_no_at _ Hno) as Hd. split.
  - intros Hin. rewrite shouldAutoReply_excluded.
    + now rewrite Hd.
    + exists "". split; [exact Hin|]. unfold eq_ci. now rewrite Hd.
  - intros Hnin [d [Hin Heq]]. unfold eq_ci in Heq. rewrite Hd in Heq. simpl in Heq.
    apply (proj1 (toLowerCase_empty d)) in Heq. subst. contradiction.
Qed.

Lemma sender_without_at_witness :
  let cfg := mkFilterConfig false [] ["spam.com"; ""] in
  let e := mkEmail "e1" "mailer-daemon" "me@example.org" "Hello" "" 0 false in
  shouldAutoReply (MessageFilter_new cfg) e
  = mkFilterDecision false "Sender domain is excluded: " None.
Proof.
  intros cfg e.
  assert (Hno : no_at (email_from e)) by (apply no_at_includes; reflexivity).
  apply (proj1 (sender_without_at cfg e Hno)).
  simpl. auto.
Defined.

(** X3. The decision depends on the configuration and on the email only up
    to letter case, and on the sender only through its domain: two emails
    with the same lower-cased subject and body and the same sender domain
    get the same decision from two filters whose keyword lists and
    excluded domains agree after lower-casing. *)
Theorem decision_ignores_case (cfg cfg' : FilterConfig) (e e' : Email) :
  keywordsEnabled cfg = keywordsEnabled cfg' ->
  map toLowerCase (keywords cfg) = map toLowerCase (keywords cfg') ->
  map toLowerCase (excludedDomains cfg) = map toLowerCase (excludedDomains cfg') ->
  toLowerCase (email_subject e) = toLowerCase (email_subject e') ->
  toLowerCase (email_body e) = toLowerCase (email_body e') ->
  extractDomain (email_from e) = extractDomain (email_from e') ->
  shouldAutoReply (MessageFilter_new cfg) e = shouldAutoReply (MessageFilter_new cfg') e'.
Proof.
  intros Hen Hk Hd Hs Hb Hf.
  unfold shouldAutoReply, MessageFilter_new, isExcluded, findMatches, searchText,
    KeywordMatcher_new, DomainFilter_new. simpl.
  rewrite Hen, Hk, Hd, Hf.
  rewrite !toLowerCase_app, Hs, Hb. reflexivity.
Qed.

Lemma decision_ignores_case_witness :
  shouldAutoReply (MessageFilter_new (mkFilterConfig true ["URGENT"] ["Spam.COM"]))
                  (mkEmail "e1" "Bob@Example.com" "me@example.org" "Urgent" "HELP" 0 false)
  = shouldAutoReply (MessageFilter_new (mkFilterConfig true ["urgent"] ["spam.com"]))
                    (mkEmail "e2" "alice@example.COM" "you@example.org" "urgent" "help" 7 true).
Proof.
  apply decision_ignores_case; reflexivity.
Defined.

End FilterMore.


(** ** The responder: sending, queuing and the per-email pipeline *)

Module ResponderMore.
Import ResponderSpec MoreSpec ResponderFacts.

Ltac run_sendReply H :=
  unfold sendReply, sendReply_sent, sendReply_failed, bind, try_catch, deref,
    get_trace, emit, throw, modify, save_reply, new_Date, fresh_uuid, logActivity,
    emit, ret, bind, deref;
  rewrite H; simpl.

Lemma sendReply_success_run (env : Env) (config : AutoResponderConfig)
        (l : nat) (w : World) (r : Reply) :
  heap w !! l = Some r ->
  smtp env (trace w) (smtp_user config) (reply_to r) (reply_subject r) (reply_body r)
  = None ->
  let t := now env (ticks w) in
  let r' := set_sentAt t (set_status sent r) in
  exists w',
    sendReply env config l w = (Ok (mkSendResult true None (Some t)), w')
    /\ heap w' = <[l := r']> (heap w)
    /\ pendingReplies w' = pendingReplies w
    /\ trace w'
       = trace w
         ++ [EvSendMail (smtp_user config) (reply_to r) (reply_subject r) (reply_body r)]
         ++ saves config r'
         ++ [EvLog (mkActivityLog (randomUUID env (uuids w)) t reply_sent
                      (reply_originalEmailId r) (Some (reply_id r))
                      ("Reply sent to " +:+ reply_to r)
                      [("recipient", MStr (reply_to r))])].
Proof.
  intros H Hs t r'. run_sendReply H. rewrite Hs. simpl. rewrite ?H. simpl.
  rewrite ?lookup_insert_eq. simpl. unfold saves.
  destruct (onReplySave config); simpl; rewrite ?lookup_insert_eq; simpl;
    rewrite ?insert_insert_eq; eexists; (split; [reflexivity|]); simpl;
    (split; [reflexivity|]); (split; [reflexivity|]);
    rewrite <- ?app_assoc; reflexivity.
Qed.



Lemma sendReply_failure_run (env : Env) (config : AutoResponderConfig)
        (l : nat) (w : World) (r : Reply) (msg : string) :
  heap w !! l = Some r ->
  smtp env (trace w) (smtp_user config) (reply_to r) (reply_subject r) (reply_body r)
  = Some msg ->
  let r' := set_status failed r in
  exists w',
    sendReply env config l w = (Ok (mkSendResult false (Some msg) None), w')
    /\ heap w' = <[l := r']> (heap w)
    /\ reply_sentAt r' = reply_sentAt r
    /\ pendingReplies w' = pendingReplies w
    /\ trace w'
       = trace w
         ++ [EvSendMail (smtp_user config) (reply_to r) (reply_subject r) (reply_body r)]
         ++ saves config r'
         ++ [EvLog (mkActivityLog (randomUUID env (uuids w)) (now env (ticks w))
                      reply_failed (reply_originalEmailId r) (Some (reply_id r))
                      ("Failed to send reply to " +:+ reply_to r +:+ ": " +:+ msg)
                      [("recipient", MStr (reply_to r)); ("error", MStr msg)])].
Proof.
  intros H Hs r'. run_sendReply H. rewrite Hs. simpl. rewrite ?H. simpl.
  unfold saves.
  destruct (onReplySave config); simpl; rewrite ?lookup_insert_eq; simpl;
    eexists; (split; [reflexivity|]); simpl;
    (split; [reflexivity|]); (split; [reflexivity|]); (split; [reflexivity|]);
    rewrite <- ?app_assoc; reflexivity.
Qed.

(** X5. A send that the transport rejects with [msg]: [sendReply] still
    returns normally, with [success] false and [msg] as the error; the
    reply becomes [failed] and its [sentAt] is left as it was; exactly one
    log entry is written, of type [reply_failed], naming the recipient and
    the error. *)
Theorem sendReply_failure (env : Env) (config : AutoResponderConfig)
        (l : nat) (w : World) (r : Reply) (msg : string) :
  heap w !! l = Some r ->
  smtp env (trace w) (smtp_user config) (reply_to r) (reply_subject r) (reply_body r)
  = Some msg ->
  let r' := set_status failed r in
  exists w',
    sendReply env config l w = (Ok (mkSendResult false (Some msg) None), w')
    /\ heap w' = <[l := r']> (heap w)
    /\ reply_sentAt r' = reply_sentAt r
    /\ pendingReplies w' = pendingReplies w
    /\ trace w'
       = trace w
         ++ [EvSendMail (smtp_user config) (reply_to r) (reply_subject r) (reply_body r)]
         ++ saves config r'
         ++ [EvLog (mkActivityLog (randomUUID env (uuids w)) (now env (ticks w))
                      reply_failed (reply_originalEmailId r) (Some (reply_id r))
                      ("Failed to send reply to " +:+ reply_to r +:+ ": " +:+ msg)
                      [("recipient", MStr (reply_to r)); ("error", MStr msg)])].
Proof. exact (sendReply_failure_run env config l w r msg). Qed.

Lemma sendReply_failure_witness :
  let env := mkEnv Fixtures.uuid_of Z.of_nat (fun _ _ _ _ _ => Some "ECONNRESET")
                   (fun _ _ => FlagAdded) in
  exists w',
    sendReply env Fixtures.config_manual 0 (Fixtures.world_held approved)
    = (Ok (mkSendResult false (Some "ECONNRESET") None), w')
    /\ reply_status <$> heap w' !! 0 = Some failed
    /\ logs_of (trace w')
       = [mkActivityLog "uuid-1" 1 reply_failed "e1" (Some "r1")
                        "Failed to send reply to a@b.com: ECONNRESET"
                        [("recipient", MStr "a@b.com"); ("error", MStr "ECONNRESET")]].
Proof.
  intros env.
  destruct (sendReply_failure env Fixtures.config_manual 0
              (Fixtures.world_held approved) (Fixtures.reply1 approved) "ECONNRESET"
              eq_refl eq_refl)
    as (w' & Hrun & Hheap & _ & _ & Htr).
  exists w'. split; [exact Hrun|]. split; [rewrite Hheap; reflexivity|].
  rewrite Htr. reflexivity.
Defined.

(** X6. Queuing and looking up: [queueForConfirmation] files the reply
    under its own id with status [pending], touches no other entry and no
    other reply, has no outside effect, and doing it again changes
    nothing; the reply is then among [getPendingReplies]. *)
Theorem queue_then_lookup (l : nat) (w : World) (r : Reply) :
  heap w !! l = Some r ->
  exists w1,
    queueForConfirmation l w = (Ok tt, w1)
    /\ pendingReplies w1 !! reply_id r = Some l
    /\ heap w1 !! l = Some (set_status pending r)
    /\ (forall k, k <> reply_id r -> pendingReplies w1 !! k = pendingReplies w !! k)
    /\ (forall l', l' <> l -> heap w1 !! l' = heap w !! l')
    /\ trace w1 = trace w
    /\ queueForConfirmation l w1 = (Ok tt, w1)
    /\ In l (getPendingReplies w1).
Proof.
  intros H. rewrite (queueForConfirmation_run l w r H). eexists. split; [reflexivity|].
  simpl. split; [apply lookup_insert_eq|]. split; [apply lookup_insert_eq|].
  split; [intros k Hk; now rewrite lookup_insert_ne|].
  split; [intros l' Hl'; now rewrite lookup_insert_ne|].
  split; [reflexivity|]. split.
  - erewrite queueForConfirmation_run by (simpl; apply lookup_insert_eq).
    destruct w. unfold with_pending, with_heap. simpl.
    now rewrite !insert_insert_eq.
  - unfold getPendingReplies. simpl. apply list_elem_of_In.
    apply list_elem_of_fmap. exists (reply_id r, l). split; [reflexivity|].
    apply elem_of_map_to_list. apply lookup_insert_eq.
Qed.

Lemma queue_then_lookup_witness :
  exists w1,
    queueForConfirmation 0 (Fixtures.world_held approved) = (Ok tt, w1)
    /\ pendingReplies w1 !! "r1" = Some 0
    /\ heap w1 !! 0 = Some (Fixtures.reply1 pending)
    /\ queueForConfirmation 0 w1 = (Ok tt, w1).
Proof.
  destruct (queue_then_lookup 0 (Fixtures.world_held approved) (Fixtures.reply1 approved)
              eq_refl) as (w1 & Hrun & Hp & Hh & _ & _ & _ & Hagain & _).
  exists w1. auto.
Defined.

Lemma processEmail_filtered_run (env : Env) (config : AutoResponderConfig)
        (mf : Filter.MessageFilter) (email : Email) (w : World) :
  Filter.approved (Filter.shouldAutoReply mf email) = false ->
  let filtered :=
    EvLog (mkActivityLog (randomUUID env (uuids w)) (now env (ticks w)) email_filtered
             (email_id email) None
             ("Email filtered out: " +:+ Filter.reason (Filter.shouldAutoReply mf email))
             [("from", MStr (email_from email)); ("subject", MStr (email_subject email))]) in
  exists w',
    processEmail env config mf email w = (Ok tt, w')
    /\ heap w' = heap w /\ next_ref w' = next_ref w
    /\ pendingReplies w' = pendingReplies w
    /\ trace w'
       = trace w ++ [filtered; EvMarkAsRead (email_id email)]
         ++ match flag_rejection (imap_flag env (trace w ++ [filtered]) (email_id email)) with
            | None => []
            | Some msg =>
                [EvLog (mkActivityLog (randomUUID env (S (uuids w))) (now env (S (ticks w)))
                          error (email_id email) None
                          ("Error processing email: " +:+ msg)
                          [("from", MStr (email_from email));
                           ("subject", MStr (email_subject email));
                           ("error", MStr msg)])]
            end.
Proof.
  intros Hrej filtered. unfold processEmail, try_catch. rewrite Hrej.
  change (negb false) with true. cbv iota.
  unfold bind at 1. unfold fresh_uuid at 1. unfold bind at 1. unfold new_Date at 1.
  unfold bind at 1. unfold logActivity at 1, emit at 1. cbv beta zeta.
  rewrite markAsRead_run. simpl.
  fold filtered.
  destruct (flag_rejection _) as [msg|]; simpl.
  - unfold bind, fresh_uuid, new_Date, logActivity, emit. simpl.
    eexists. split; [reflexivity|]. simpl. repeat (split; [reflexivity|]).
    now rewrite <- !app_assoc.
  - eexists. split; [reflexivity|]. simpl. repeat (split; [reflexivity|]).
    now rewrite <- !app_assoc.
Qed.

(** X7. An email that the filter rejects: no reply object is created and
    nothing is queued or sent; one [email_filtered] entry with the reason
    is logged and then [markAsRead] is called on the email's id. When that
    call fails, the failure is caught: [processEmail] still returns
    normally and one [error] entry with the email's id and the tracker's
    message follows. *)
Theorem processEmail_filtered (env : Env) (config : AutoResponderConfig)
        (mf : Filter.MessageFilter) (email : Email) (w : World) :
  Filter.approved (Filter.shouldAutoReply mf email) = false ->
  let filtered :=
    EvLog (mkActivityLog (randomUUID env (uuids w)) (now env (ticks w)) email_filtered
             (email_id email) None
             ("Email filtered out: " +:+ Filter.reason (Filter.shouldAutoReply mf email))
             [("from", MStr (email_from email)); ("subject", MStr (email_subject email))]) in
  exists w',
    processEmail env config mf email w = (Ok tt, w')
    /\ heap w' = heap w /\ next_ref w' = next_ref w
    /\ pendingReplies w' = pendingReplies w
    /\ trace w'
       = trace w ++ [filtered; EvMarkAsRead (email_id email)]
         ++ match flag_rejection (imap_flag env (trace w ++ [filtered]) (email_id email)) with
            | None => []
            | Some msg =>
                [EvLog (mkActivityLog (randomUUID env (S (uuids w))) (now env (S (ticks w)))
                          error (email_id email) None
                          ("Error processing email: " +:+ msg)
                          [("from", MStr (email_from email));
                           ("subject", MStr (email_subject email));
                           ("error", MStr msg)])]
            end.
Proof. exact (processEmail_filtered_run env config mf email w). Qed.

Lemma processEmail_filtered_witness :
  let mf := Filter.MessageFilter_new (Filter.mkFilterConfig true ["urgent"] []) in
  exists w',
    processEmail Fixtures.env_flag_fails Fixtures.config_auto mf Fixtures.email1
                 Fixtures.world_empty = (Ok tt, w')
    /\ heap w' = ∅
    /\ map log_type (logs_of (trace w')) = [email_filtered; error]
    /\ List.filter is_mark (trace w') = [EvMarkAsRead "e1"].
Proof.
  intros mf.
  destruct (processEmail_filtered Fixtures.env_flag_fails Fixtures.config_auto mf
              Fixtures.email1 Fixtures.world_empty eq_refl)
    as (w' & Hrun & Hh & _ & _ & Htr).
  exists w'. split; [exact Hrun|]. split; [exact Hh|]. rewrite Htr. split; reflexivity.
Defined.

Lemma processEmail_queues_run (env : Env) (config : AutoResponderConfig)
        (mf : Filter.MessageFilter) (email : Email) (w : World) :
  Filter.approved (Filter.shouldAutoReply mf email) = true ->
  manualConfirmation config = true ->
  let l := next_ref w in
  let r := new_reply env config email w in
  exists w',
    processEmail env config mf email w = (Ok tt, w')
    /\ reply_status r = pending
    /\ heap w' = <[l := r]> (heap w)
    /\ pendingReplies w' = <[reply_id r := l]> (pendingReplies w)
    /\ trace w'
       = trace w ++ saves config r
         ++ [EvLog (mkActivityLog (randomUUID env (S (uuids w))) (now env (S (ticks w)))
                      email_filtered (email_id email) (Some (reply_id r))
                      "Reply queued for manual confirmation"
                      [("from", MStr (email_from email));
                       ("subject", MStr (email_subject email))])].
Proof.
  intros Happ Hman l r. unfold processEmail, try_catch. rewrite Happ.
  change (negb true) with false. cbv iota.
  unfold generateReply, save_reply, queueForConfirmation, saves.
  assert (Hr : r = mkReply (randomUUID env (uuids w)) (email_id email) (email_from email)
                           ("Re: " +:+ email_subject email) (renderTemplate config email)
                           (now env (ticks w)) pending None None).
  { unfold r, new_reply. now rewrite Hman. }
  rewrite Hr. rewrite Hman.
  destruct (onReplySave config);
    unfold bind, fresh_uuid, new_Date, alloc, deref, modify, emit, logActivity, ret; simpl;
    repeat (progress (rewrite ?lookup_insert_eq; simpl));
    eexists; (split; [reflexivity|]); simpl; (split; [reflexivity|]);
    (split; [now rewrite insert_insert_eq|]); (split; [reflexivity|]);
    rewrite <- ?app_assoc; reflexivity.
Qed.

(** X8. In manual mode an email that the filter approves gets a reply
    object with status [pending], filed in the pending map under the
    reply's id; the only outside effects are the save callback and one log
    entry "queued"; nothing is sent and the email is not marked read. *)
Theorem processEmail_queues (env : Env) (config : AutoResponderConfig)
        (mf : Filter.MessageFilter) (email : Email) (w : World) :
  Filter.approved (Filter.shouldAutoReply mf email) = true ->
  manualConfirmation config = true ->
  let l := next_ref w in
  let r := new_reply env config email w in
  exists w',
    processEmail env config mf email w = (Ok tt, w')
    /\ reply_status r = pending
    /\ heap w' = <[l := r]> (heap w)
    /\ pendingReplies w' = <[reply_id r := l]> (pendingReplies w)
    /\ trace w'
       = trace w ++ saves config r
         ++ [EvLog (mkActivityLog (randomUUID env (S (uuids w))) (now env (S (ticks w)))
                      email_filtered (email_id email) (Some (reply_id r))
                      "Reply queued for manual confirmation"
                      [("from", MStr (email_from email));
                       ("subject", MStr (email_subject email))])].
Proof. exact (processEmail_queues_run env config mf email w). Qed.

Lemma processEmail_queues_witness :
  exists w',
    processEmail Fixtures.env_ok Fixtures.config_manual Fixtures.filter_open
                 Fixtures.email1 Fixtures.world_empty = (Ok tt, w')
    /\ pendingReplies w' = {[ "uuid-0" := 0 ]}
    /\ reply_status <$> heap w' !! 0 = Some pending
    /\ List.filter (fun e => negb (is_quiet e)) (trace w') = [].
Proof.
  destruct (processEmail_queues Fixtures.env_ok Fixtures.config_manual Fixtures.filter_open
              Fixtures.email1 Fixtures.world_empty eq_refl eq_refl)
    as (w' & Hrun & _ & Hh & Hp & Htr).
  exists w'. split; [exact Hrun|]. rewrite Hp, Hh, Htr. repeat split; reflexivity.
Defined.

(** X9. Manual mode end to end: the id under which [processEmail] queues a
    reply is accepted by [processConfirmation], which never answers
    NotFound for it; the reply ends [sent] or [failed] (approve) or
    [rejected] (reject), it still points to the email and its sender, the
    transport is called once on approval and never on rejection, and the
    last effect is [markAsRead] on the email's id; when that succeeds the
    pending map is what it was before the email arrived, less that id. *)
Theorem queued_reply_confirmed (env : Env) (config : AutoResponderConfig)
        (mf : Filter.MessageFilter) (email : Email) (approve : bool) (w : World) :
  Filter.approved (Filter.shouldAutoReply mf email) = true ->
  manualConfirmation config = true ->
  let id := randomUUID env (uuids w) in
  exists w1 res w2 r' evs,
    processEmail env config mf email w = (Ok tt, w1)
    /\ processConfirmation env config id approve w1 = (res, w2)
    /\ res <> NotFound id
    /\ heap w2 !! next_ref w = Some r'
    /\ (if approve then reply_status r' = sent \/ reply_status r' = failed
        else reply_status r' = rejected)
    /\ reply_originalEmailId r' = email_id email
    /\ reply_to r' = email_from email
    /\ trace w2 = trace w1 ++ evs ++ [EvMarkAsRead (email_id email)]
    /\ count_sends evs = (if approve then 1 else 0)
    /\ (res = Ok tt -> pendingReplies w2 = delete id (pendingReplies w)).
Proof.
  intros Happ Hman id.
  destruct (processEmail_queues_run env config mf email w Happ Hman)
    as (w1 & Hrun & Hst & Hh & Hp & _).
  assert (Hp1 : pendingReplies w1 !! id = Some (next_ref w))
    by (rewrite Hp; apply lookup_insert_eq).
  assert (Hh1 : heap w1 !! next_ref w = Some (new_reply env config email w))
    by (rewrite Hh; apply lookup_insert_eq).
  destruct (processConfirmation_run env config id approve w1 _ _ Hp1 Hh1)
    as (r' & evs & w2 & Hrun2 & Hheap2 & _ & _ & Hpend2 & Htr2 & _ & Hcount & Hsame & Hst2).
  exists w1. eexists _, w2, r', evs. split; [exact Hrun|]. split; [exact Hrun2|].
  destruct Hsame as (_ & Horig & Hto & _).
  split.
  { destruct (flag_rejection _) as [msg|] eqn:Hf; [|discriminate].
    unfold NotFound. intros [= Hmsg].
    exact (flag_rejection_not_NotFound _ _ _ Hf Hmsg). }
  split; [rewrite Hheap2; apply lookup_insert_eq|].
  split; [exact Hst2|]. split; [exact Horig|]. split; [exact Hto|].
  split; [exact Htr2|]. split; [exact Hcount|].
  intros Hok. rewrite Hpend2. destruct (flag_rejection _); [discriminate|].
  rewrite Hp. apply delete_insert_eq.
Qed.

Lemma queued_reply_confirmed_witness :
  exists w1 res w2 r',
    processEmail Fixtures.env_ok Fixtures.config_manual Fixtures.filter_open
                 Fixtures.email1 Fixtures.world_empty = (Ok tt, w1)
    /\ processConfirmation Fixtures.env_ok Fixtures.config_manual "uuid-0" true w1
       = (res, w2)
    /\ res <> NotFound "uuid-0"
    /\ heap w2 !! 0 = Some r'
    /\ (reply_status r' = sent \/ reply_status r' = failed)
    /\ reply_originalEmailId r' = "e1"
    /\ reply_to r' = "a@b.com".
Proof.
  destruct (queued_reply_confirmed Fixtures.env_ok Fixtures.config_manual
              Fixtures.filter_open Fixtures.email1 true Fixtures.world_empty
              eq_refl eq_refl)
    as (w1 & res & w2 & r' & evs & Hrun & Hrun2 & Hnf & Hh & Hst & Ho & Ht & _).
  exists w1, res, w2, r'. auto 10.
Defined.

End ResponderMore.


(** ** The monitor, further *)

Module MonitorMore.
Import MonitorSpec ResponderSpec MoreSpec JsStringFacts ResponderFacts MonitorFacts.

(** *** What [checkInbox] returns *)

Lemma on_msg_event_fetched env emails v ev w emails' v' w' :
  on_msg_event env emails v ev w = (Ok (emails', v'), w') ->
  (Forall fetched emails -> Forall fetched emails')
  /\ length emails' + slot v' <= length emails + slot v.
Proof.
  destruct ev as [attrs|chunks|]; simpl.
  - destruct (envelope attrs) as [e|].
    + destruct (envelope_date e) as [d|]; unfold bind, ret, new_Date; simpl;
        intros [= <- <- _]; split; auto.
    + intros [= <- <- _]. split; auto.
  - intros [= <- <- _]. split; auto.
  - unfold slot. destruct (v_ended v) eqn:He.
    + intros [= <- <- _]. rewrite He. split; auto.
    + destruct (negb (is_empty (v_uid v)) && negb (is_empty (v_from v))) eqn:Hg;
        intros [= <- <- _]; simpl.
      * split; [|rewrite length_app; simpl; lia].
        intros H. apply Forall_app. split; [exact H|]. constructor; [|constructor].
        apply andb_true_iff in Hg as [Hu Hf].
        apply negb_true_iff in Hu, Hf. apply is_empty_false in Hu, Hf.
        repeat split; assumption.
      * split; [auto | lia].
Qed.

Lemma on_msg_events_fetched env evs : forall emails v w emails' w',
  on_msg_events env emails v evs w = (Ok emails', w') ->
  (Forall fetched emails -> Forall fetched emails')
  /\ length emails' <= length emails + slot v.
Proof.
  induction evs as [|ev evs IH]; intros emails v w emails' w'; simpl.
  - intros [= <- _]. split; [auto | lia].
  - unfold bind.
    destruct (on_msg_event_run env emails v ev w) as (e1 & v1 & w1 & Hrun & _).
    rewrite Hrun. intros Hrest.
    apply on_msg_event_fetched in Hrun as [Hf1 Hl1].
    apply IH in Hrest as [Hf2 Hl2]. split; [auto | lia].
Qed.

Lemma on_messages_fetched env msgs : forall emails w emails' w',
  on_messages env emails msgs w = (Ok emails', w') ->
  (Forall fetched emails -> Forall fetched emails')
  /\ length emails' <= length emails + length msgs.
Proof.
  induction msgs as [|msg msgs IH]; intros emails w emails' w'; simpl.
  - intros [= <- _]. split; [auto | lia].
  - unfold bind, on_message, bind. rewrite only_ticks_new_Date.
    destruct (on_msg_events_run env msg emails
                (mkMsgVars "" "" "" "" "" (now env (ticks w)) false)
                (with_ticks (S (ticks w)) w)) as (e1 & w1 & Hrun & _).
    rewrite Hrun. intros Hrest.
    apply on_msg_events_fetched in Hrun as [Hf1 Hl1]. unfold slot in Hl1. simpl in Hl1.
    apply IH in Hrest as [Hf2 Hl2]. split; [auto | lia].
Qed.

(** X10. Whatever the server sends, a result of [checkInbox] holds at
    most one email per message delivered, every one of them unread and with
    a non-empty id and sender; and reading the inbox changes nothing in
    the service but the clock: no reply, no queue entry, no event and no
    field of the monitor. *)
Theorem checkInbox_result (env : Env) (session : ImapSession)
    (w w' : World) (emails : list Email) :
  checkInbox env session w = (Ok emails, w') ->
  Forall fetched emails
  /\ length emails <= length (messages_of session)
  /\ only_ticks w w'.
Proof.
  destruct session as [err|msg|msg|msg| |msgs|msgs msg]; simpl; try discriminate.
  - intros [= <- <-]. repeat split; auto. apply only_ticks_refl.
  - intros Hrun.
    destruct (on_messages_run env msgs [] w) as (e & w1 & Hrun1 & Ht & _).
    rewrite Hrun in Hrun1. injection Hrun1 as <- <-.
    apply on_messages_fetched in Hrun as [Hf Hl]. simpl in Hl.
    repeat split; auto.
  - unfold bind. destruct (on_messages_run env msgs [] w) as (e & w1 & Hrun & _).
    rewrite Hrun. discriminate.
Qed.

Lemma checkInbox_result_witness :
  exists emails w',
    checkInbox Fixtures.env_ok (FetchEnds [Fixtures.msg_without_to; [MsgEnd]])
               Fixtures.world_empty = (Ok emails, w')
    /\ Forall fetched emails
    /\ length emails <= 2
    /\ only_ticks Fixtures.world_empty w'.
Proof.
  eexists _, _. split; [reflexivity|].
  apply (checkInbox_result Fixtures.env_ok
           (FetchEnds [Fixtures.msg_without_to; [MsgEnd]]) Fixtures.world_empty).
  reflexivity.
Defined.

(** *** One block of events per email *)

Lemma logs_of_app (a b : list Event) : logs_of (a ++ b) = logs_of a ++ logs_of b.
Proof. unfold logs_of. apply flat_map_app. Qed.

Lemma logs_of_saves config r : logs_of (saves config r) = [].
Proof. unfold saves. now destruct (onReplySave config). Qed.

Lemma generateReply_trace env config email w :
  exists l w',
    generateReply env config email w = (Ok l, w')
    /\ heap w' !! l = Some (new_reply env config email w)
    /\ monitor w' = monitor w
    /\ trace w' = trace w ++ saves config (new_reply env config email w).
Proof.
  unfold generateReply, bind, fresh_uuid, new_Date, alloc, save_reply, saves,
    new_reply, ret. simpl.
  destruct (onReplySave config); unfold bind, deref, emit, ret; simpl;
    rewrite ?lookup_insert_eq; simpl; eexists _, _;
    (split; [reflexivity|]); simpl; rewrite ?lookup_insert_eq, ?app_nil_r; auto.
Qed.

Lemma sendReply_logs env config l w r :
  heap w !! l = Some r ->
  exists res w' evs,
    sendReply env config l w = (Ok res, w')
    /\ trace w' = trace w ++ evs
    /\ exists log, logs_of evs = [log]
                   /\ log_emailId log = reply_originalEmailId r.
Proof.
  intros Hl.
  destruct (smtp env (trace w) (smtp_user config) (reply_to r) (reply_subject r)
              (reply_body r)) as [msg|] eqn:Hs.
  - pose proof (ResponderMore.sendReply_failure_run env config l w r msg Hl Hs) as H.
    cbv zeta in H. destruct H as (w' & Hrun & _ & _ & _ & Ht).
    eexists _, w', _. split; [exact Hrun|]. split; [exact Ht|].
    eexists. simpl. rewrite logs_of_app, logs_of_saves. simpl. split; reflexivity.
  - pose proof (ResponderMore.sendReply_success_run env config l w r Hl Hs) as H.
    cbv zeta in H. destruct H as (w' & Hrun & _ & _ & Ht).
    eexists _, w', _. split; [exact Hrun|]. split; [exact Ht|].
    eexists. simpl. rewrite logs_of_app, logs_of_saves. simpl. split; reflexivity.
Qed.

Lemma processEmail_block env config mf email w :
  exists w' evs,
    processEmail env config mf email w = (Ok tt, w')
    /\ monitor w' = monitor w
    /\ trace w' = trace w ++ evs
    /\ block_of email evs.
Proof.
  pose proof (km_processEmail env config mf email w) as Hmon.
  destruct (Filter.approved (Filter.shouldAutoReply mf email)) eqn:Happ.
  - destruct (manualConfirmation config) eqn:Hman.
    + pose proof (ResponderMore.processEmail_queues_run env config mf email w Happ Hman) as H.
      cbv zeta in H. destruct H as (w' & Hrun & _ & _ & _ & Ht).
      rewrite Hrun in Hmon. eexists w', _. split; [exact Hrun|]. split; [exact Hmon|].
      split; [exact Ht|]. unfold block_of. rewrite logs_of_app, logs_of_saves. simpl.
      split; [discriminate|]. repeat constructor.
    + assert (H : exists w' evs,
                 processEmail env config mf email w = (Ok tt, w')
                 /\ trace w' = trace w ++ evs /\ block_of email evs).
      { unfold processEmail, try_catch. rewrite Happ.
        change (negb true) with false. cbv iota. unfold bind at 1.
        destruct (generateReply_trace env config email w) as (l & w1 & Hgen & Hl & _ & Ht1).
        rewrite Hgen. unfold bind at 1. unfold deref. rewrite Hl.
        assert (Hst0 : reply_status (new_reply env config email w) = approved)
          by (unfold new_reply; simpl; now rewrite Hman).
        rewrite Hst0. cbv iota. unfold bind at 1.
        destruct (sendReply_logs env config l w1 _ Hl)
          as (res & w2 & evs & Hrun & Ht2 & log & Hlogs & Hid).
        rewrite Hrun. rewrite markAsRead_run.
        destruct (flag_rejection _) as [msg|].
        - unfold bind, fresh_uuid, new_Date, logActivity, emit. simpl.
          eexists _, _. split; [reflexivity|]. simpl.
          split; [rewrite Ht2, Ht1, <- !app_assoc; reflexivity|].
          unfold block_of. rewrite !logs_of_app, logs_of_saves, Hlogs. simpl.
          split; [discriminate|]. repeat constructor. exact Hid.
        - simpl. eexists _, _. split; [reflexivity|]. simpl.
          split; [rewrite Ht2, Ht1, <- !app_assoc; reflexivity|].
          unfold block_of. rewrite !logs_of_app, logs_of_saves, Hlogs. simpl.
          split; [discriminate|]. repeat constructor. exact Hid. }
      destruct H as (w' & evs & Hrun & Ht & Hb). rewrite Hrun in Hmon.
      exists w', evs. auto.
  - pose proof (ResponderMore.processEmail_filtered_run env config mf email w Happ) as H.
    cbv zeta in H. destruct H as (w' & Hrun & _ & _ & _ & Ht).
    rewrite Hrun in Hmon. eexists w', _. split; [exact Hrun|]. split; [exact Hmon|].
    split; [exact Ht|]. unfold block_of.
    destruct (flag_rejection _); simpl; (split; [discriminate|]); repeat constructor.
Qed.

(** X11. A batch is worked through to its end, in order: as long as no
    stop is requested, [process_emails] returns normally and the events it
    leaves fall into one block per email, in the order of the batch; each
    block holds at least one log entry and all its log entries carry that
    email's id. A failing send or a failing read-flag update on one email
    keeps none of the later ones from being handled. *)
Theorem batch_in_blocks (env : Env) (config : AutoResponderConfig)
    (mf : Filter.MessageFilter) (emails : list Email) (w : World) :
  shouldStop (monitor w) = false ->
  exists w' blocks,
    process_emails env config mf emails w = (Ok tt, w')
    /\ trace w' = trace w ++ concat blocks
    /\ Forall2 block_of emails blocks.
Proof.
  revert w. induction emails as [|email rest IH]; intros w Hs; simpl.
  - exists w, []. simpl. rewrite app_nil_r. repeat split. constructor.
  - unfold bind at 1. unfold get_monitor. rewrite Hs. unfold bind.
    destruct (processEmail_block env config mf email w) as (w1 & evs & Hrun & Hm & Ht & Hb).
    rewrite Hrun.
    destruct (IH w1) as (w2 & blocks & Hrun2 & Ht2 & Hbs); [congruence|].
    exists w2, (evs :: blocks). split; [exact Hrun2|].
    split; [simpl; rewrite Ht2, Ht, <- app_assoc; reflexivity|].
    constructor; assumption.
Qed.

Lemma batch_in_blocks_witness :
  exists w' blocks,
    process_emails Fixtures.env_flag_fails Fixtures.config_auto Fixtures.filter_open
                   [Fixtures.email1; Fixtures.email1] Fixtures.world_empty = (Ok tt, w')
    /\ trace w' = trace Fixtures.world_empty ++ concat blocks
    /\ Forall2 block_of [Fixtures.email1; Fixtures.email1] blocks.
Proof.
  apply (batch_in_blocks Fixtures.env_flag_fails Fixtures.config_auto Fixtures.filter_open
           [Fixtures.email1; Fixtures.email1] Fixtures.world_empty).
  reflexivity.
Defined.

(** *** The trace only grows *)

Lemma extends_ret {A} (a : A) : extends_trace (ret a).
Proof. intros w. exists []. simpl. now rewrite app_nil_r. Qed.

Lemma extends_throw {A} (e : JsError) : extends_trace (@throw A e).
Proof. intros w. exists []. simpl. now rewrite app_nil_r. Qed.

Lemma extends_bind {A B} (m : M A) (k : A -> M B) :
  extends_trace m -> (forall a, extends_trace (k a)) -> extends_trace (bind m k).
Proof.
  intros Hm Hk w. unfold bind. destruct (Hm w) as (e1 & H1).
  destruct (m w) as [[a|e] w']; simpl in *; [|now exists e1].
  destruct (Hk a w') as (e2 & H2). exists (e1 ++ e2). now rewrite H2, H1, app_assoc.
Qed.

Lemma extends_try_catch {A} (m : M A) (h : JsError -> M A) :
  extends_trace m -> (forall e, extends_trace (h e)) -> extends_trace (try_catch m h).
Proof.
  intros Hm Hh w. unfold try_catch. destruct (Hm w) as (e1 & H1).
  destruct (m w) as [[a|e] w']; simpl in *; [now exists e1|].
  destruct (Hh e w') as (e2 & H2). exists (e1 ++ e2). now rewrite H2, H1, app_assoc.
Qed.

Lemma extends_try_finally {A} (m : M A) (fin : M unit) :
  extends_trace m -> extends_trace fin -> extends_trace (try_finally m fin).
Proof.
  intros Hm Hf w. unfold try_finally. destruct (Hm w) as (e1 & H1).
  destruct (m w) as [r w']. simpl in H1. destruct (Hf w') as (e2 & H2).
  destruct (fin w') as [[u|e] w'']; simpl in *; exists (e1 ++ e2);
    now rewrite H2, H1, app_assoc.
Qed.

Lemma extends_same {A} (m : M A) :
  (forall w, trace (snd (m w)) = trace w) -> extends_trace m.
Proof. intros H w. exists []. now rewrite H, app_nil_r. Qed.

Lemma extends_emit e : extends_trace (emit e).
Proof. intros w. now exists [e]. Qed.

Lemma extends_checkInbox env session : extends_trace (checkInbox env session).
Proof.
  apply extends_same. intros w.
  destruct session as [err|msg|msg|msg| |msgs|msgs msg]; simpl; try reflexivity.
  - destruct (on_messages_run env msgs [] w) as (e & w1 & Hrun & Ht & _).
    rewrite Hrun. simpl. now rewrite Ht.
  - unfold bind. destruct (on_messages_run env msgs [] w) as (e & w1 & Hrun & Ht & _).
    rewrite Hrun. simpl. now rewrite Ht.
Qed.

Lemma extends_processEmail env config mf email :
  extends_trace (processEmail env config mf email).
Proof.
  intros w. destruct (processEmail_block env config mf email w) as (w' & evs & Hrun & _ & Ht & _).
  exists evs. now rewrite Hrun.
Qed.

Ltac extends_step :=
  first [ apply extends_ret | apply extends_throw | apply extends_emit
        | apply extends_checkInbox | apply extends_processEmail
        | apply extends_same; intros ?; reflexivity
        | apply extends_bind; [|intros ?]
        | apply extends_try_catch; [|intros ?]
        | apply extends_try_finally ].

Lemma extends_process_emails env config mf emails :
  extends_trace (process_emails env config mf emails).
Proof.
  induction emails as [|email rest IH]; simpl; [apply extends_ret|].
  apply extends_bind; [extends_step|]. intros m.
  destruct (shouldStop m); [apply extends_ret|].
  apply extends_bind; [apply extends_processEmail | intros _; exact IH].
Qed.

Lemma extends_pollInbox env config mf session :
  extends_trace (pollInbox env config mf session).
Proof.
  unfold pollInbox, logActivity. apply extends_bind; [extends_step|]. intros m.
  destruct (_ || _); [apply extends_ret|].
  apply extends_bind; [extends_step|]. intros _.
  apply extends_try_finally; [|extends_step].
  apply extends_try_catch.
  - apply extends_bind; [extends_step|]. intros emails.
    apply extends_bind; [extends_step|]. intros _. apply extends_process_emails.
  - intros e. apply extends_bind; [extends_step|]. intros m'.
    apply extends_bind; [extends_step|]. intros _.
    apply extends_bind; [extends_step|]. intros id.
    apply extends_bind; [extends_step|]. intros ts.
    apply extends_bind; [extends_step|]. intros _.
    destruct (_ <=? _)%nat; repeat extends_step.
Qed.

(** *** [start()] and [stop()] *)

Lemma process_emails_stopped env config mf emails w :
  shouldStop (monitor w) = true ->
  process_emails env config mf emails w = (Ok tt, w).
Proof.
  intros Hs. destruct emails as [|email rest]; [reflexivity|].
  simpl. unfold bind, get_monitor. now rewrite Hs.
Qed.

Lemma bind_run {A B} (m : M A) (k : A -> M B) (w w' : World) (a : A) :
  m w = (Ok a, w') -> bind m k w = k a w'.
Proof. intros H. unfold bind. now rewrite H. Qed.

Lemma process_emails_cons env config mf email rest w :
  shouldStop (monitor w) = false ->
  process_emails env config mf (email :: rest) w
  = (processEmail env config mf email ;; process_emails env config mf rest) w.
Proof. intros Hs. simpl. unfold bind at 1. unfold get_monitor. now rewrite Hs. Qed.

Lemma process_emails_app env config mf first rest : forall w,
  process_emails env config mf (first ++ rest) w
  = (process_emails env config mf first ;; process_emails env config mf rest) w.
Proof.
  induction first as [|email first IH]; intros w.
  - reflexivity.
  - destruct (shouldStop (monitor w)) eqn:Hs.
    + rewrite (bind_run _ _ w w tt) by now apply process_emails_stopped.
      now rewrite !process_emails_stopped.
    + destruct (processEmail_total env config mf email w) as ([] & w1 & Hrun).
      destruct (process_emails_run env config mf first w1) as (w2 & Hrun2 & _).
      assert (H : process_emails env config mf (email :: first) w = (Ok tt, w2)).
      { rewrite process_emails_cons by exact Hs. now rewrite (bind_run _ _ w w1 tt). }
      rewrite (bind_run _ _ w w2 tt) by exact H.
      change ((email :: first) ++ rest) with (email :: (first ++ rest)).
      rewrite process_emails_cons by exact Hs.
      rewrite (bind_run _ _ w w1 tt) by exact Hrun.
      rewrite IH. now rewrite (bind_run _ _ w1 w2 tt).
Qed.

Lemma pollInbox_stopped env config mf session w :
  shouldStop (monitor w) = true ->
  pollInbox env config mf session w = (Ok tt, w).
Proof.
  intros Hs. unfold pollInbox, bind, get_monitor. rewrite Hs.
  now rewrite orb_true_r.
Qed.

Lemma pollInbox_run env config mf session w :
  isProcessing (monitor w) = false ->
  shouldStop (monitor w) = false ->
  exists w',
    pollInbox env config mf session w = (Ok tt, w')
    /\ monitor w' = mkMonitorState (isRunning (monitor w)) false false
                      (if fails session then S (consecutiveFailures (monitor w)) else 0)
                      (intervalId (monitor w)).
Proof.
  intros Hp Hs. destruct (fails session) eqn:Hf.
  - destruct (pollInbox_failure env config mf session w Hp Hs Hf)
      as (evs & w' & Hrun & Hm & _).
    now exists w'.
  - destruct (pollInbox_success env config mf session w Hp Hs Hf) as (w' & Hrun & Hm).
    now exists w'.
Qed.

Lemma start_once_run (env : Env) (config : AutoResponderConfig)
    (mf : Filter.MessageFilter) (session : ImapSession) (w : World) :
  isRunning (monitor w) = false ->
  isProcessing (monitor w) = false ->
  exists w1 evs,
    start env config mf session w = (Ok tt, w1)
    /\ monitor w1 = mkMonitorState true false false (if fails session then 1 else 0) true
    /\ trace w1
       = trace w
         ++ EvLog (mkActivityLog (randomUUID env (uuids w)) (now env (ticks w))
                     email_filtered "system" None "EmailMonitor started" []) :: evs
    /\ forall session',
         start env config mf session' w1
         = (Throw (Error "EmailMonitor is already running"), w1).
Proof.
  intros Hr Hp. unfold start. unfold bind at 1. unfold get_monitor at 1. rewrite Hr.
  unfold bind at 1. unfold set_isRunning at 1.
  unfold bind at 1. unfold set_shouldStop at 1.
  unfold bind at 1. unfold set_consecutiveFailures at 1.
  unfold bind at 1. unfold fresh_uuid at 1.
  unfold bind at 1. unfold new_Date at 1.
  unfold bind at 1. unfold logActivity at 1, emit at 1.
  unfold bind at 1. unfold set_intervalId at 1. cbv beta iota zeta. simpl.
  match goal with |- context [pollInbox env config mf session ?w0] =>
    destruct (pollInbox_run env config mf session w0 Hp eq_refl)
      as (w1 & Hrun & Hm);
    pose proof (extends_pollInbox env config mf session w0) as Htr
  end.
  rewrite Hrun in Htr.
  destruct Htr as (evs & Htr). simpl in Htr, Hm.
  exists w1, evs. split; [exact Hrun|]. split; [exact Hm|].
  split; [rewrite Htr, <- app_assoc; reflexivity|].
  intros session'. unfold bind, get_monitor. now rewrite Hm.
Qed.

(** X12. [start()] on a monitor that is not running returns normally: it
    logs "EmailMonitor started" before anything else, arms the timer,
    clears a stop request left by an earlier [stop()], and runs one poll
    cycle at once, whose failure it swallows (the counter then reads 1).
    A second [start()] throws "EmailMonitor is already running" and leaves
    the service exactly as it was. *)
Theorem start_once (env : Env) (config : AutoResponderConfig)
    (mf : Filter.MessageFilter) (session : ImapSession) (w : World) :
  isRunning (monitor w) = false ->
  isProcessing (monitor w) = false ->
  exists w1 evs,
    start env config mf session w = (Ok tt, w1)
    /\ monitor w1 = mkMonitorState true false false (if fails session then 1 else 0) true
    /\ trace w1
       = trace w
         ++ EvLog (mkActivityLog (randomUUID env (uuids w)) (now env (ticks w))
                     email_filtered "system" None "EmailMonitor started" []) :: evs
    /\ forall session',
         start env config mf session' w1
         = (Throw (Error "EmailMonitor is already running"), w1).
Proof. exact (start_once_run env config mf session w). Qed.

Lemma start_once_witness :
  let w := with_monitor (mkMonitorState false false false 3 false) Fixtures.world_empty in
  exists w1 evs,
    start Fixtures.env_ok Fixtures.config_auto Fixtures.filter_open
          (ConnectThrows "ECONNREFUSED") w = (Ok tt, w1)
    /\ monitor w1 = mkMonitorState true false false 1 true
    /\ trace w1
       = EvLog (mkActivityLog "uuid-0" 0 email_filtered "system" None
                  "EmailMonitor started" []) :: evs
    /\ forall session',
         start Fixtures.env_ok Fixtures.config_auto Fixtures.filter_open session' w1
         = (Throw (Error "EmailMonitor is already running"), w1).
Proof.
  exact (start_once Fixtures.env_ok Fixtures.config_auto Fixtures.filter_open
           (ConnectThrows "ECONNREFUSED")
           (with_monitor (mkMonitorState false false false 3 false) Fixtures.world_empty)
           eq_refl eq_refl).
Defined.

Lemma stop_request_run w :
  isRunning (monitor w) = true ->
  stop_request w
  = (Ok (if isProcessing (monitor w) then StopWaiting else StopReady),
     with_monitor (mkMonitorState true (isProcessing (monitor w)) true
                     (consecutiveFailures (monitor w)) false) w).
Proof.
  intros Hr. unfold stop_request, bind, get_monitor, set_shouldStop, set_intervalId, ret.
  rewrite Hr. simpl. rewrite Hr. destruct w as [h n p t u k m]. reflexivity.
Qed.

(** X13. [stop()] on a running monitor with no cycle in flight: the stop
    flag is set, the timer disarmed, [isRunning] cleared and one entry
    "EmailMonitor stopped" logged; the replies and the pending queue are
    left as they are. From then on a poll cycle does nothing at all and a
    second [stop()] is a no-op, while [start()] brings the monitor back
    with the stop flag cleared. *)
Theorem stop_then_restart (env : Env) (config : AutoResponderConfig)
    (mf : Filter.MessageFilter) (session : ImapSession) (w : World) :
  isRunning (monitor w) = true ->
  isProcessing (monitor w) = false ->
  exists w1 w2,
    stop_idle env w = (Ok true, w1)
    /\ monitor w1
       = mkMonitorState false false true (consecutiveFailures (monitor w)) false
    /\ heap w1 = heap w /\ pendingReplies w1 = pendingReplies w
    /\ trace w1
       = trace w ++ [EvLog (mkActivityLog (randomUUID env (uuids w)) (now env (ticks w))
                              email_filtered "system" None "EmailMonitor stopped" [])]
    /\ (forall s, pollInbox env config mf s w1 = (Ok tt, w1))
    /\ stop_idle env w1 = (Ok true, w1)
    /\ start env config mf session w1 = (Ok tt, w2)
    /\ monitor w2 = mkMonitorState true false false (if fails session then 1 else 0) true.
Proof.
  intros Hr Hp.
  assert (Hstop : exists w1,
             stop_idle env w = (Ok true, w1)
             /\ monitor w1
                = mkMonitorState false false true (consecutiveFailures (monitor w)) false
             /\ heap w1 = heap w /\ pendingReplies w1 = pendingReplies w
             /\ trace w1
                = trace w ++ [EvLog (mkActivityLog (randomUUID env (uuids w))
                                       (now env (ticks w)) email_filtered "system" None
                                       "EmailMonitor stopped" [])]).
  { unfold stop_idle. rewrite (bind_run _ _ _ _ _ (stop_request_run w Hr)).
    rewrite Hp. unfold stop_finish, bind, set_isRunning, fresh_uuid, new_Date,
      logActivity, emit. simpl. eexists. split; [reflexivity|]. simpl. auto. }
  destruct Hstop as (w1 & Hrun & Hm & Hh & Hq & Ht).
  assert (Hr1 : isRunning (monitor w1) = false) by now rewrite Hm.
  assert (Hp1 : isProcessing (monitor w1) = false) by now rewrite Hm.
  destruct (start_once_run env config mf session w1 Hr1 Hp1) as (w2 & evs & Hrun2 & Hm2 & _).
  exists w1, w2. repeat (split; [assumption|]).
  split; [intros s; apply pollInbox_stopped; now rewrite Hm|].
  split; [|now split].
  unfold stop_idle, stop_request, bind, get_monitor. now rewrite Hr1.
Qed.

Lemma stop_then_restart_witness :
  exists w1 w2,
    stop_idle Fixtures.env_ok Fixtures.world_empty = (Ok true, w1)
    /\ monitor w1 = mkMonitorState false false true 0 false
    /\ (forall s, pollInbox Fixtures.env_ok Fixtures.config_auto Fixtures.filter_open s w1
                  = (Ok tt, w1))
    /\ start Fixtures.env_ok Fixtures.config_auto Fixtures.filter_open SearchEmpty w1
       = (Ok tt, w2)
    /\ monitor w2 = mkMonitorState true false false 0 true.
Proof.
  destruct (stop_then_restart Fixtures.env_ok Fixtures.config_auto Fixtures.filter_open
              SearchEmpty Fixtures.world_empty eq_refl eq_refl)
    as (w1 & w2 & H1 & H2 & _ & _ & _ & H3 & _ & H4 & H5).
  exists w1, w2. auto.
Defined.

(** X14. A stop requested while a batch is being worked through takes
    effect at the next email: the emails handled so far keep their
    effects, and the rest of the batch is left untouched (no reply, no
    event, not marked read), whereas without the request the loop would
    have gone on with them. [stop()] then has to wait exactly when the
    request fell into a running cycle. *)
Theorem stop_cuts_batch (env : Env) (config : AutoResponderConfig)
    (mf : Filter.MessageFilter) (first rest : list Email) (w : World) :
  isRunning (monitor w) = true ->
  exists w1 w2 phase,
    process_emails env config mf first w = (Ok tt, w1)
    /\ process_emails env config mf (first ++ rest) w
       = process_emails env config mf rest w1
    /\ stop_request w1 = (Ok phase, w2)
    /\ phase = (if isProcessing (monitor w) then StopWaiting else StopReady)
    /\ heap w2 = heap w1 /\ pendingReplies w2 = pendingReplies w1 /\ trace w2 = trace w1
    /\ process_emails env config mf rest w2 = (Ok tt, w2).
Proof.
  intros Hr.
  destruct (process_emails_run env config mf first w) as (w1 & Hrun & Hm).
  assert (Hr1 : isRunning (monitor w1) = true) by now rewrite Hm.
  eexists w1, _, _. split; [exact Hrun|].
  split; [rewrite process_emails_app;
          exact (bind_run _ (fun _ => process_emails env config mf rest) w w1 tt Hrun)|].
  split; [exact (stop_request_run w1 Hr1)|].
  split; [now rewrite Hm|].
  repeat (split; [reflexivity|]).
  now apply process_emails_stopped.
Qed.

Lemma stop_cuts_batch_witness :
  exists w1 w2 phase,
    process_emails Fixtures.env_ok Fixtures.config_auto Fixtures.filter_open
                   [Fixtures.email1] Fixtures.world_empty = (Ok tt, w1)
    /\ stop_request w1 = (Ok phase, w2)
    /\ trace w2 = trace w1
    /\ process_emails Fixtures.env_ok Fixtures.config_auto Fixtures.filter_open
                      [Fixtures.email1; Fixtures.email1] w2 = (Ok tt, w2).
Proof.
  destruct (stop_cuts_batch Fixtures.env_ok Fixtures.config_auto Fixtures.filter_open
              [Fixtures.email1] [Fixtures.email1; Fixtures.email1] Fixtures.world_empty
              eq_refl)
    as (w1 & w2 & phase & H1 & _ & H2 & _ & _ & _ & H3 & H4).
  exists w1, w2, phase. auto.
Defined.

(** *** The store invariant *)

Lemma keeps_same {A} (m : M A) :
  (forall w, heap (snd (m w)) = heap w /\ next_ref (snd (m w)) = next_ref w
             /\ pendingReplies (snd (m w)) = pendingReplies w) ->
  keeps_world_ok m.
Proof.
  intros H w Hw. destruct (H w) as (Hh & Hn & Hp). exact (world_ok_same w _ Hh Hn Hp Hw).
Qed.

Lemma keeps_try_finally {A} (m : M A) (fin : M unit) :
  keeps_world_ok m -> keeps_world_ok fin -> keeps_world_ok (try_finally m fin).
Proof.
  intros Hm Hf w Hw. unfold try_finally. specialize (Hm w Hw).
  destruct (m w) as [r w']. simpl in Hm. specialize (Hf w' Hm).
  destruct (fin w') as [[u|e] w'']; exact Hf.
Qed.

Lemma keeps_checkInbox env session : keeps_world_ok (checkInbox env session).
Proof.
  apply keeps_same. intros w.
  destruct session as [err|msg|msg|msg| |msgs|msgs msg]; simpl; try (now repeat split).
  - destruct (on_messages_run env msgs [] w) as (e & w1 & Hrun & Ht & _).
    rewrite Hrun. simpl. now rewrite Ht.
  - unfold bind. destruct (on_messages_run env msgs [] w) as (e & w1 & Hrun & Ht & _).
    rewrite Hrun. simpl. now rewrite Ht.
Qed.

Ltac keeps_more :=
  first [ keeps_step | apply keeps_checkInbox
        | apply keeps_same; intros ?; now repeat split
        | apply keeps_try_finally ].

Lemma keeps_process_emails env config mf emails :
  keeps_world_ok (process_emails env config mf emails).
Proof.
  induction emails as [|email rest IH]; simpl; [apply keeps_ret|].
  apply keeps_bind; [keeps_more|]. intros m.
  destruct (shouldStop m); [apply keeps_ret|].
  apply keeps_bind; [apply keeps_processEmail | intros _; exact IH].
Qed.

Lemma keeps_pollInbox env config mf session :
  keeps_world_ok (pollInbox env config mf session).
Proof.
  unfold pollInbox. apply keeps_bind; [keeps_more|]. intros m.
  destruct (_ || _); [apply keeps_ret|].
  apply keeps_bind; [keeps_more|]. intros _.
  apply keeps_try_finally; [|keeps_more].
  apply keeps_try_catch.
  - apply keeps_bind; [keeps_more|]. intros emails.
    apply keeps_bind; [keeps_more|]. intros _. apply keeps_process_emails.
  - intros e. apply keeps_bind; [keeps_more|]. intros m'.
    apply keeps_bind; [keeps_more|]. intros _.
    apply keeps_bind; [keeps_more|]. intros id.
    apply keeps_bind; [keeps_more|]. intros ts.
    apply keeps_bind; [keeps_more|]. intros _.
    destruct (_ <=? _)%nat; repeat keeps_more.
Qed.

Lemma keeps_start env config mf session : keeps_world_ok (start env config mf session).
Proof.
  unfold start. apply keeps_bind; [keeps_more|]. intros m.
  destruct (isRunning m); [apply keeps_throw|].
  do 7 (apply keeps_bind; [keeps_more|]; intros ?). apply keeps_pollInbox.
Qed.

Lemma keeps_stop_idle env : keeps_world_ok (stop_idle env).
Proof.
  unfold stop_idle, stop_request, stop_finish.
  apply keeps_bind.
  - apply keeps_bind; [keeps_more|]. intros m.
    destruct (negb _); [apply keeps_ret|]. repeat keeps_more.
  - intros []; unfold stop_finish; repeat keeps_more.
Qed.

(** X15. The pending queue never dangles. Starting from a store in which
    every queue entry refers to a stored reply filed under its own id, and
    no reference beyond the allocation pointer is in use, the same holds
    after any sequence of poll cycles, confirmations, starts and stops,
    whatever the mail servers answer and whichever of the calls throw. *)
Theorem store_invariant (env : Env) (config : AutoResponderConfig)
    (mf : Filter.MessageFilter) (calls : list Call) (w : World) :
  world_ok w -> world_ok (run_calls env config mf calls w).
Proof.
  revert w. induction calls as [|c rest IH]; intros w Hw; simpl; [exact Hw|].
  apply IH. destruct c as [s|replyId approve|s|]; simpl.
  - now apply keeps_pollInbox.
  - now apply keeps_processConfirmation.
  - now apply keeps_start.
  - now apply (keeps_bind _ _ (keeps_stop_idle env) (fun _ => keeps_ret tt)).
Qed.

Lemma store_invariant_witness :
  world_ok (run_calls Fixtures.env_flag_fails Fixtures.config_manual Fixtures.filter_open
              [CallPoll (FetchEnds [Fixtures.msg_without_to]);
               CallConfirm "uuid-0" true; CallStop; CallConfirm "uuid-0" false;
               CallStart (SearchFails "BAD")]
              Fixtures.world_empty).
Proof.
  apply store_invariant. exact world_ok_empty.
Defined.

End MonitorMore.

(** ** Configuration: the manager, the routes and the hot reload *)

Module ConfigMore.
Import ConfigManager ConfigSpec MoreSpec ConfigFacts Routes.

Section Manager.
Context {S : Type}.
Implicit Types (m : Manager S).

Lemma getConfig_run (db : Db) m m1 (c : Config) :
  getConfig db m = (inl c, m1) ->
  dbReady db = None
  /\ currentConfig m1 = Some c
  /\ listeners m1 = listeners m /\ app m1 = app m
  /\ calls m1 = calls m /\ console m1 = console m.
Proof.
  unfold getConfig. destruct (dbReady db); [discriminate|].
  destruct (currentConfig m) eqn:Hc; [intros [= <- <-]; auto 10|].
  destruct (db_get db); try discriminate; intros [= <- <-]; auto 10.
Qed.

Lemma getConfig_hit (db : Db) m (c : Config) :
  dbReady db = None -> currentConfig m = Some c -> getConfig db m = (inl c, m).
Proof. intros Hr Hc. unfold getConfig. now rewrite Hr, Hc. Qed.

(** X16. The configuration is read from the database at most once: after
    a [getConfig] that succeeded, every later [getConfig] answers with the
    same configuration from the cache, whatever the database would say by
    then (another row, no row, or an error), and changes nothing. A first
    read also touches neither the subscribers nor what they act upon. *)
Theorem getConfig_cached (db db' : Db) (m m1 : Manager S) (c : Config) :
  getConfig db m = (inl c, m1) ->
  dbReady db' = None ->
  getConfig db' m1 = (inl c, m1)
  /\ listeners m1 = listeners m /\ app m1 = app m /\ calls m1 = calls m.
Proof.
  intros Hget Hr. destruct (getConfig_run db m m1 c Hget) as (_ & Hc & Hl & Ha & Hcalls & _).
  split; [now apply getConfig_hit | auto].
Qed.

Lemma spread_lookup (current : gmap string JSValue) update (k : string) :
  spread current update !! k = overlay current update k.
Proof.
  unfold spread, overlay. destruct update as [o|]; [|reflexivity].
  rewrite lookup_union. destruct (o !! k), (current !! k); reflexivity.
Qed.

Lemma updateConfig_run (db : Db) (u : ConfigUpdate) m m1 :
  updateConfig db u m = (inl tt, m1) ->
  exists current m0,
    getConfig db m = (inl current, m0)
    /\ validateConfig u = None
    /\ db_run db = RunOk
    /\ m1 = notifyListeners (merge current u) (set_currentConfig (merge current u) m0).
Proof.
  unfold updateConfig. destruct (dbReady db) eqn:Hr; [discriminate|].
  destruct (validateConfig u); [discriminate|].
  destruct (getConfig db m) as [[current|err] m0]; [|discriminate].
  destruct (db_run db); [|discriminate]. intros [= <-]. now exists current, m0.
Qed.

(** X17. What an accepted update leaves behind is the shallow merge of
    each section: under every key, the value the update gives it when the
    update's section has that key, and the former value otherwise; a
    section the update does not mention keeps all its keys. This merged
    configuration is what every later [getConfig] returns. *)
Theorem update_then_get (db db' : Db) (u : ConfigUpdate) (m m1 : Manager S) :
  updateConfig db u m = (inl tt, m1) ->
  dbReady db' = None ->
  exists current m0 new,
    getConfig db m = (inl current, m0)
    /\ getConfig db' m1 = (inl new, m1)
    /\ (forall k, email new !! k = overlay (email current) (upd_email u) k)
    /\ (forall k, filters new !! k = overlay (filters current) (upd_filters u) k)
    /\ (forall k, autoReply new !! k = overlay (autoReply current) (upd_autoReply u) k).
Proof.
  intros Hup Hr. destruct (updateConfig_run db u m m1 Hup) as (current & m0 & Hget & _ & _ & ->).
  exists current, m0, (merge current u). split; [exact Hget|].
  split.
  - apply getConfig_hit; [exact Hr|]. unfold notifyListeners.
    destruct (notify_from_run (listeners (set_currentConfig (merge current u) m0))
                (merge current u) 0 (set_currentConfig (merge current u) m0))
      as (_ & H2 & _).
    now rewrite H2.
  - repeat split; intros k; apply spread_lookup.
Qed.

(** X18. An update that cannot be written is not applied at all: when
    the database write fails, [updateConfig] rejects with the database's
    error, no subscriber is called, and the next [getConfig] still returns
    the configuration from before the update. *)
Theorem update_write_failure (db : Db) (u : ConfigUpdate) (m m0 : Manager S)
    (current : Config) (err : string) :
  validateConfig u = None ->
  getConfig db m = (inl current, m0) ->
  db_run db = RunFails err ->
  updateConfig db u m = (inr err, m0)
  /\ calls m0 = calls m /\ app m0 = app m /\ console m0 = console m
  /\ getConfig db m0 = (inl current, m0).
Proof.
  intros Hv Hget Hrun.
  destruct (getConfig_run db m m0 current Hget) as (Hr & Hc & _ & Ha & Hcalls & Hcons).
  unfold updateConfig. rewrite Hr, Hv, Hget, Hrun.
  repeat (split; [assumption || reflexivity|]). now apply getConfig_hit.
Qed.

End Manager.

Lemma getConfig_cached_witness :
  let m : Manager (list string) := mkManager [] None [] [] [] in
  let busy := mkDb None (GetFails "SQLITE_BUSY") RunOk in
  getConfig Fixtures.db_ok m = (inl defaultConfig, set_currentConfig defaultConfig m)
  /\ getConfig busy m = (inr "SQLITE_BUSY", m)
  /\ getConfig busy (set_currentConfig defaultConfig m)
     = (inl defaultConfig, set_currentConfig defaultConfig m).
Proof.
  split; [reflexivity|]. split; [reflexivity|].
  exact (proj1 (getConfig_cached Fixtures.db_ok (mkDb None (GetFails "SQLITE_BUSY") RunOk)
                  (mkManager [] None [] [] []) _ defaultConfig eq_refl eq_refl)).
Defined.

Lemma update_then_get_witness :
  exists m1 new,
    updateConfig Fixtures.db_ok Fixtures.update_zero_interval Fixtures.manager0
    = (inl tt, m1)
    /\ getConfig Fixtures.db_ok m1 = (inl new, m1)
    /\ autoReply new !! "checkInterval" = Some (JNum 0)
    /\ email new !! "imapPort" = Some (JNum 993).
Proof.
  destruct (update_then_get Fixtures.db_ok Fixtures.db_ok Fixtures.update_zero_interval
              Fixtures.manager0
              (snd (updateConfig Fixtures.db_ok Fixtures.update_zero_interval
                      Fixtures.manager0))
              eq_refl eq_refl)
    as (current & m0 & new & Hget & Hget' & He & _ & Ha).
  injection Hget as <- <-.
  eexists _, new. split; [reflexivity|]. split; [exact Hget'|].
  rewrite Ha, He. split; reflexivity.
Defined.

Lemma update_write_failure_witness :
  let db := mkDb None NoRow (RunFails "SQLITE_FULL") in
  exists m0,
    updateConfig db Fixtures.update_zero_interval Fixtures.manager0
    = (inr "SQLITE_FULL", m0)
    /\ calls m0 = [] /\ app m0 = []
    /\ getConfig db m0 = (inl defaultConfig, m0).
Proof.
  destruct (update_write_failure (mkDb None NoRow (RunFails "SQLITE_FULL"))
              Fixtures.update_zero_interval Fixtures.manager0 Fixtures.manager0
              defaultConfig "SQLITE_FULL" eq_refl eq_refl eq_refl)
    as (H1 & H2 & H3 & _ & H4).
  exists Fixtures.manager0. auto.
Defined.

(** *** The route's validation against the manager's *)

Lemma truthy_defined (v : JSValue) : truthy v = true -> defined v = true.
Proof. now destruct v. Qed.

Lemma guard_weaker (v : JSValue) (b : bool) :
  defined v && b = false -> truthy v && b = false.
Proof.
  destruct (truthy v) eqn:Ht; [|reflexivity].
  now rewrite (truthy_defined v Ht).
Qed.

Ltac pass_check H :=
  repeat match type of H with
         | (if ?c then Some _ else _) = None =>
             let Hc := fresh "Hc" in
             destruct c eqn:Hc; [discriminate H|];
             first [ rewrite (guard_weaker _ _ Hc) | rewrite Hc | idtac ]
         end.

Lemma check_email_stricter o : check_email o = None -> validate_email o = None.
Proof. unfold check_email, validate_email. intros H. pass_check H. reflexivity. Qed.

Lemma check_filters_stricter o : check_filters o = None -> validate_filters o = None.
Proof.
  unfold check_filters, validate_filters, defined in *. intros H. pass_check H. reflexivity.
Qed.

Lemma check_autoReply_stricter o : check_autoReply o = None -> validate_autoReply o = None.
Proof.
  unfold check_autoReply, validate_autoReply. intros H.
  destruct (defined (prop o "manualConfirmation") && _) eqn:H1; [discriminate|].
  unfold defined in H1. rewrite H1. pass_check H. reflexivity.
Qed.

(** X19. The validation in front of PUT /api/config is at least as strict
    as the manager's own: a request body that the middleware lets through
    is never rejected by [validateConfig], so behind the route an update
    can only fail on the database. *)
Theorem route_validation_stricter (body : ConfigUpdate) :
  validateConfigUpdate body = None -> validateConfig body = None.
Proof.
  unfold validateConfigUpdate, validateConfig. intros H.
  destruct (validate_section check_email (upd_email body)) eqn:He; [discriminate|].
  destruct (validate_section check_filters (upd_filters body)) eqn:Hf; [discriminate|].
  destruct (upd_email body) as [oe|], (upd_filters body) as [ofl|],
    (upd_autoReply body) as [oa|]; simpl in *;
    rewrite ?(check_email_stricter _ He), ?(check_filters_stricter _ Hf),
      ?(check_autoReply_stricter _ H); reflexivity.
Qed.

Lemma route_validation_stricter_witness :
  validateConfigUpdate Fixtures.update_zero_interval <> None
  /\ validateConfig (mkConfigUpdate None (Some (<["keywords" := JArr [JNum 1]]> ∅)) None)
     = None.
Proof.
  split; [discriminate|].
  exact (route_validation_stricter
           (mkConfigUpdate None (Some (<["keywords" := JArr [JNum 1]]> ∅)) None) eq_refl).
Defined.

Lemma nonpositive_checked (v : JSValue) (z : Z) :
  v = JNum z -> (z <= 0)%Z ->
  defined v && (not_number v || le_zero v) = true.
Proof. intros -> Hz. simpl. now apply Z.leb_le. Qed.

Lemma check_email_nonpositive o z :
  (prop o "imapPort" = JNum z \/ prop o "smtpPort" = JNum z) -> (z <= 0)%Z ->
  exists msg, check_email o = Some msg.
Proof.
  intros Hp Hz. unfold check_email.
  destruct (defined (prop o "imapHost") && _); [eauto|].
  destruct (defined (prop o "imapPort") && _) eqn:H1; [eauto|].
  destruct (defined (prop o "smtpHost") && _); [eauto|].
  destruct Hp as [Hp|Hp].
  - rewrite (nonpositive_checked _ z Hp Hz) in H1. discriminate.
  - rewrite (nonpositive_checked _ z Hp Hz). eauto.
Qed.

Lemma check_autoReply_nonpositive o z :
  prop o "checkInterval" = JNum z -> (z <= 0)%Z ->
  exists msg, check_autoReply o = Some msg.
Proof.
  intros Hp Hz. unfold check_autoReply.
  destruct (defined (prop o "manualConfirmation") && _); [eauto|].
  destruct (defined (prop o "replyTemplate") && _); [eauto|].
  rewrite (nonpositive_checked _ z Hp Hz). eauto.
Qed.

(** X20. PUT /api/config refuses every update that sets a port or the
    check interval to zero or to a negative number: the answer is 400,
    the manager is not called, so the cached configuration, the
    subscribers and what they act upon stay as they were. *)
Theorem put_config_nonpositive {S : Type} (db : Db) (body : ConfigUpdate)
    (m : Manager S) :
  has_nonpositive_number body ->
  exists msg, put_config db body m = (mkResponse 400 (ErrorBody msg), m).
Proof.
  intros Hneg. unfold put_config.
  assert (H : exists msg, validateConfigUpdate body = Some msg).
  { unfold validateConfigUpdate.
    destruct Hneg as [(o & z & Ho & Hp & Hz) | (o & z & Ho & Hp & Hz)].
    - rewrite Ho. simpl. destruct (check_email_nonpositive o z Hp Hz) as (msg & ->). eauto.
    - destruct (validate_section check_email _); [eauto|].
      destruct (validate_section check_filters _); [eauto|].
      rewrite Ho. simpl. apply (check_autoReply_nonpositive o z Hp Hz). }
  destruct H as (msg & ->). now exists msg.
Qed.

Lemma put_config_nonpositive_witness :
  put_config Fixtures.db_ok Fixtures.update_zero_interval Fixtures.manager0
  = (mkResponse 400 (ErrorBody "Invalid checkInterval: must be a positive number"),
     Fixtures.manager0).
Proof.
  destruct (put_config_nonpositive Fixtures.db_ok Fixtures.update_zero_interval
              Fixtures.manager0) as (msg & H).
  - right. exists (<["manualConfirmation" := JBool true]>
                   (<["replyTemplate" := JStr "Thanks"]>
                    (<["checkInterval" := JNum 0]> ∅))), 0%Z.
    split; [reflexivity|]. split; [reflexivity | lia].
  - reflexivity.
Defined.

(** *** The password in the responses *)

Lemma safeConfig_password (c : Config) :
  prop (email (safeConfig c)) "password"
  = JStr (if truthy (prop (email c) "password") then "********" else "")
  /\ (forall k, k <> "password" -> email (safeConfig c) !! k = email c !! k)
  /\ filters (safeConfig c) = filters c
  /\ autoReply (safeConfig c) = autoReply c.
Proof.
  unfold safeConfig, prop. simpl. rewrite lookup_insert_eq.
  repeat split. intros k Hk. now rewrite lookup_insert_ne.
Qed.

(** X21. No response of GET or PUT /api/config carries the stored
    password: whenever either route answers with a configuration, its
    password field is eight stars when a password is stored and the empty
    string when none is, and every other field is the one of the
    configuration that [getConfig] holds after the request. *)
Theorem config_routes_mask_password {S : Type} (db : Db) (body : option ConfigUpdate)
    (m m1 : Manager S) (code : nat) (note : option string) (shown : Config) :
  match body with
  | None => get_config db m
  | Some u => put_config db u m
  end = (mkResponse code (ConfigBody note shown), m1) ->
  exists stored,
    getConfig db m1 = (inl stored, m1)
    /\ code = 200
    /\ prop (email shown) "password"
       = JStr (if truthy (prop (email stored) "password") then "********" else "")
    /\ (forall k, k <> "password" -> email shown !! k = email stored !! k)
    /\ filters shown = filters stored
    /\ autoReply shown = autoReply stored.
Proof.
  destruct body as [u|].
  - unfold put_config. destruct (validateConfigUpdate u); [discriminate|].
    destruct (updateConfig db u m) as [[[]|err] m0]; [|discriminate].
    destruct (getConfig db m0) as [[c|err] m2] eqn:Hget; [|discriminate].
    intros [= <- <- <- <-]. exists c.
    destruct (getConfig_run db m0 m2 c Hget) as (Hr & Hc & _).
    split; [now apply getConfig_hit|]. split; [reflexivity|]. apply safeConfig_password.
  - unfold get_config.
    destruct (getConfig db m) as [[c|err] m2] eqn:Hget; [|discriminate].
    intros [= <- <- <- <-]. exists c.
    destruct (getConfig_run db m m2 c Hget) as (Hr & Hc & _).
    split; [now apply getConfig_hit|]. split; [reflexivity|]. apply safeConfig_password.
Qed.

Lemma config_routes_mask_password_witness :
  let secret := mkConfigUpdate (Some (<["password" := JStr "hunter2"]> ∅)) None None in
  exists shown m1,
    put_config Fixtures.db_ok secret Fixtures.manager0
    = (mkResponse 200 (ConfigBody (Some "Configuration updated successfully") shown), m1)
    /\ prop (email shown) "password" = JStr "********"
    /\ exists stored, currentConfig m1 = Some stored
                      /\ prop (email stored) "password" = JStr "hunter2".
Proof.
  intros secret.
  destruct (put_config Fixtures.db_ok secret Fixtures.manager0) as [[code [e|msg id|note shown]] m1] eqn:Hput;
    try (vm_compute in Hput; discriminate).
  destruct (config_routes_mask_password Fixtures.db_ok (Some secret) Fixtures.manager0
              m1 code note shown Hput) as (stored & Hget & -> & Hpw & _).
  vm_compute in Hput. injection Hput as <- <- <-.
  eexists _, _. split; [reflexivity|]. split; [reflexivity|].
  eexists. split; reflexivity.
Defined.

(** *** The hot reload of the message filter *)

Lemma lower_all_strings (var : string) (l : list string) :
  HotReload.lower_all var (map JStr l) = inl (map toLowerCase l).
Proof. induction l as [|s l IH]; simpl; [reflexivity|]. now rewrite IH. Qed.

Lemma hot_reload_strings (c : Config) (a : HotReload.App) (kws ds : list string) :
  prop (filters c) "keywords" = strings kws ->
  prop (filters c) "excludedDomains" = strings ds ->
  HotReload.hot_reload c a
  = (HotReload.mkApp
       (Filter.MessageFilter_new
          (Filter.mkFilterConfig (truthy (prop (filters c) "keywordsEnabled")) kws ds))
       (HotReload.app_stdout a
          ++ ["Configuration updated, applying changes...";
              "✓ Configuration hot-reloaded"]),
     None).
Proof.
  intros Hk Hd. unfold HotReload.hot_reload, HotReload.map_lower, strings in *.
  rewrite Hk, Hd, !lower_all_strings. cbv zeta. now rewrite <- app_assoc.
Qed.

Lemma lower_all_fails (var : string) (items : list JSValue) :
  Validation.string_array (JArr items) = false ->
  exists err, HotReload.lower_all var items = inr err.
Proof.
  simpl. induction items as [|x items IH]; simpl; [discriminate|].
  destruct x; simpl; eauto.
  intros H. destruct (IH H) as (err & ->). eauto.
Qed.

Lemma updateConfig_single (db : Db) (u : ConfigUpdate)
    (m m1 : Manager HotReload.App) :
  listeners m = [HotReload.hot_reload] ->
  updateConfig db u m = (inl tt, m1) ->
  exists new,
    currentConfig m1 = Some new
    /\ app m1 = fst (HotReload.hot_reload new (app m))
    /\ console m1 = console m
                    ++ match snd (HotReload.hot_reload new (app m)) with
                       | Some err => ["Error notifying config listener: " +:+ err]
                       | None => []
                       end.
Proof.
  intros Hl Hup. destruct (updateConfig_run db u m m1 Hup) as (current & m0 & Hget & _ & _ & ->).
  destruct (getConfig_run db m m0 current Hget) as (_ & _ & Hl0 & Ha & _ & Hc).
  exists (merge current u). unfold notifyListeners. cbn [listeners set_currentConfig].
  rewrite Hl0, Hl. cbn [notify_from]. cbn [app set_currentConfig]. rewrite Ha.
  destruct (HotReload.hot_reload (merge current u) (app m)) as [s' [err|]]; simpl;
    rewrite ?Hc, ?app_nil_r; auto.
Qed.



(** X23. An update can be saved and yet applied by half. The validation
    asks of [excludedDomains] only that it is an array; when one of its
    elements is not a string, [updateConfig] still resolves and caches the
    new configuration, but the subscriber throws after it has replaced the
    keywords: the running filter then has the new keywords together with
    the former excluded domains and the former [keywordsEnabled]. The
    failure shows as one line written with [console.error]; of the
    subscriber's two [console.log] lines only the first is written. *)
Theorem update_half_applied (db : Db) (u : ConfigUpdate)
    (m m1 : Manager HotReload.App) (new : Config) (kws : list string)
    (items : list JSValue) :
  listeners m = [HotReload.hot_reload] ->
  updateConfig db u m = (inl tt, m1) ->
  currentConfig m1 = Some new ->
  prop (filters new) "keywords" = strings kws ->
  prop (filters new) "excludedDomains" = JArr items ->
  Validation.string_array (JArr items) = false ->
  exists err,
    app m1
    = HotReload.mkApp
        (Filter.mkMessageFilter (Filter.KeywordMatcher_new kws)
                                (Filter.mf_domainFilter (HotReload.app_filter (app m)))
                                (Filter.mf_keywordsEnabled (HotReload.app_filter (app m))))
        (HotReload.app_stdout (app m) ++ ["Configuration updated, applying changes..."])
    /\ console m1 = console m ++ ["Error notifying config listener: " +:+ err].
Proof.
  intros Hl Hup Hc Hk Hd Hbad.
  destruct (updateConfig_single db u m m1 Hl Hup) as (new' & Hc' & Ha & Hcons).
  rewrite Hc in Hc'. injection Hc' as <-.
  destruct (lower_all_fails "d" items Hbad) as (err & Herr).
  exists err. revert Ha Hcons.
  unfold HotReload.hot_reload, HotReload.map_lower, strings in *.
  rewrite Hk, Hd, lower_all_strings, Herr. simpl. auto.
Qed.

Lemma update_half_applied_witness :
  let u := mkConfigUpdate None
             (Some (<["keywordsEnabled" := JBool true]>
                    (<["keywords" := strings ["URGENT"]]>
                     (<["excludedDomains" := JArr [JNum 7]]> ∅)))) None in
  let m := mkManager [HotReload.hot_reload] None
                     (HotReload.mkApp Fixtures.filter_open []) [] [] in
  exists m1,
    validateConfigUpdate u = None
    /\ updateConfig Fixtures.db_ok u m = (inl tt, m1)
    /\ app m1
       = HotReload.mkApp
           (Filter.mkMessageFilter (Filter.mkKeywordMatcher ["urgent"])
                                   (Filter.mkDomainFilter []) false)
           ["Configuration updated, applying changes..."]
    /\ console m1 = ["Error notifying config listener: d.toLowerCase is not a function"].
Proof.
  intros u m. eexists. split; [reflexivity|]. split; [reflexivity|].
  destruct (update_half_applied Fixtures.db_ok u m
              (snd (updateConfig Fixtures.db_ok u m))
              (merge defaultConfig u) ["URGENT"] [JNum 7]
              eq_refl eq_refl eq_refl eq_refl eq_refl eq_refl) as (err & Ha & _).
  split; [exact Ha | reflexivity].
Defined.

(** *** A configuration that passes the model validation *)

Lemma string_array_strings (v : JSValue) :
  Validation.string_array v = true -> exists l, v = strings l.
Proof.
  destruct v as [| | | | |items|]; try discriminate. simpl.
  induction items as [|x items IH]; simpl; intros H.
  - now exists [].
  - apply andb_true_iff in H as [Hx Hrest]. destruct (IH Hrest) as (l & Hl).
    destruct x; try discriminate. exists (s :: l). unfold strings in *. simpl.
    now injection Hl as ->.
Qed.

Lemma strings_inj (l l' : list string) : strings l = strings l' -> l = l'.
Proof.
  unfold strings. intros [= H]. revert l' H.
  induction l as [|x l IH]; intros [|y l']; simpl; try discriminate; [reflexivity|].
  intros [= -> H]. f_equal. now apply IH.
Qed.

(** X24. A configuration that [isValidConfig] accepts goes through the
    whole update path. Sent as an update it passes both the route's
    validation and the manager's. Its [keywordsEnabled] is a boolean and
    its [keywords] and [excludedDomains] are arrays of strings, and the
    hot-reload subscriber, run on it, does not throw and leaves exactly
    the filter built from these three values (the two lists lower-cased),
    after writing both of its [console.log] lines. *)
Theorem valid_config_accepted (c : Config) (a : HotReload.App) :
  Validation.isValidConfig c = true ->
  validateConfigUpdate (as_update c) = None
  /\ validateConfig (as_update c) = None
  /\ exists b kws ds,
       prop (filters c) "keywordsEnabled" = JBool b
       /\ prop (filters c) "keywords" = strings kws
       /\ prop (filters c) "excludedDomains" = strings ds
       /\ HotReload.hot_reload c a
          = (HotReload.mkApp
               (Filter.mkMessageFilter
                  (Filter.mkKeywordMatcher (map toLowerCase kws))
                  (Filter.mkDomainFilter (map toLowerCase ds)) b)
               (HotReload.app_stdout a
                  ++ ["Configuration updated, applying changes...";
                      "✓ Configuration hot-reloaded"]),
             None).
Proof.
  unfold Validation.isValidConfig, Validation.isValidEmailConfig,
    Validation.isValidFilterConfig, Validation.isValidAutoReplyConfig.
  intros H.
  repeat match goal with
         | Hx : _ && _ = true |- _ => apply andb_true_iff in Hx as [? ?]
         end.
  assert (Hroute : validateConfigUpdate (as_update c) = None).
  { unfold validateConfigUpdate, as_update, validate_section. simpl.
    unfold check_email, check_filters, check_autoReply.
    repeat match goal with
           | Hx : Validation.nonempty_string ?v = true |- _ =>
               destruct v; try discriminate Hx; clear Hx
           | Hx : Validation.isValidPort ?v = true |- _ =>
               destruct v; try discriminate Hx; simpl in Hx;
               apply andb_true_iff in Hx as [Hx _]; apply Z.ltb_lt in Hx
           | Hx : Validation.is_boolean ?v = true |- _ =>
               destruct v; try discriminate Hx; clear Hx
           | Hx : Validation.string_array ?v = true |- _ =>
               destruct v; try discriminate Hx; clear Hx
           end.
    match goal with
    | Hx : match prop (autoReply c) "checkInterval" with _ => _ end = true |- _ =>
        destruct (prop (autoReply c) "checkInterval") as [| | |zi| | |];
          try discriminate Hx; apply Z.ltb_lt in Hx
    end.
    simpl.
    repeat match goal with
           | |- context [(?z <=? 0)%Z] =>
               destruct (Z.leb_spec z 0); [lia|]
           end.
    reflexivity. }
  split; [exact Hroute|]. split; [now apply route_validation_stricter|].
  match goal with
  | Hk : Validation.string_array (prop (filters c) "keywords") = true,
    Hd : Validation.string_array (prop (filters c) "excludedDomains") = true,
    Hb : Validation.is_boolean (prop (filters c) "keywordsEnabled") = true |- _ =>
      destruct (string_array_strings _ Hk) as (kws & Hkws);
      destruct (string_array_strings _ Hd) as (ds & Hds);
      destruct (prop (filters c) "keywordsEnabled") as [| |b| | | |] eqn:Hen;
        try discriminate Hb
  end.
  exists b, kws, ds. split; [reflexivity|]. split; [exact Hkws|]. split; [exact Hds|].
  rewrite (hot_reload_strings c a kws ds Hkws Hds). now rewrite Hen.
Qed.

Lemma valid_config_accepted_witness :
  let c := mkConfig
             (<["imapHost" := JStr "imap.example.org"]> (<["imapPort" := JNum 993]>
              (<["smtpHost" := JStr "smtp.example.org"]> (<["smtpPort" := JNum 587]>
               (<["username" := JStr "me"]> (<["password" := JStr "pw"]> ∅))))))
             (<["keywordsEnabled" := JBool true]> (<["keywords" := strings ["Help"; "ASAP"]]>
              (<["excludedDomains" := strings ["Spam.COM"]]> ∅)))
             (<["manualConfirmation" := JBool false]> (<["replyTemplate" := JStr "Thanks"]>
              (<["checkInterval" := JNum 10]> ∅))) in
  Validation.isValidConfig defaultConfig = false
  /\ validateConfigUpdate (as_update c) = None
  /\ validateConfig (as_update c) = None
  /\ HotReload.hot_reload c (HotReload.mkApp Fixtures.filter_open [])
     = (HotReload.mkApp
          (Filter.mkMessageFilter (Filter.mkKeywordMatcher ["help"; "asap"])
                                  (Filter.mkDomainFilter ["spam.com"]) true)
          ["Configuration updated, applying changes...";
           "✓ Configuration hot-reloaded"],
        None).
Proof.
  intros c. split; [reflexivity|].
  destruct (valid_config_accepted c (HotReload.mkApp Fixtures.filter_open []) eq_refl)
    as (Hroute & Hmanager & b & kws & ds & Hb & Hk & Hd & Hrun).
  split; [exact Hroute|]. split; [exact Hmanager|].
  assert (Hb' : b = true) by (injection Hb as <-; reflexivity).
  assert (Hk' : kws = ["Help"; "ASAP"]) by (symmetry; exact (strings_inj _ _ Hk)).
  assert (Hd' : ds = ["Spam.COM"]) by (symmetry; exact (strings_inj _ _ Hd)).
  rewrite Hrun, Hb', Hk', Hd'. reflexivity.
Defined.

End ConfigMore.

(** ** The confirmation routes *)

Module ConfirmMore.
Import ResponderSpec MoreSpec ResponderFacts Routes.

Section Confirm.
Context (env : Env) (config : AutoResponderConfig).

Lemma confirm_route_refusals_run (approve : bool) (found : RepoGet) (id : string)
    (w : World) :
  found <> RepoFound pending \/ pendingReplies w !! id = None ->
  confirm_route env config approve found id w
  = (match found with
     | RepoFails err =>
         mkResponse 500 (ErrorBody (if is_empty err then "Internal server error" else err))
     | RepoNone => mkResponse 404 (ErrorBody "Reply not found")
     | RepoFound pending =>
         mkResponse 500 (ErrorBody ("Reply with id " +:+ id +:+ " not found in pending queue"))
     | RepoFound st =>
         mkResponse 400 (ErrorBody ("Reply is not pending (current status: "
                                    +:+ status_name st +:+ ")"))
     end, w).
Proof.
  intros H. unfold confirm_route.
  destruct found as [err| |st]; try reflexivity.
  destruct st; try reflexivity.
  destruct H as [H|H]; [congruence|].
  now rewrite (processConfirmation_absent env config id approve w H).
Qed.

(** X25. A confirmation request that cannot be served changes nothing:
    404 when the repository has no such reply, 400 naming the stored
    status when that is not [pending] (whether or not the reply is still
    in the queue), the repository's own error as a 500, and, when the
    repository says [pending] but the in-memory queue does not hold the
    id (as after a restart), a 500 carrying the responder's not-found
    message. *)
Theorem confirm_route_refusals (approve : bool) (found : RepoGet) (id : string)
    (w : World) :
  found <> RepoFound pending \/ pendingReplies w !! id = None ->
  confirm_route env config approve found id w
  = (match found with
     | RepoFails err =>
         mkResponse 500 (ErrorBody (if is_empty err then "Internal server error" else err))
     | RepoNone => mkResponse 404 (ErrorBody "Reply not found")
     | RepoFound pending =>
         mkResponse 500 (ErrorBody ("Reply with id " +:+ id +:+ " not found in pending queue"))
     | RepoFound st =>
         mkResponse 400 (ErrorBody ("Reply is not pending (current status: "
                                    +:+ status_name st +:+ ")"))
     end, w).
Proof. exact (confirm_route_refusals_run approve found id w). Qed.

(** X26. The approve route reports success even when the mail could not
    be sent: if the transport rejects the message while the read-flag
    update goes through, the answer is 200 "Reply approved and sent
    successfully", although the reply has ended as [failed], without a
    send time, and has left the queue, so that it cannot be approved
    again. *)
Theorem approve_route_failed_send (id : string) (w : World) (l : nat) (r : Reply)
    (msg : string) :
  pendingReplies w !! id = Some l ->
  heap w !! l = Some r ->
  smtp env (trace w) (smtp_user config) (reply_to r) (reply_subject r) (reply_body r)
  = Some msg ->
  (forall t e, imap_flag env t e = FlagAdded) ->
  exists w' r',
    approve_route env config (RepoFound pending) id w
    = (mkResponse 200 (ConfirmBody "Reply approved and sent successfully" id), w')
    /\ heap w' !! l = Some r'
    /\ reply_status r' = failed
    /\ reply_sentAt r' = reply_sentAt r
    /\ pendingReplies w' !! id = None
    /\ forall approve found,
         exists resp, confirm_route env config approve found id w' = (resp, w')
                      /\ status resp <> 200.
Proof.
  intros Hp Hh Hs Hflag.
  assert (Hrun : exists w' r',
             processConfirmation env config id true w = (Ok tt, w')
             /\ heap w' !! l = Some r' /\ reply_status r' = failed
             /\ reply_sentAt r' = reply_sentAt r /\ pendingReplies w' !! id = None).
  { unfold processConfirmation. unfold bind at 1. rewrite Hp.
    unfold bind at 1. unfold bind at 1. unfold bind at 1.
    unfold modify at 1. rewrite Hh.
    set (w1 := with_heap _ w).
    assert (H1 : heap w1 !! l = Some (set_status approved r)) by apply lookup_insert_eq.
    pose proof (ResponderMore.sendReply_failure_run env config l w1 _ msg H1 Hs) as H.
    cbv zeta in H. destruct H as (w2 & Hsend & Hheap & Hsent & Hpend & Htr).
    rewrite Hsend. unfold ret at 1. unfold bind at 1. unfold deref.
    rewrite Hheap, lookup_insert_eq. unfold bind. rewrite markAsRead_run.
    rewrite Hflag. simpl. eexists _, _. split; [reflexivity|]. simpl.
    rewrite Hheap, lookup_insert_eq. split; [reflexivity|].
    split; [reflexivity|]. split; [reflexivity|]. apply lookup_delete_eq. }
  destruct Hrun as (w' & r' & Hrun & Hh' & Hst & Hsa & Hq).
  exists w', r'. unfold approve_route. unfold confirm_route at 1. rewrite Hrun.
  repeat (split; [assumption || reflexivity|]).
  intros approve found. eexists. split.
  - apply confirm_route_refusals_run. now right.
  - destruct found as [err| |[]]; simpl; discriminate.
Qed.

(** X27. When the read-flag update is refused, either route answers 500
    with the tracker's message although the decision has been carried
    out: the reply has its final status ([sent] or [failed] after an
    approval, [rejected] after a rejection), on approval the transport
    was called once, and the reply is still in the queue. *)
Theorem confirm_route_flag_refused (approve : bool) (id : string) (w : World)
    (l : nat) (r : Reply) (reason : string) :
  pendingReplies w !! id = Some l ->
  heap w !! l = Some r ->
  (forall t e, imap_flag env t e = FlagAddFlagsFails reason) ->
  exists w' r' evs,
    confirm_route env config approve (RepoFound pending) id w
    = (mkResponse 500 (ErrorBody ("Failed to mark email as read: " +:+ reason)), w')
    /\ heap w' !! l = Some r'
    /\ (if approve then reply_status r' = sent \/ reply_status r' = failed
        else reply_status r' = rejected)
    /\ pendingReplies w' !! id = Some l
    /\ trace w' = trace w ++ evs
    /\ count_sends evs = (if approve then 1 else 0).
Proof.
  intros Hp Hh Hflag.
  destruct (processConfirmation_run env config id approve w l r Hp Hh)
    as (r' & evs & w' & Hrun & Hheap & _ & _ & Hpend & Htr & _ & Hcount & _ & Hst).
  rewrite Hflag in Hrun, Hpend. simpl in Hrun, Hpend.
  exists w', r', (evs ++ [EvMarkAsRead (reply_originalEmailId r)]).
  unfold confirm_route. rewrite Hrun. simpl.
  split; [reflexivity|]. split; [rewrite Hheap; apply lookup_insert_eq|].
  split; [exact Hst|]. split; [now rewrite Hpend|]. split; [exact Htr|].
  unfold count_sends in *. rewrite List.filter_app, length_app. simpl. rewrite Hcount. lia.
Qed.

End Confirm.

Lemma confirm_route_refusals_witness :
  confirm_route Fixtures.env_ok Fixtures.config_manual true (RepoFound sent) "r1"
                (Fixtures.world_queued sent)
  = (mkResponse 400 (ErrorBody "Reply is not pending (current status: sent)"),
     Fixtures.world_queued sent)
  /\ confirm_route Fixtures.env_ok Fixtures.config_manual false (RepoFound pending) "r1"
                   Fixtures.world_empty
     = (mkResponse 500 (ErrorBody "Reply with id r1 not found in pending queue"),
        Fixtures.world_empty).
Proof.
  split.
  - apply (confirm_route_refusals Fixtures.env_ok Fixtures.config_manual true
             (RepoFound sent) "r1" (Fixtures.world_queued sent)).
    left. discriminate.
  - apply (confirm_route_refusals Fixtures.env_ok Fixtures.config_manual false
             (RepoFound pending) "r1" Fixtures.world_empty).
    right. reflexivity.
Defined.

Lemma approve_route_failed_send_witness :
  let env := mkEnv Fixtures.uuid_of Z.of_nat (fun _ _ _ _ _ => Some "ECONNRESET")
                   (fun _ _ => FlagAdded) in
  exists w' r',
    approve_route env Fixtures.config_manual (RepoFound pending) "r1"
                  (Fixtures.world_queued pending)
    = (mkResponse 200 (ConfirmBody "Reply approved and sent successfully" "r1"), w')
    /\ heap w' !! 0 = Some r'
    /\ reply_status r' = failed
    /\ pendingReplies w' !! "r1" = None.
Proof.
  intros env.
  destruct (approve_route_failed_send env Fixtures.config_manual "r1"
              (Fixtures.world_queued pending) 0 (Fixtures.reply1 pending) "ECONNRESET"
              eq_refl eq_refl eq_refl (fun _ _ => eq_refl))
    as (w' & r' & H1 & H2 & H3 & _ & H4 & _).
  exists w', r'. auto.
Defined.

Lemma confirm_route_flag_refused_witness :
  exists w' r',
    confirm_route Fixtures.env_flag_fails Fixtures.config_manual false (RepoFound pending)
                  "r1" (Fixtures.world_queued pending)
    = (mkResponse 500 (ErrorBody "Failed to mark email as read: NO"), w')
    /\ heap w' !! 0 = Some r'
    /\ reply_status r' = rejected
    /\ pendingReplies w' !! "r1" = Some 0.
Proof.
  destruct (confirm_route_flag_refused Fixtures.env_flag_fails Fixtures.config_manual false
              "r1" (Fixtures.world_queued pending) 0 (Fixtures.reply1 pending) "NO"
              eq_refl eq_refl (fun _ _ => eq_refl))
    as (w' & r' & evs & H1 & H2 & H3 & H4 & _).
  exists w', r'. auto.
Defined.

End ConfirmMore.

(** ** Environment parsing and address validation *)

Module EnvMore.
Import MoreSpec JsStringFacts EnvParse.

Lemma reverse_acc (s acc : string) : reverse acc s = reverse "" s +:+ acc.
Proof.
  revert acc. induction s as [|c s IH]; intros acc; simpl; [reflexivity|].
  rewrite IH, (IH (String c "")). now rewrite append_assoc.
Qed.

Lemma reverse_app (a b acc : string) : reverse acc (a +:+ b) = reverse (reverse acc a) b.
Proof.
  revert acc. induction a as [|c a IH]; intros acc; [reflexivity|].
  rewrite append_cons. simpl. apply IH.
Qed.

Lemma append_empty_r (s : string) : s +:+ "" = s.
Proof. induction s as [|c s IH]; [reflexivity|]. rewrite append_cons. now rewrite IH. Qed.

Lemma reverse_involutive (s : string) : reverse "" (reverse "" s) = s.
Proof.
  assert (H : forall s a b, reverse a (reverse b s) = reverse (s +:+ a) b).
  { clear s. induction s as [|c s IH]; intros a b; simpl; [reflexivity|].
    rewrite IH. reflexivity. }
  rewrite H. simpl. apply append_empty_r.
Qed.

Lemma trimStart_split (s : string) :
  exists pre, s = pre +:+ trimStart s /\ starts_space (trimStart s) = false.
Proof.
  induction s as [|c s (pre & Hs & Hn)]; simpl.
  - now exists "".
  - destruct (is_space c) eqn:Hc.
    + exists (String c pre). rewrite append_cons. now rewrite <- Hs.
    + exists "". simpl. now rewrite Hc.
Qed.

Lemma trimStart_fixed (s : string) : starts_space s = false -> trimStart s = s.
Proof. destruct s as [|c s]; simpl; [reflexivity|]. now intros ->. Qed.

Lemma trimEnd_split (s : string) :
  exists post, s = trimEnd s +:+ post /\ ends_space (trimEnd s) = false.
Proof.
  unfold trimEnd, ends_space. rewrite reverse_involutive.
  destruct (trimStart_split (reverse "" s)) as (pre & Hs & Hn).
  exists (reverse "" pre). split; [|exact Hn].
  rewrite <- (reverse_involutive s) at 1. rewrite Hs at 1.
  rewrite reverse_app. apply reverse_acc.
Qed.

Lemma trimEnd_fixed (s : string) : ends_space s = false -> trimEnd s = s.
Proof.
  unfold ends_space, trimEnd. intros H. rewrite (trimStart_fixed _ H).
  apply reverse_involutive.
Qed.

Lemma indexOf_app_none (a b : string) (c : ascii) :
  indexOf (a +:+ b) c = None <-> indexOf a c = None /\ indexOf b c = None.
Proof.
  induction a as [|x a IH]; [simpl; tauto|].
  rewrite append_cons. simpl. destruct (ascii_dec x c).
  - split; [discriminate | intros [? _]; discriminate].
  - rewrite !fmap_None. exact IH.
Qed.

Lemma trim_split (s : string) :
  exists pre post, s = pre +:+ trim s +:+ post /\ ends_space (trim s) = false.
Proof.
  unfold trim. destruct (trimStart_split s) as (pre & Hs & _).
  destruct (trimEnd_split (trimStart s)) as (post & Ht & Hn).
  exists pre, post. split; [|exact Hn]. now rewrite <- Ht.
Qed.

Lemma trim_starts (s : string) : starts_space (trim s) = false.
Proof.
  unfold trim. destruct (trimStart_split s) as (_ & _ & Hn).
  destruct (trimEnd_split (trimStart s)) as (post & Ht & _).
  destruct (trimEnd (trimStart s)) as [|c t] eqn:He; [reflexivity|].
  rewrite Ht in Hn. exact Hn.
Qed.

Lemma trim_fixed (s : string) :
  starts_space s = false -> ends_space s = false -> trim s = s.
Proof. intros H1 H2. unfold trim. rewrite (trimStart_fixed s H1). now apply trimEnd_fixed. Qed.

Lemma split_no_sep (c : ascii) (s : string) :
  split c s <> [] /\ Forall (fun piece => indexOf piece c = None) (split c s).
Proof.
  induction s as [|a s [Hne IH]]; simpl.
  - split; [discriminate|]. repeat constructor.
  - destruct (ascii_dec a c) as [->|Hac].
    + split; [discriminate|]. constructor; [reflexivity | exact IH].
    + destruct (split c s) as [|x xs]; [contradiction|].
      split; [discriminate|]. inversion IH as [|? ? Hx Hxs]; subst.
      constructor; [|exact Hxs]. simpl. destruct (ascii_dec a c); [contradiction|].
      now rewrite Hx.
Qed.

(** X28. Whatever a list variable of the environment holds, the items
    that [parseList] returns are never empty, contain no comma and carry
    no white space at either end; an unset or empty variable gives
    [undefined], and any other value gives a list (possibly an empty
    one). *)
Theorem parseList_items_clean (value : option string) :
  match parseList value with
  | Some items => Forall clean_item items
                  /\ exists s, value = Some s /\ s <> ""
  | None => value = None \/ value = Some ""
  end.
Proof.
  destruct value as [s|]; [|now left].
  destruct s as [|a s]; [now right|].
  unfold parseList. change (is_empty (String a s)) with false. cbv iota.
  split; [|exists (String a s); split; [reflexivity | discriminate]].
  destruct (split_no_sep ","%char (String a s)) as [_ Hall].
  induction Hall as [|piece pieces Hp _ IH]; simpl; [constructor|].
  destruct (is_empty (trim piece)) eqn:He; simpl; [exact IH|].
  constructor; [|exact IH]. repeat split.
  - intros Heq. now rewrite Heq in He.
  - destruct (trim_split piece) as (pre & post & Hs & _).
    rewrite Hs in Hp. apply indexOf_app_none in Hp as [_ Hp].
    now apply indexOf_app_none in Hp as [Hp _].
  - apply trim_starts.
  - destruct (trim_split piece) as (pre & post & _ & Hn). exact Hn.
Qed.

Lemma split_concat (items : list string) :
  items <> [] ->
  Forall (fun item => indexOf item ","%char = None) items ->
  split ","%char (String.concat "," items) = items.
Proof.
  intros Hne Hall. induction Hall as [|x xs Hx Hxs IH]; [contradiction|].
  assert (Hpre : forall rest tail,
             split ","%char rest = tail -> tail <> [] ->
             split ","%char (x +:+ "," +:+ rest) = x :: tail).
  { intros rest tail Hr Ht. clear IH Hne. induction x as [|a x IHx].
    - change ("" +:+ "," +:+ rest) with (String ","%char rest).
      cbn [split]. destruct (ascii_dec ","%char ","%char); [|contradiction].
      now rewrite Hr.
    - rewrite append_cons. simpl in *. destruct (ascii_dec a ","%char); [discriminate|].
      destruct (indexOf x ","%char) eqn:Hi; [discriminate|].
      rewrite (IHx eq_refl). reflexivity. }
  destruct xs as [|y ys].
  - simpl. clear IH Hne Hpre. induction x as [|a x IHx]; [reflexivity|].
    simpl in *. destruct (ascii_dec a ","%char); [discriminate|].
    destruct (indexOf x ","%char) eqn:Hi; [discriminate|].
    now rewrite (IHx eq_refl).
  - change (String.concat "," (x :: y :: ys))
      with (x +:+ "," +:+ String.concat "," (y :: ys)).
    apply Hpre; [apply IH; discriminate | discriminate].
Qed.

(** X29. [parseList] undoes the joining of a list: for a non-empty list
    of items, none of them empty, none containing a comma and none with
    white space at an end, parsing the items joined by commas gives the
    list back, in order. *)
Theorem parseList_round_trip (items : list string) :
  items <> [] ->
  Forall clean_item items ->
  parseList (Some (String.concat "," items)) = Some items.
Proof.
  intros Hne Hall. unfold parseList.
  assert (Hs : is_empty (String.concat "," items) = false).
  { destruct items as [|x xs]; [contradiction|]. inversion Hall as [|? ? Hx _]; subst.
    destruct Hx as (Hx & _). destruct x as [|a x]; [contradiction|].
    destruct xs; reflexivity. }
  rewrite Hs. f_equal. rewrite split_concat; [|exact Hne|].
  - clear Hne Hs. induction Hall as [|x xs Hx _ IH]; [reflexivity|].
    destruct Hx as (Hx & _ & Hst & Hen). simpl.
    rewrite (trim_fixed x Hst Hen). destruct x as [|a x]; [contradiction|].
    simpl. now rewrite IH.
  - eapply Forall_impl; [exact Hall|]. intros x Hx. apply Hx.
Qed.

Lemma parseList_round_trip_witness :
  parseList (Some "a.com,b c,d") = Some ["a.com"; "b c"; "d"]
  /\ parseList (Some " a.com , ,b.org,") = Some ["a.com"; "b.org"]
  /\ parseList (Some ",") = Some [].
Proof.
  split; [|split; reflexivity].
  apply (parseList_round_trip ["a.com"; "b c"; "d"]); [discriminate|].
  repeat constructor; discriminate.
Defined.

(** *** Valid addresses and the domain filter *)

Lemma indexOf_split (s : string) (c : ascii) (i : nat) :
  indexOf s c = Some i ->
  s = Validation.prefix i s +:+ String c (substring_from (i + 1) s)
  /\ (Validation.prefix i s = "" -> i = 0).
Proof.
  revert i. induction s as [|a s IH]; intros i; simpl; [discriminate|].
  destruct (ascii_dec a c) as [->|Hne].
  - intros [= <-]. simpl. split; reflexivity.
  - destruct (indexOf s c) as [j|]; [|discriminate]. intros [= <-].
    destruct (IH j eq_refl) as [Hs _]. simpl. split; [|discriminate].
    rewrite append_cons. now rewrite <- Hs.
Qed.

Lemma all_plain_no_at (t : string) :
  Validation.all_plain t = true -> includes t "@" = false.
Proof.
  induction t as [|c t IH]; [reflexivity|].
  simpl Validation.all_plain. unfold Validation.plain_char. intros H.
  apply andb_true_iff in H as [Hc Ht]. apply andb_true_iff in Hc as [_ Hc].
  rewrite includes_cons, (IH Ht), orb_false_r. cbn [startsWith].
  destruct (ascii_dec "@"%char c) as [<-|]; [discriminate | reflexivity].
Qed.

Lemma inner_dot_includes (first : bool) (d : string) :
  Validation.inner_dot first d = true -> includes d "." = true.
Proof.
  revert first. induction d as [|c d IH]; intros first; simpl Validation.inner_dot;
    [discriminate|].
  intros H. rewrite includes_cons. apply orb_true_iff in H as [H|H].
  - apply andb_true_iff in H as [H _]. apply andb_true_iff in H as [_ H].
    apply Ascii.eqb_eq in H. subst c. cbn [startsWith].
    destruct (ascii_dec "."%char "."%char); [|contradiction]. now destruct d.
  - rewrite (IH false H). apply orb_true_r.
Qed.

(** X30. An address that [isValidEmail] accepts is one the domain filter
    can judge: it splits at its only at sign into a non-empty local part
    and a domain, the domain contains a dot, and [extractDomain] yields
    exactly that domain in lower case, never the empty string that it
    returns for a sender without an at sign. *)
Theorem valid_address_has_domain (address : string) :
  Validation.isValidEmail address = true ->
  exists local domain,
    address = local +:+ "@" +:+ domain
    /\ local <> ""
    /\ includes local "@" = false
    /\ includes domain "@" = false
    /\ includes domain "." = true
    /\ Filter.extractDomain address = toLowerCase domain
    /\ Filter.extractDomain address <> "".
Proof.
  unfold Validation.isValidEmail, Filter.extractDomain.
  destruct (indexOf address "@"%char) as [i|] eqn:Hi; [|discriminate].
  cbv zeta. intros H.
  apply andb_true_iff in H as [H Hdot]. apply andb_true_iff in H as [H Hdom].
  apply andb_true_iff in H as [Hne Hloc].
  destruct (indexOf_split address "@"%char i Hi) as [Hs _].
  exists (Validation.prefix i address), (substring_from (i + 1) address).
  split; [exact Hs|].
  split; [intros Heq; now rewrite Heq in Hne|].
  split; [now apply all_plain_no_at|]. split; [now apply all_plain_no_at|].
  pose proof (inner_dot_includes true _ Hdot) as Hinc.
  split; [exact Hinc|]. split; [reflexivity|].
  destruct (substring_from (i + 1) address); [discriminate Hinc | discriminate].
Qed.

Lemma valid_address_has_domain_witness :
  Validation.isValidEmail "alice" = false
  /\ Validation.isValidEmail "a@b" = false
  /\ Validation.isValidEmail "a b@c.d" = false
  /\ exists local domain,
       "Bob@Mail.Example.ORG" = local +:+ "@" +:+ domain
       /\ local <> ""
       /\ includes local "@" = false
       /\ includes domain "@" = false
       /\ includes domain "." = true
       /\ Filter.extractDomain "Bob@Mail.Example.ORG" = toLowerCase domain
       /\ Filter.extractDomain "Bob@Mail.Example.ORG" <> "".
Proof.
  split; [reflexivity|]. split; [reflexivity|]. split; [reflexivity|].
  exact (valid_address_has_domain "Bob@Mail.Example.ORG" eq_refl).
Defined.

End EnvMore.

(** ** The life cycle of a reply *)

Module LifecycleFacts.
Import MonitorSpec ResponderSpec MoreSpec ResponderFacts MonitorFacts.

Section Preserves.
Context (P : World -> Prop).

Lemma preserves_ret {A} (a : A) : preserves P (ret a).
Proof. intros w H. exact H. Qed.

Lemma preserves_throw {A} (e : JsError) : preserves P (@throw A e).
Proof. intros w H. exact H. Qed.

Lemma preserves_bind {A B} (m : M A) (k : A -> M B) :
  preserves P m -> (forall a, preserves P (k a)) -> preserves P (bind m k).
Proof.
  intros Hm Hk w Hw. unfold bind. specialize (Hm w Hw).
  destruct (m w) as [[a|e] w']; simpl in *; [now apply Hk | exact Hm].
Qed.

Lemma preserves_try_catch {A} (m : M A) (h : JsError -> M A) :
  preserves P m -> (forall e, preserves P (h e)) -> preserves P (try_catch m h).
Proof.
  intros Hm Hh w Hw. unfold try_catch. specialize (Hm w Hw).
  destruct (m w) as [[a|e] w']; simpl in *; [exact Hm | now apply Hh].
Qed.

Lemma preserves_try_finally {A} (m : M A) (fin : M unit) :
  preserves P m -> preserves P fin -> preserves P (try_finally m fin).
Proof.
  intros Hm Hf w Hw. unfold try_finally. specialize (Hm w Hw).
  destruct (m w) as [r w']. simpl in Hm. specialize (Hf w' Hm).
  destruct (fin w') as [[u|e] w'']; exact Hf.
Qed.

End Preserves.

Section Settled.
Context (env : Env) (config : AutoResponderConfig) (mf : Filter.MessageFilter).
Context (l : nat) (r : Reply).

Lemma settled_same (w w' : World) :
  heap w' = heap w -> next_ref w' = next_ref w -> pendingReplies w' = pendingReplies w ->
  settled_store l r w -> settled_store l r w'.
Proof.
  intros Hh Hn Hp [Hok [Hl Hout]]. split; [exact (world_ok_same w w' Hh Hn Hp Hok)|].
  split; [now rewrite Hh | intros k; rewrite Hp; apply Hout].
Qed.

Lemma preserves_same {A} (m : M A) :
  (forall w, heap (snd (m w)) = heap w /\ next_ref (snd (m w)) = next_ref w
             /\ pendingReplies (snd (m w)) = pendingReplies w) ->
  preserves (settled_store l r) m.
Proof.
  intros H w Hw. destruct (H w) as (Hh & Hn & Hp). exact (settled_same w _ Hh Hn Hp Hw).
Qed.

Lemma checkInbox_store session w :
  heap (snd (checkInbox env session w)) = heap w
  /\ next_ref (snd (checkInbox env session w)) = next_ref w
  /\ pendingReplies (snd (checkInbox env session w)) = pendingReplies w.
Proof.
  destruct session as [err|msg|msg|msg| |msgs|msgs msg]; simpl; try (now repeat split).
  - destruct (on_messages_run env msgs [] w) as (e & w1 & Hrun & Ht & _).
    rewrite Hrun. simpl. now rewrite Ht.
  - unfold bind. destruct (on_messages_run env msgs [] w) as (e & w1 & Hrun & Ht & _).
    rewrite Hrun. simpl. now rewrite Ht.
Qed.

(** A settled reply is not at the allocation pointer. *)
Lemma settled_not_next w : settled_store l r w -> l <> next_ref w.
Proof.
  intros [[_ Hfresh] [Hl _]] ->. rewrite (Hfresh (next_ref w)) in Hl by lia. discriminate.
Qed.

Lemma settled_processEmail email :
  preserves (settled_store l r) (processEmail env config mf email).
Proof.
  intros w Hw. split; [apply keeps_processEmail; apply Hw|].
  pose proof (settled_not_next w Hw) as Hne. destruct Hw as [_ [Hl Hout]].
  destruct (Filter.approved (Filter.shouldAutoReply mf email)) eqn:Happ.
  - destruct (manualConfirmation config) eqn:Hman.
    + pose proof (ResponderMore.processEmail_queues_run env config mf email w Happ Hman) as H.
      cbv zeta in H. destruct H as (w' & Hrun & _ & Hh & Hp & _).
      rewrite Hrun. simpl. split.
      * rewrite Hh, lookup_insert_ne by congruence. exact Hl.
      * intros k Hk. rewrite Hp in Hk.
        destruct (decide (reply_id (new_reply env config email w) = k)) as [<-|Hk'].
        -- rewrite lookup_insert_eq in Hk. congruence.
        -- rewrite lookup_insert_ne in Hk by assumption. exact (Hout k Hk).
    + destruct (processEmail_auto_run env config mf email w Happ Hman)
        as (r' & pre & mid & post & w' & Hrun & Hh & Hp & _).
      rewrite Hrun. simpl. split.
      * rewrite Hh, lookup_insert_ne by congruence. exact Hl.
      * intros k. rewrite Hp. apply Hout.
  - pose proof (ResponderMore.processEmail_filtered_run env config mf email w Happ) as H.
    cbv zeta in H. destruct H as (w' & Hrun & Hh & _ & Hp & _).
    rewrite Hrun. simpl. split; [now rewrite Hh | intros k; rewrite Hp; apply Hout].
Qed.

Lemma settled_processConfirmation replyId approve :
  preserves (settled_store l r) (processConfirmation env config replyId approve).
Proof.
  intros w Hw. split; [apply keeps_processConfirmation; apply Hw|].
  destruct Hw as [_ [Hl Hout]].
  destruct (pendingReplies w !! replyId) as [l0|] eqn:Hp.
  - assert (Hne : l0 <> l) by (intros ->; exact (Hout replyId Hp)).
    destruct (heap w !! l0) as [r0|] eqn:Hl0.
    + destruct (processConfirmation_run env config replyId approve w l0 r0 Hp Hl0)
        as (r' & evs & w' & Hrun & Hh & _ & _ & Hpend & _).
      rewrite Hrun. simpl. split.
      * rewrite Hh, lookup_insert_ne by assumption. exact Hl.
      * intros k Hk. rewrite Hpend in Hk. destruct (flag_rejection _).
        -- exact (Hout k Hk).
        -- apply lookup_delete_Some in Hk as [_ Hk]. exact (Hout k Hk).
    + rewrite (processConfirmation_dangling env config replyId approve w l0 Hp Hl0).
      now split.
  - rewrite processConfirmation_absent by assumption. now split.
Qed.

Ltac settled_step :=
  first [ apply preserves_ret | apply preserves_throw
        | apply settled_processEmail
        | apply preserves_same; intros ?; now repeat split
        | apply preserves_same; intros ?; apply checkInbox_store
        | apply preserves_bind; [|intros ?]
        | apply preserves_try_catch; [|intros ?]
        | apply preserves_try_finally ].

Lemma settled_process_emails emails :
  preserves (settled_store l r) (process_emails env config mf emails).
Proof.
  induction emails as [|email rest IH]; simpl; [apply preserves_ret|].
  apply preserves_bind; [settled_step|]. intros m.
  destruct (shouldStop m); [apply preserves_ret|].
  apply preserves_bind; [apply settled_processEmail | intros _; exact IH].
Qed.

Lemma settled_pollInbox session :
  preserves (settled_store l r) (pollInbox env config mf session).
Proof.
  unfold pollInbox, logActivity. apply preserves_bind; [settled_step|]. intros m.
  destruct (_ || _); [apply preserves_ret|].
  apply preserves_bind; [settled_step|]. intros _.
  apply preserves_try_finally; [|settled_step].
  apply preserves_try_catch.
  - apply preserves_bind; [settled_step|]. intros emails.
    apply preserves_bind; [settled_step|]. intros _. apply settled_process_emails.
  - intros e. apply preserves_bind; [settled_step|]. intros m'.
    apply preserves_bind; [settled_step|]. intros _.
    apply preserves_bind; [settled_step|]. intros id.
    apply preserves_bind; [settled_step|]. intros ts.
    apply preserves_bind; [settled_step|]. intros _.
    destruct (_ <=? _)%nat; repeat settled_step.
Qed.

Lemma settled_start session :
  preserves (settled_store l r) (start env config mf session).
Proof.
  unfold start, logActivity. apply preserves_bind; [settled_step|]. intros m.
  destruct (isRunning m); [apply preserves_throw|].
  do 7 (apply preserves_bind; [settled_step|]; intros ?). apply settled_pollInbox.
Qed.

Lemma settled_stop_idle : preserves (settled_store l r) (stop_idle env).
Proof.
  unfold stop_idle, stop_request, stop_finish, logActivity.
  apply preserves_bind.
  - apply preserves_bind; [settled_step|]. intros m.
    destruct (negb _); [apply preserves_ret|]. repeat settled_step.
  - intros []; repeat settled_step.
Qed.

Lemma settled_run_calls calls : forall w,
  settled_store l r w -> settled_store l r (run_calls env config mf calls w).
Proof.
  induction calls as [|c rest IH]; intros w Hw; simpl; [exact Hw|].
  apply IH. destruct c as [s|replyId approve|s|]; simpl.
  - now apply settled_pollInbox.
  - now apply settled_processConfirmation.
  - now apply settled_start.
  - now apply (preserves_bind _ _ _ settled_stop_idle (fun _ => preserves_ret _ tt)).
Qed.

End Settled.

(** C7 (as amended). No method of the responder looks at the status of a
    reply, so a terminal status is final only through the way the
    service calls them. For calls that do not overlap, each one started
    after the one before it has settled: a [processConfirmation] that
    returns normally leaves its reply [sent] or [failed] (approval) or
    [rejected] (rejection) and out of the pending map; in auto mode
    [processEmail] leaves the reply it has generated [sent] or [failed]
    and never in the pending map; and from then on, whatever poll cycles,
    confirmations, starts and stops follow, that reply keeps its status
    and every other field. *)
Theorem C7_terminal_status_final (env : Env) (config : AutoResponderConfig)
    (mf : Filter.MessageFilter) :
  (forall replyId approve w w1 l calls,
      world_ok w ->
      pendingReplies w !! replyId = Some l ->
      processConfirmation env config replyId approve w = (Ok tt, w1) ->
      exists r1,
        heap w1 !! l = Some r1
        /\ (if approve then reply_status r1 = sent \/ reply_status r1 = failed
            else reply_status r1 = rejected)
        /\ terminal (reply_status r1) = true
        /\ (forall k, pendingReplies w1 !! k <> Some l)
        /\ heap (run_calls env config mf calls w1) !! l = Some r1)
  /\ (forall email w calls,
        world_ok w ->
        Filter.approved (Filter.shouldAutoReply mf email) = true ->
        manualConfirmation config = false ->
        exists w1 r1,
          processEmail env config mf email w = (Ok tt, w1)
          /\ heap w !! next_ref w = None
          /\ heap w1 !! next_ref w = Some r1
          /\ (reply_status r1 = sent \/ reply_status r1 = failed)
          /\ terminal (reply_status r1) = true
          /\ (forall k, pendingReplies w1 !! k <> Some (next_ref w))
          /\ heap (run_calls env config mf calls w1) !! next_ref w = Some r1).
Proof.
  split.
  - intros replyId approve w w1 l calls Hok Hp Hrun.
    pose proof (keeps_processConfirmation env config replyId approve w Hok) as Hok1.
    rewrite Hrun in Hok1. simpl in Hok1.
    destruct Hok as [Hwf Hfresh].
    destruct (Hwf replyId l Hp) as (r & Hl & Hid).
    destruct (processConfirmation_run env config replyId approve w l r Hp Hl)
      as (r' & evs & w' & Hrun' & Hh & _ & _ & Hpend & _ & _ & _ & _ & Hst).
    rewrite Hrun in Hrun'.
    destruct (flag_rejection _) as [msg|]; [discriminate|].
    injection Hrun' as <-.
    assert (Hl1 : heap w1 !! l = Some r') by (rewrite Hh; apply lookup_insert_eq).
    assert (Hout : forall k, pendingReplies w1 !! k <> Some l).
    { intros k Hk. rewrite Hpend in Hk. apply lookup_delete_Some in Hk as [Hne Hk].
      destruct (Hwf k l Hk) as (r0 & Hl' & Hid'). congruence. }
    exists r'. split; [exact Hl1|]. split; [exact Hst|].
    split; [destruct approve; [destruct Hst as [-> | ->] | rewrite Hst]; reflexivity|].
    split; [exact Hout|].
    exact (proj1 (proj2 (settled_run_calls env config mf l r' calls w1
                           (conj Hok1 (conj Hl1 Hout))))).
  - intros email w calls Hok Happ Hauto.
    pose proof (keeps_processEmail env config mf email w Hok) as Hok1.
    destruct (processEmail_auto_run env config mf email w Happ Hauto)
      as (r' & pre & mid & post & w1 & Hrun & Hh & Hp & _ & Hst & _).
    rewrite Hrun in Hok1. simpl in Hok1.
    destruct Hok as [Hwf Hfresh].
    assert (Hnone : heap w !! next_ref w = None) by (apply Hfresh; lia).
    assert (Hl1 : heap w1 !! next_ref w = Some r') by (rewrite Hh; apply lookup_insert_eq).
    assert (Hout : forall k, pendingReplies w1 !! k <> Some (next_ref w)).
    { intros k Hk. rewrite Hp in Hk. destruct (Hwf k _ Hk) as (r0 & Hl' & _). congruence. }
    exists w1, r'. split; [exact Hrun|]. split; [exact Hnone|]. split; [exact Hl1|].
    split; [exact Hst|].
    split; [destruct Hst as [-> | ->]; reflexivity|].
    split; [exact Hout|].
    exact (proj1 (proj2 (settled_run_calls env config mf (next_ref w) r' calls w1
                           (conj Hok1 (conj Hl1 Hout))))).
Qed.

Lemma world_ok_queued (st : ReplyStatus) : world_ok (Fixtures.world_queued st).
Proof.
  split; [apply pending_wf_queued|].
  intros l Hl. simpl in *. apply lookup_singleton_ne. lia.
Qed.

Lemma C7_terminal_status_final_witness :
  let later := [CallConfirm "r1" true;
                CallPoll (FetchEnds [Fixtures.msg_without_to]);
                CallConfirm "r1" false; CallStop; CallStart SearchEmpty] in
  exists w1 r1,
    processConfirmation Fixtures.env_ok Fixtures.config_manual "r1" false
                        (Fixtures.world_queued pending) = (Ok tt, w1)
    /\ heap w1 !! 0 = Some r1
    /\ reply_status r1 = rejected
    /\ (forall k, pendingReplies w1 !! k <> Some 0)
    /\ heap (run_calls Fixtures.env_ok Fixtures.config_manual Fixtures.filter_open
               later w1) !! 0 = Some r1.
Proof.
  intros later.
  destruct (proj1 (C7_terminal_status_final Fixtures.env_ok Fixtures.config_manual
                     Fixtures.filter_open)
              "r1" false (Fixtures.world_queued pending)
              (snd (processConfirmation Fixtures.env_ok Fixtures.config_manual "r1" false
                      (Fixtures.world_queued pending)))
              0 later (world_ok_queued pending) eq_refl eq_refl)
    as (r1 & Hl & Hst & _ & Hout & Hkeep).
  eexists _, r1. split; [reflexivity|]. auto.
Defined.

End LifecycleFacts.
